(** * metal-detecting: photo service, maintenance scripts and URL state

  A shallow embedding of the parts of the application that talk to the
  hosted backend (src/photoService.js, printed in the sources after
  PhotoHoverPreview.jsx), of the maintenance scripts
  (regenerate-thumbnails.js, migrate-images-to-storage.js) and of the URL
  synchronisation of MapComponent.jsx.

  The hosted backend (table [photos], bucket [original-images]) is a
  component of the [world]; every SDK call is recorded in [requests] and
  answers with the next entry of [responses], so that any pattern of
  backend failures can be played against the code. *)

From Stdlib Require Import ZArith QArith Qround Qminmax Qabs Lqa String Ascii List Lia.
From stdpp Require Import base option list gmap strings sorting.

Local Open Scope Z_scope.

(** ** JavaScript values *)

Module JS.

(** The values a JSON claim such as [user_metadata.admin] can hold. *)
Inductive value :=
| Undefined
| Null
| Bool (b : bool)
| Num (z : Z)
| Str (s : string).

(** [v === true] *)
Definition is_true (v : value) : bool :=
  match v with
  | Bool true => true
  | _ => false
  end.

(** Truthiness of a nullable string: [null] and [""] are falsy. *)
Definition truthy (s : option string) : bool :=
  match s with
  | None => false
  | Some EmptyString => false
  | Some _ => true
  end.

(** [s || d] on a nullable string. *)
Definition or_else (s : option string) (d : string) : string :=
  match s with
  | Some (String c r) => String c r
  | _ => d
  end.

(** [s || null] on a nullable string. *)
Definition or_null (s : option string) : option string :=
  if truthy s then s else None.

(** An [Error] object or an error payload of the SDK: only [message]
    is ever read by the code. *)
Record error := Error { message : string }.

(** [haystack.includes(needle)] *)
Fixpoint prefix (p s : string) : bool :=
  match p, s with
  | EmptyString, _ => true
  | String a p', String b s' => if Ascii.eqb a b then prefix p' s' else false
  | String _ _, EmptyString => false
  end.

Fixpoint includes (haystack needle : string) : bool :=
  if prefix needle haystack then true
  else match haystack with
       | EmptyString => false
       | String _ rest => includes rest needle
       end.

(** [s.replace(/[:.]/g, "-")] *)
Fixpoint replace_colon_dot (s : string) : string :=
  match s with
  | EmptyString => EmptyString
  | String c r =>
      String (if Ascii.eqb c ":"%char || Ascii.eqb c "."%char then "-"%char else c)
             (replace_colon_dot r)
  end.

End JS.

(** ** Images

  A data URL is too long to spell out as a string.  It is described by its
  number of characters and by the picture it decodes to, and a picture by
  the way it was produced, so that "derived from" can be read off. *)

Module Image.

Inductive picture :=
| Camera (file : string) (width height : Z)
    (** the file read by the FileReader, with its natural size *)
| Canvas (src : picture) (cw ch : Z) (dw dh : Q) (quality : Q)
    (** [drawImage(src, 0, 0, dw, dh)] on a [cw] x [ch] canvas, then
        [toDataURL("image/jpeg", quality)] *)
| Sharp (src : picture) (maxWidth maxHeight quality : Z).
    (** the Sharp pipeline of the scripts: rotate, resize inside
        [maxWidth] x [maxHeight] without enlargement, JPEG *)

(** A data URL: its length, whether the part after the comma is base64
    that [atob] accepts, and the picture it decodes to ([None]: the string
    is not an image the platform can load). *)
Record dataurl := DataURL { chars : Z; base64 : bool; decoded : option picture }.

(** Width and height a loaded picture reports. *)
Fixpoint natural (p : picture) : Z * Z :=
  match p with
  | Camera _ w h => (w, h)
  | Canvas _ cw ch _ _ _ => (cw, ch)
  | Sharp src mw mh _ =>
      let '(w, h) := natural src in
      if (mw <? w) || (mh <? h) then
        let scale := Qmin (inject_Z mw / inject_Z w) (inject_Z mh / inject_Z h) in
        (Qfloor (inject_Z w * scale + (1 # 2)), Qfloor (inject_Z h * scale + (1 # 2)))
      else (w, h)
  end.

(** The picture at the root of a chain of derivations. *)
Fixpoint origin (p : picture) : picture :=
  match p with
  | Camera _ _ _ => p
  | Canvas src _ _ _ _ _ => origin src
  | Sharp src _ _ _ => origin src
  end.

(** [p] was produced from [q] in one step. *)
Definition made_from (p q : picture) : Prop :=
  match p with
  | Camera _ _ _ => False
  | Canvas src _ _ _ _ _ => src = q
  | Sharp src _ _ _ => src = q
  end.

End Image.

(** ** The table [photos] (migrations/supabase-schema.sql and the later
    ALTER TABLE migrations) *)

Module Table.

(** The columns of a row other than its key [id]; a SQL NULL is [None]. *)
Record columns := Columns {
  lat : option Q;
  lng : option Q;
  image_data : option Image.dataurl;
  thumbnail_data : option Image.dataurl;
  storage_path : option string;
  timestamp : option string;
  filename : option string;
  type : option string;
  name : option string;
  description : option string;
  user_id : option string;
  created_at : option string;
  updated_at : option string
}.

(** One [column: value] entry of the object given to [.update(...)]. *)
Inductive assignment :=
| SetImageData (v : option Image.dataurl)
| SetThumbnailData (v : option Image.dataurl)
| SetStoragePath (v : option string)
| SetType (v : option string)
| SetName (v : option string)
| SetDescription (v : option string).

Definition assign (a : assignment) (c : columns) : columns :=
  match a with
  | SetImageData v =>
      Columns (lat c) (lng c) v (thumbnail_data c) (storage_path c) (timestamp c)
        (filename c) (type c) (name c) (description c) (user_id c) (created_at c)
        (updated_at c)
  | SetThumbnailData v =>
      Columns (lat c) (lng c) (image_data c) v (storage_path c) (timestamp c)
        (filename c) (type c) (name c) (description c) (user_id c) (created_at c)
        (updated_at c)
  | SetStoragePath v =>
      Columns (lat c) (lng c) (image_data c) (thumbnail_data c) v (timestamp c)
        (filename c) (type c) (name c) (description c) (user_id c) (created_at c)
        (updated_at c)
  | SetType v =>
      Columns (lat c) (lng c) (image_data c) (thumbnail_data c) (storage_path c)
        (timestamp c) (filename c) v (name c) (description c) (user_id c)
        (created_at c) (updated_at c)
  | SetName v =>
      Columns (lat c) (lng c) (image_data c) (thumbnail_data c) (storage_path c)
        (timestamp c) (filename c) (type c) v (description c) (user_id c)
        (created_at c) (updated_at c)
  | SetDescription v =>
      Columns (lat c) (lng c) (image_data c) (thumbnail_data c) (storage_path c)
        (timestamp c) (filename c) (type c) (name c) v (user_id c) (created_at c)
        (updated_at c)
  end.

Definition patch (p : list assignment) (c : columns) : columns :=
  fold_left (fun c a => assign a c) p c.

(** The trigger [update_photos_updated_at]: BEFORE UPDATE, [updated_at = NOW()]. *)
Definition touch (now : string) (c : columns) : columns :=
  Columns (lat c) (lng c) (image_data c) (thumbnail_data c) (storage_path c)
    (timestamp c) (filename c) (type c) (name c) (description c) (user_id c)
    (created_at c) (Some now).

(** The column defaults of an INSERT: [created_at] and [updated_at] are
    [NOW()] when the statement gives none. *)
Definition defaults (now : string) (c : columns) : columns :=
  Columns (lat c) (lng c) (image_data c) (thumbnail_data c) (storage_path c)
    (timestamp c) (filename c) (type c) (name c) (description c) (user_id c)
    (match created_at c with Some t => Some t | None => Some now end)
    (match updated_at c with Some t => Some t | None => Some now end).

(** The NOT NULL constraints of the schema. *)
Definition not_null (c : columns) : bool :=
  match lat c, lng c, image_data c, timestamp c with
  | Some _, Some _, Some _, Some _ => true
  | _, _, _, _ => false
  end.

(** A row as a query returns it. *)
Definition row : Type := Z * columns.

End Table.

(** ** The world: backend, platform and console *)

(** A request of the SDK, as it reaches the backend. *)
Inductive request :=
| StorageUpload (path : string) (blob : Image.dataurl)
| StorageRemove (paths : list string)
| PhotosInsert (values : Table.columns)
| PhotosUpdate (values : list Table.assignment) (id : Z)
| PhotosDelete (id : Z)
| PhotosSelectStoragePath (id : Z)
| PhotosSelectIn (ids : list Z)
| PhotosSelectRange (first last : Z)
| PhotosSelectToMigrate (limit : Z) (after : Z)
| PhotosCount
| PhotosCountToMigrate.

(** The file [migration-progress.json]. *)
Record progress := Progress {
  processed : Z;
  successful : Z;
  failed : Z;
  lastProcessedId : Z;
  startTime : string
}.

Inductive file :=
| Absent
| Unreadable
| Saved (p : progress).

Record world := World {
  photos : gmap Z Table.columns;       (** the rows of [photos], by [id] *)
  photos_id_seq : Z;                    (** the BIGSERIAL sequence of [id] *)
  bucket : gmap string Image.dataurl;  (** the objects of [original-images] *)
  responses : list (option JS.error);  (** what the backend will answer:
                                            [Some e] fails the request with [e] *)
  requests : list (request * option JS.error);
                                        (** the requests made, oldest first,
                                            each with the error it met *)
  console : list (string * option JS.error);  (** console lines, oldest first *)
  sleeps : list Z;                      (** the [setTimeout] delays awaited *)
  clock : nat -> string;                (** the ISO time at each reading *)
  ticks : nat;                          (** the readings of the clock so far *)
  jpeg_chars : Image.picture -> Z;      (** the length of an encoded picture *)
  progress_file : file
}.

Definition set_photos (f : gmap Z Table.columns -> gmap Z Table.columns) (w : world) :=
  World (f (photos w)) (photos_id_seq w) (bucket w) (responses w) (requests w)
    (console w) (sleeps w) (clock w) (ticks w) (jpeg_chars w) (progress_file w).
Definition set_photos_id_seq (n : Z) (w : world) :=
  World (photos w) n (bucket w) (responses w) (requests w)
    (console w) (sleeps w) (clock w) (ticks w) (jpeg_chars w) (progress_file w).
Definition set_bucket (f : gmap string Image.dataurl -> gmap string Image.dataurl) (w : world) :=
  World (photos w) (photos_id_seq w) (f (bucket w)) (responses w) (requests w)
    (console w) (sleeps w) (clock w) (ticks w) (jpeg_chars w) (progress_file w).
Definition set_responses (r : list (option JS.error)) (w : world) :=
  World (photos w) (photos_id_seq w) (bucket w) r (requests w)
    (console w) (sleeps w) (clock w) (ticks w) (jpeg_chars w) (progress_file w).
Definition set_requests (r : list (request * option JS.error)) (w : world) :=
  World (photos w) (photos_id_seq w) (bucket w) (responses w) r
    (console w) (sleeps w) (clock w) (ticks w) (jpeg_chars w) (progress_file w).
Definition set_console (c : list (string * option JS.error)) (w : world) :=
  World (photos w) (photos_id_seq w) (bucket w) (responses w) (requests w)
    c (sleeps w) (clock w) (ticks w) (jpeg_chars w) (progress_file w).
Definition set_sleeps (s : list Z) (w : world) :=
  World (photos w) (photos_id_seq w) (bucket w) (responses w) (requests w)
    (console w) s (clock w) (ticks w) (jpeg_chars w) (progress_file w).
Definition set_ticks (n : nat) (w : world) :=
  World (photos w) (photos_id_seq w) (bucket w) (responses w) (requests w)
    (console w) (sleeps w) (clock w) n (jpeg_chars w) (progress_file w).
Definition set_progress_file (f : file) (w : world) :=
  World (photos w) (photos_id_seq w) (bucket w) (responses w) (requests w)
    (console w) (sleeps w) (clock w) (ticks w) (jpeg_chars w) f.

(** ** Asynchronous computations

    An [async] function runs on the world and settles with a value, throws,
    never settles ([Pending]: a promise nobody resolves), or ends the
    process ([Exit], in the scripts). *)

Inductive outcome (A : Type) :=
| Ret (a : A)
| Throw (e : JS.error)
| Pending
| Exit (code : Z).
Arguments Ret {A} a.
Arguments Throw {A} e.
Arguments Pending {A}.
Arguments Exit {A} code.

Definition Async (A : Type) : Type := world -> outcome A * world.

#[global] Instance Async_ret : MRet Async := fun A a w => (Ret a, w).

#[global] Instance Async_bind : MBind Async := fun A B f m w =>
  match m w with
  | (Ret a, w') => f a w'
  | (Throw e, w') => (Throw e, w')
  | (Pending, w') => (Pending, w')
  | (Exit c, w') => (Exit c, w')
  end.

Definition throw {A} (e : JS.error) : Async A := fun w => (Throw e, w).
Definition never {A} : Async A := fun w => (Pending, w).
Definition process_exit {A} (code : Z) : Async A := fun w => (Exit code, w).

(** [try { body } catch (e) { handler e }] *)
Definition try_catch {A} (body : Async A) (handler : JS.error -> Async A) : Async A :=
  fun w =>
    match body w with
    | (Throw e, w') => handler e w'
    | r => r
    end.

Definition console_log (line : string) (e : option JS.error) : Async unit :=
  fun w => (Ret tt, set_console (console w ++ [(line, e)]) w).

(** [await new Promise((resolve) => setTimeout(resolve, delay))] *)
Definition sleep (delay : Z) : Async unit :=
  fun w => (Ret tt, set_sleeps (sleeps w ++ [delay]) w).

(** [new Date().toISOString()], also the NOW() of the database. *)
Definition now : Async string :=
  fun w => (Ret (clock w (ticks w)), set_ticks (S (ticks w)) w).

(** The next answer of the backend: [Some e] fails the request at hand
    with [e]; with no answer scripted the request goes through. *)
Definition answer : Async (option JS.error) :=
  fun w =>
    match responses w with
    | [] => (Ret None, w)
    | a :: rest => (Ret a, set_responses rest w)
    end.

Definition record (r : request) (e : option JS.error) : Async unit :=
  fun w => (Ret tt, set_requests (requests w ++ [(r, e)]) w).

Definition get {A} (f : world -> A) : Async A := fun w => (Ret (f w), w).
Definition modify (f : world -> world) : Async unit := fun w => (Ret tt, f w).

(** ** The SDK client ([supabase]) *)

Module Supabase.

(** The [{ data, error }] object every call settles with. *)
Record response (D : Type) := Response { data : option D; error : option JS.error }.
Arguments Response {D} data error.
Arguments data {D} r.
Arguments error {D} r.

Definition failed {D} (e : JS.error) : Async (response D) := mret (Response None (Some e)).
Definition ok {D} (d : D) : Async (response D) := mret (Response (Some d) None).

(** A request is carried out and enters the log with the error it met. *)
Definition exchange {D} (r : request) (carry_out : Async (response D)) : Async (response D) :=
  a ← answer;
  resp ← match a with
         | Some e => failed e
         | None => carry_out
         end;
  record r (error resp);;
  mret resp.

(** [supabase.storage.from(bucket).upload(path, blob, { upsert: false })] *)
Definition storage_upload (path : string) (blob : Image.dataurl) : Async (response string) :=
  exchange (StorageUpload path blob)
    (b ← get bucket;
     match b !! path with
     | Some _ => failed (JS.Error "The resource already exists")
     | None => modify (set_bucket (insert path blob));; ok path
     end).

(** [supabase.storage.from(bucket).remove(paths)] *)
Definition storage_remove (paths : list string) : Async (response unit) :=
  exchange (StorageRemove paths)
    (modify (set_bucket (fun b => foldr delete b paths));; ok tt).

(** [supabase.from("photos").insert([values]).select()] *)
Definition photos_insert (values : Table.columns) : Async (response (list Table.row)) :=
  exchange (PhotosInsert values)
    (if Table.not_null values then
       t ← now;
       id ← get photos_id_seq;
       p ← get photos;
       match p !! id with
       | Some _ => failed (JS.Error "duplicate key value violates unique constraint")
       | None =>
           let r := Table.defaults t values in
           modify (set_photos (insert id r));;
           modify (set_photos_id_seq (id + 1));;
           ok [(id, r)]
       end
     else failed (JS.Error "null value violates not-null constraint")).

(** [supabase.from("photos").update(values).eq("id", id)], with or without
    a final [.select()] *)
Definition photos_update (values : list Table.assignment) (id : Z)
  : Async (response (list Table.row)) :=
  exchange (PhotosUpdate values id)
    (p ← get photos;
     match p !! id with
     | None => ok []
     | Some c =>
         t ← now;
         let r := Table.touch t (Table.patch values c) in
         if Table.not_null r then modify (set_photos (insert id r));; ok [(id, r)]
         else failed (JS.Error "null value violates not-null constraint")
     end).

(** [supabase.from("photos").delete().eq("id", id)] *)
Definition photos_delete (id : Z) : Async (response unit) :=
  exchange (PhotosDelete id) (modify (set_photos (delete id));; ok tt).

(** [supabase.from("photos").select("storage_path").eq("id", id).single()];
    the data is the object [{ storage_path }]. *)
Definition photos_select_storage_path (id : Z) : Async (response (option string)) :=
  exchange (PhotosSelectStoragePath id)
    (p ← get photos;
     match p !! id with
     | None => failed (JS.Error "JSON object requested, multiple (or no) rows returned")
     | Some c => ok (Table.storage_path c)
     end).

End Supabase.

(** ** lib/utils.js *)

Module Utils.

Record metadata := Metadata { admin : JS.value }.

(** The [user] object of the auth context; [null] is [None]. *)
Record user := User { id : string; user_metadata : option metadata }.

Definition checkAdminPermission (user : option user) : bool :=
  match user with
  | None => false
  | Some u =>
      match user_metadata u with
      | None => false
      | Some m => JS.is_true (admin m)
      end
  end.

Definition requireAdmin (user : option user) : Async bool :=
  if negb (checkAdminPermission user) then
    throw (JS.Error "Admin permission required for this operation")
  else mret true.

End Utils.

(** ** photoService.js *)

Module PhotoService.

Import Utils.

(** The object the map component hands to [savePhotoToDatabase]. *)
Record photoData := PhotoData {
  lat : option Q;
  lng : option Q;
  imageData : Image.dataurl;
  timestamp : option string;
  filename : option string;
  type : option string;
  name : option string;
  description : option string
}.

(** The [{ success, data, error }] object every operation settles with. *)
Record result := Result {
  success : bool;
  data : option Table.row;
  error : option JS.error
}.

Definition failure (e : JS.error) : result := Result false None (Some e).

Definition STORAGE_BUCKET : string := "original-images".

(** [img.onload]: fires with the decoded picture, or never. *)
Definition load (base64Image : Image.dataurl) : Async Image.picture :=
  match Image.decoded base64Image with
  | Some p => mret p
  | None => never
  end.

(** [canvas.width = width; canvas.height = height; drawImage(img, 0, 0,
    width, height); canvas.toDataURL("image/jpeg", quality)].  A canvas
    without area encodes as ["data:,"], which is no image. *)
Definition draw (img : Image.picture) (width height quality : Q) : Async Image.dataurl :=
  let cw := Qfloor width in
  let ch := Qfloor height in
  if (cw <=? 0) || (ch <=? 0) then mret (Image.DataURL 6 true None)
  else
    encode ← get jpeg_chars;
    let p := Image.Canvas img cw ch width height quality in
    mret (Image.DataURL (encode p) true (Some p)).

Definition Qgt_bool (a b : Q) : bool := negb (Qle_bool a b).

Definition compressImage (base64Image : Image.dataurl) (maxWidth maxHeight quality : Q)
  : Async Image.dataurl :=
  img ← load base64Image;
  let width := inject_Z (fst (Image.natural img)) in
  let height := inject_Z (snd (Image.natural img)) in
  let size :=
    if Qgt_bool width height then
      if Qgt_bool width maxWidth then (maxWidth, (height * maxWidth) / width)%Q
      else (width, height)
    else
      if Qgt_bool height maxHeight then ((width * maxHeight) / height, maxHeight)%Q
      else (width, height) in
  draw img (fst size) (snd size) quality.

(** [Math.round] *)
Definition Math_round (x : Q) : Q := inject_Z (Qfloor (x + (1 # 2))).

Definition createThumbnail (base64Image : Image.dataurl) (maxWidth maxHeight : Q)
  : Async Image.dataurl :=
  img ← load base64Image;
  let width := inject_Z (fst (Image.natural img)) in
  let height := inject_Z (snd (Image.natural img)) in
  let size :=
    if Qgt_bool width maxWidth || Qgt_bool height maxHeight then
      let scaleX := (maxWidth / width)%Q in
      let scaleY := (maxHeight / height)%Q in
      let scale := Qmin scaleX scaleY in
      (Math_round (width * scale), Math_round (height * scale))
    else (width, height) in
  draw img (fst size) (snd size) (85 # 100).

Definition validateImageSize (base64Image : Image.dataurl) : Async bool :=
  let sizeInBytes := ((inject_Z (Image.chars base64Image) * 3) / 4)%Q in
  let maxSizeInMB := 2%Q in
  let maxSizeInBytes := (maxSizeInMB * 1024 * 1024)%Q in
  if Qgt_bool sizeInBytes maxSizeInBytes then
    throw (JS.Error "Image is too large")
  else mret true.

(** [atob] throws on what is not base64; the blob is the image. *)
Definition base64ToBlob (base64Data : Image.dataurl) : Async Image.dataurl :=
  if Image.base64 base64Data then mret base64Data
  else throw (JS.Error "The string to be decoded is not correctly encoded.").

Definition uploadOriginalImage (base64Image : Image.dataurl) (filename userId : string)
  : Async string :=
  try_catch
    (blob ← base64ToBlob base64Image;
     iso ← now;
     let timestamp := JS.replace_colon_dot iso in
     let uniqueFilename := (userId +:+ "/" +:+ timestamp +:+ "_" +:+ filename) in
     r ← Supabase.storage_upload uniqueFilename blob;
     match Supabase.error r, Supabase.data r with
     | Some error, _ =>
         console_log "Error uploading to storage:" (Some error);;
         throw error
     | None, Some path => mret path
     | None, None => throw (JS.Error "Cannot read properties of null (reading 'path')")
     end)
    (fun error =>
       console_log "Error in uploadOriginalImage:" (Some error);;
       throw error).

Definition deleteOriginalImage (storagePath : string) : Async bool :=
  try_catch
    (r ← Supabase.storage_remove [storagePath];
     match Supabase.error r with
     | Some error =>
         console_log "Error deleting from storage:" (Some error);;
         throw error
     | None => mret true
     end)
    (fun error =>
       console_log "Error in deleteOriginalImage:" (Some error);;
       throw error).

(** [user.id]; reading it on [null] is a TypeError. *)
Definition user_id (user : option user) : Async string :=
  match user with
  | Some u => mret (id u)
  | None => throw (JS.Error "Cannot read properties of null (reading 'id')")
  end.

(** [data[0]]; indexing [null] is a TypeError. *)
Definition first (data : option (list Table.row)) : Async (option Table.row) :=
  match data with
  | Some rows => mret (head rows)
  | None => throw (JS.Error "Cannot read properties of null (reading '0')")
  end.

Definition savePhotoToDatabase (photoData : photoData) (user : option user) : Async result :=
  try_catch
    (requireAdmin user;;
     validateImageSize (imageData photoData);;
     uid ← user_id user;
     storagePath ← uploadOriginalImage (imageData photoData)
                      (JS.or_else (filename photoData) "photo.jpg") uid;
     compressedImage ← compressImage (imageData photoData) 800 600 (8 # 10);
     thumbnail ← createThumbnail compressedImage 800 800;
     created ← now;
     r ← Supabase.photos_insert
           {| Table.lat := lat photoData;
              Table.lng := lng photoData;
              Table.image_data := Some compressedImage;
              Table.thumbnail_data := Some thumbnail;
              Table.storage_path := Some storagePath;
              Table.timestamp := timestamp photoData;
              Table.filename := filename photoData;
              Table.type := JS.or_null (type photoData);
              Table.name := JS.or_null (name photoData);
              Table.description := JS.or_null (description photoData);
              Table.user_id := Some uid;
              Table.created_at := Some created;
              Table.updated_at := None |};
     match Supabase.error r with
     | Some error =>
         console_log "Error saving photo to database:" (Some error);;
         try_catch
           (deleteOriginalImage storagePath;; mret tt)
           (fun cleanupError =>
              console_log "Error cleaning up uploaded file:" (Some cleanupError));;
         mret (failure error)
     | None =>
         console_log "Photo saved to database and storage:" None;;
         saved ← first (Supabase.data r);
         mret (Result true saved None)
     end)
    (fun error =>
       console_log "Error saving photo:" (Some error);;
       mret (failure error)).

Definition updatePhotoType (photoId : Z) (newType : option string) (user : option user)
  : Async result :=
  try_catch
    (requireAdmin user;;
     r ← Supabase.photos_update [Table.SetType newType] photoId;
     match Supabase.error r with
     | Some error =>
         console_log "Error updating photo type:" (Some error);;
         mret (failure error)
     | None =>
         console_log "Photo type updated in database:" None;;
         updated ← first (Supabase.data r);
         mret (Result true updated None)
     end)
    (fun error =>
       console_log "Error updating photo type:" (Some error);;
       mret (failure error)).

Definition updatePhotoDetails (photoId : Z) (name description : option string)
    (user : option user) : Async result :=
  try_catch
    (requireAdmin user;;
     r ← Supabase.photos_update
           [Table.SetName (JS.or_null name); Table.SetDescription (JS.or_null description)]
           photoId;
     match Supabase.error r with
     | Some error =>
         console_log "Error updating photo details:" (Some error);;
         mret (failure error)
     | None =>
         console_log "Photo details updated in database:" None;;
         updated ← first (Supabase.data r);
         mret (Result true updated None)
     end)
    (fun error =>
       console_log "Error updating photo details:" (Some error);;
       mret (failure error)).

Definition deletePhotoFromDatabase (photoId : Z) (user : option user) : Async result :=
  try_catch
    (requireAdmin user;;
     fetched ← Supabase.photos_select_storage_path photoId;
     let photoData := Supabase.data fetched in
     match Supabase.error fetched with
     | Some fetchError => console_log "Error fetching photo storage path:" (Some fetchError)
     | None => mret tt
     end;;
     r ← Supabase.photos_delete photoId;
     match Supabase.error r with
     | Some error =>
         console_log "Error deleting photo from database:" (Some error);;
         mret (failure error)
     | None =>
         match photoData with
         | Some (Some (String c path)) =>
             try_catch
               (deleteOriginalImage (String c path);;
                console_log "Original image deleted from storage" None)
               (fun storageError =>
                  console_log "Error deleting from storage (non-critical):"
                    (Some storageError))
         | _ => mret tt
         end;;
         console_log "Photo deleted from database and storage" None;;
         mret (Result true None None)
     end)
    (fun error =>
       console_log "Error deleting photo:" (Some error);;
       mret (failure error)).

End PhotoService.

(** ** scripts/regenerate-thumbnails.js

    The script [generate-thumbnails.js] has the same [retryOperation],
    [updatePhotoWithThumbnail] and [processBatch]. *)

Module RegenerateThumbnails.

Record config := Config { maxWidth : Z; maxHeight : Z; quality : Z }.

Definition THUMBNAIL_CONFIG : config := Config 800 800 85.
Definition BATCH_SIZE : Z := 5.
Definition DELAY_BETWEEN_BATCHES : Z := 2000.
Definition MAX_RETRIES : Z := 3.

(** The command line: [--all], [--id=...], [--limit=N], [--dry-run]. *)
Record options := Options {
  allMode : bool;
  photoIds : list Z;
  limit : option Z;
  dryRun : bool
}.

Definition isTimeout (error : JS.error) : bool :=
  JS.includes (JS.message error) "timeout"
  || JS.includes (JS.message error) "canceling statement".

(** The [for] loop of [retryOperation]: [left] iterations remain, the next
    one is number [attempt]. *)
Fixpoint retry_loop {A} (operation : Async A) (operationName : string) (maxRetries : Z)
    (lastError : option JS.error) (attempt : Z) (left : nat) : Async A :=
  match left with
  | O => throw (default (JS.Error "undefined") lastError)
  | S left' =>
      try_catch operation
        (fun error =>
           if isTimeout error && (attempt <? maxRetries) then
             let delay := attempt * 2000 in
             console_log (operationName +:+ " failed") (Some error);;
             console_log "Retrying" None;;
             sleep delay;;
             retry_loop operation operationName maxRetries (Some error) (attempt + 1) left'
           else throw error)
  end.

Definition retryOperation {A} (operation : Async A) (operationName : string)
    (maxRetries : Z) : Async A :=
  retry_loop operation operationName maxRetries None 1 (Z.to_nat maxRetries).

(** The Sharp pipeline: it rejects a buffer that is no image, and
    [null.replace] is a TypeError. *)
Definition createThumbnail (base64Image : option Image.dataurl) (config : config)
  : Async Image.dataurl :=
  try_catch
    (match base64Image with
     | None => throw (JS.Error "Cannot read properties of null (reading 'replace')")
     | Some url =>
         match Image.decoded url with
         | None => throw (JS.Error "Input buffer contains unsupported image format")
         | Some p =>
             encode ← get jpeg_chars;
             let t := Image.Sharp p (maxWidth config) (maxHeight config) (quality config) in
             mret (Image.DataURL (encode t) true (Some t))
         end
     end)
    (fun error =>
       console_log "Error creating thumbnail:" (Some error);;
       throw error).

(** What the fetching functions return. *)
Record page := Page { photos_of : list Table.row; hasMore : bool; total : Z }.

(** The rows in the order of the table scan. *)
Definition scan (p : gmap Z Table.columns) : list Table.row := map_to_list p.

(** [supabase.from("photos").select(...).in("id", ids)] *)
Definition photos_select_in (ids : list Z) : Async (Supabase.response (list Table.row)) :=
  Supabase.exchange (PhotosSelectIn ids)
    (p ← get photos;
     Supabase.ok (filter (fun r => fst r ∈ ids) (scan p))).

(** ORDER BY created_at ASC: NULL sorts last. *)
Definition created_leb (a b : Table.row) : bool :=
  match Table.created_at (snd a), Table.created_at (snd b) with
  | _, None => true
  | None, Some _ => false
  | Some s, Some t => String.leb s t
  end.

Definition created_le (a b : Table.row) : Prop := created_leb a b = true.

#[global] Instance created_le_dec : RelDecision created_le :=
  fun a b => decide (created_leb a b = true).

(** [.range(first, last)]: the rows at positions [first] to [last]. *)
Definition range {A} (first last : Z) (rows : list A) : list A :=
  take (Z.to_nat (last - first + 1)) (drop (Z.to_nat first) rows).

(** [supabase.from("photos").select(...).order("created_at", { ascending:
    true }).range(first, last)] *)
Definition photos_select_range (first last : Z)
  : Async (Supabase.response (list Table.row)) :=
  Supabase.exchange (PhotosSelectRange first last)
    (p ← get photos;
     Supabase.ok (range first last (merge_sort created_le (scan p)))).

(** [supabase.from("photos").select("*", { count: "exact", head: true })];
    the count is kept in [data]. *)
Definition photos_count : Async (Supabase.response Z) :=
  Supabase.exchange PhotosCount
    (p ← get photos;
     Supabase.ok (Z.of_nat (size p))).

Definition database_error (prefix : string) (error : JS.error) : JS.error :=
  JS.Error (prefix +:+ JS.message error).

Definition getPhotosByIds (ids : list Z) : Async page :=
  try_catch
    (console_log "Fetching photos with IDs" None;;
     r ← photos_select_in ids;
     match Supabase.error r, Supabase.data r with
     | Some error, _ => throw (database_error "Database error: " error)
     | None, None
     | None, Some [] =>
         console_log "No photos found with the specified IDs" None;;
         mret (Page [] false 0)
     | None, Some photos =>
         console_log "Found photos with the specified IDs" None;;
         mret (Page photos false (Z.of_nat (length photos)))
     end)
    (fun error =>
       console_log "Error fetching photos by IDs:" (Some error);;
       throw error).

Definition getAllPhotos (limit offset : Z) : Async page :=
  try_catch
    (console_log "Fetching all photos" None;;
     r ← photos_select_range offset (offset + limit - 1);
     match Supabase.error r, Supabase.data r with
     | Some error, _ => throw (database_error "Database error: " error)
     | None, None => throw (JS.Error "Cannot read properties of null (reading 'length')")
     | None, Some photos =>
         let hasMore := Z.of_nat (length photos) =? limit in
         console_log "Found photos" None;;
         mret (Page photos hasMore (Z.of_nat (length photos)))
     end)
    (fun error =>
       console_log "Error fetching all photos:" (Some error);;
       throw error).

(** The count, or [null]. *)
Definition getAllPhotosCount : Async (option Z) :=
  try_catch
    (console_log "Counting all photos..." None;;
     r ← photos_count;
     match Supabase.error r with
     | Some error =>
         console_log "Could not get total count, proceeding without it:" (Some error);;
         mret None
     | None =>
         console_log "Total photos" None;;
         mret (Supabase.data r)
     end)
    (fun error =>
       console_log "Could not get total count, proceeding without it:" (Some error);;
       mret None).

Definition updatePhotoWithThumbnail (photoId : Z) (thumbnailData : Image.dataurl)
  : Async bool :=
  try_catch
    (r ← Supabase.photos_update [Table.SetThumbnailData (Some thumbnailData)] photoId;
     match Supabase.error r with
     | Some error => throw (database_error "Update error: " error)
     | None => mret true
     end)
    (fun error =>
       console_log "Error updating photo" (Some error);;
       mret false).

Record batch_results := Results {
  processed : Z;
  successful : Z;
  failed : Z;
  errors : list (Z * string)   (** [`Photo ${id}: ${message}`] *)
}.

Definition process_one (o : options) (photo : Table.row) (results : batch_results) : Async batch_results :=
  try_catch
    (console_log "Processing photo" None;;
     if dryRun o then
       console_log "[DRY RUN] Would regenerate thumbnail for photo" None;;
       mret (Results (processed results + 1) (successful results + 1) (failed results)
               (errors results))
     else
       thumbnail ← createThumbnail (Table.image_data (snd photo)) THUMBNAIL_CONFIG;
       success ← retryOperation (updatePhotoWithThumbnail (fst photo) thumbnail)
                   "Updating photo" MAX_RETRIES;
       results ← (if success : bool then
                    console_log "Successfully regenerated thumbnail for photo" None;;
                    mret (Results (processed results) (successful results + 1)
                            (failed results) (errors results))
                  else
                    mret (Results (processed results) (successful results)
                            (failed results + 1)
                            (errors results ++ [(fst photo, "Update failed")])));
       mret (Results (processed results + 1) (successful results) (failed results)
               (errors results)))
    (fun error =>
       console_log "Error processing photo" (Some error);;
       mret (Results (processed results) (successful results) (failed results + 1)
               (errors results ++ [(fst photo, JS.message error)]))).

Fixpoint process_each (o : options) (photos : list Table.row) (results : batch_results)
  : Async batch_results :=
  match photos with
  | [] => mret results
  | photo :: rest =>
      results ← process_one o photo results;
      process_each o rest results
  end.

Definition processBatch (o : options) (photos : list Table.row) (batchIndex : Z)
  : Async batch_results :=
  console_log "Processing batch" None;;
  process_each o photos (Results 0 0 0 []).

(** [overallResults] *)
Record overall_results := Overall { total_photos : Z; tally : batch_results }.

Definition add_results (overall : overall_results) (batch : batch_results) : overall_results :=
  Overall (total_photos overall)
    (Results (processed (tally overall) + processed batch)
       (successful (tally overall) + successful batch)
       (failed (tally overall) + failed batch)
       (errors (tally overall) ++ errors batch)).

(** [photos.slice(startIndex, endIndex)] for [0 <= startIndex <= endIndex] *)
Definition slice {A} (startIndex endIndex : Z) (photos : list A) : list A :=
  take (Z.to_nat (endIndex - startIndex)) (drop (Z.to_nat startIndex) photos).

(** [Math.ceil(n / BATCH_SIZE)] for a length [n] *)
Definition batches_of (n : Z) : Z := (n + BATCH_SIZE - 1) / BATCH_SIZE.

(** The [for] loop over the processing batches: [left] iterations remain. *)
Fixpoint process_batches (o : options) (photos : list Table.row) (processingBatches : Z)
    (batchIndex : Z) (left : nat) (overallResults : overall_results)
  : Async overall_results :=
  match left with
  | O => mret overallResults
  | S left' =>
      let startIndex := batchIndex * BATCH_SIZE in
      let endIndex := Z.min (startIndex + BATCH_SIZE) (Z.of_nat (length photos)) in
      let batchPhotos := slice startIndex endIndex photos in
      batchResults ← processBatch o batchPhotos batchIndex;
      let overallResults := add_results overallResults batchResults in
      (if batchIndex <? processingBatches - 1 then
         console_log "Waiting before next processing batch..." None;;
         sleep DELAY_BETWEEN_BATCHES
       else mret tt);;
      process_batches o photos processingBatches (batchIndex + 1) left' overallResults
  end.

Definition process_all_batches (o : options) (photos : list Table.row)
    (overallResults : overall_results) : Async overall_results :=
  let processingBatches := batches_of (Z.of_nat (length photos)) in
  process_batches o photos processingBatches 0 (Z.to_nat processingBatches) overallResults.

Definition FETCH_BATCH_SIZE : Z := 3.

(** A number option used as a condition: [null] and [0] are falsy. *)
Definition nonzero (n : option Z) : option Z :=
  match n with
  | Some 0 => None
  | other => other
  end.

(** The [while (hasMore)] loop of the [--all] mode.  [fuel] bounds the
    number of iterations; the loop is [Pending] when it does not suffice. *)
Fixpoint fetch_loop (o : options) (totalCount : option Z) (fuel : nat) (offset : Z)
    (overallResults : overall_results) : Async overall_results :=
  match fuel with
  | O => never
  | S fuel' =>
      let fetchSize :=
        match nonzero (limit o) with
        | Some limit => Z.min FETCH_BATCH_SIZE (limit - processed (tally overallResults))
        | None => FETCH_BATCH_SIZE
        end in
      match nonzero (limit o) with
      | Some limit =>
          if limit <=? processed (tally overallResults) then
            console_log "Reached limit of photos. Stopping." None;;
            mret (Some overallResults)
          else mret None
      | None => mret None
      end ≫= fun stopped =>
      match stopped with
      | Some overallResults => mret overallResults
      | None =>
          result ← retryOperation (getAllPhotos fetchSize offset)
                     "Fetching photos batch" MAX_RETRIES;
          let batchPhotos := photos_of result in
          if Z.of_nat (length batchPhotos) =? 0 then
            console_log "No more photos found." None;;
            mret overallResults
          else
            let overallResults :=
              if total_photos overallResults =? 0 then
                Overall (default (Z.of_nat (length batchPhotos)) (nonzero totalCount))
                  (tally overallResults)
              else overallResults in
            console_log "Processing batch starting at offset" None;;
            overallResults ← process_all_batches o batchPhotos overallResults;
            let offset := offset + FETCH_BATCH_SIZE in
            if hasMore result then
              console_log "Waiting before fetching next batch..." None;;
              sleep DELAY_BETWEEN_BATCHES;;
              fetch_loop o totalCount fuel' offset overallResults
            else mret overallResults
      end
  end.

Definition print_results (overallResults : overall_results) : Async unit :=
  console_log "Thumbnail Regeneration Complete!" None;;
  console_log "Total photos processed" None;;
  console_log "Successfully processed" None;;
  console_log "Failed" None;;
  (if 0 <? processed (tally overallResults) then console_log "Success rate" None
   else mret tt);;
  (if 0 <? Z.of_nat (length (errors (tally overallResults))) then
     console_log "Errors encountered:" None
   else mret tt);;
  if 0 <? successful (tally overallResults) then
    console_log "Thumbnail regeneration completed successfully!" None
  else if processed (tally overallResults) =? 0 then
    console_log "No photos found to process." None
  else mret tt.

Definition regenerateThumbnails (o : options) (fuel : nat) : Async unit :=
  console_log "Starting thumbnail regeneration process..." None;;
  (if dryRun o then console_log "DRY RUN MODE - No changes will be made" None
   else mret tt);;
  try_catch
    (match photoIds o with
     | _ :: _ =>
         console_log "Processing specific photos" None;;
         result ← getPhotosByIds (photoIds o);
         let photos := photos_of result in
         if Z.of_nat (length photos) =? 0 then
           console_log "No photos found to process." None
         else
           console_log "Processing photos..." None;;
           overallResults ← process_all_batches o photos
                              (Overall (Z.of_nat (length photos)) (Results 0 0 0 []));
           print_results overallResults
     | [] =>
         if allMode o then
           console_log "Processing all photos" None;;
           totalCount ← getAllPhotosCount;
           console_log "Processing photos in batches" None;;
           overallResults ← fetch_loop o totalCount fuel 0
                              (Overall 0 (Results 0 0 0 []));
           print_results overallResults
         else
           console_log "Please specify either --all or --id=<photo_ids>" None;;
           process_exit 1
     end)
    (fun error =>
       console_log "Fatal error during thumbnail regeneration:" (Some error);;
       process_exit 1).

End RegenerateThumbnails.

(** ** migrate-images-to-storage.js *)

Module MigrateImages.

Definition DEFAULT_BATCH_SIZE : Z := 10.

(** The command line. *)
Record options := Options {
  batchSize : Z;
  dryRun : bool;
  resume : bool;
  cleanup : bool;
  authEmail : option string
}.

Definition authenticateUser (email : option string) : Async bool :=
  if negb (JS.truthy email) then mret false
  else
    console_log "Attempting to authenticate with email" None;;
    console_log "Authentication not implemented in this version." None;;
    mret false.

(** [log(message, level)]: the console line, also appended to the log file. *)
Definition log (message : string) (level : string) : Async unit :=
  console_log ("[" +:+ level +:+ "] " +:+ message) None.

Definition loadProgress : Async progress :=
  f ← get progress_file;
  match f with
  | Saved p => mret p
  | Unreadable =>
      log "Warning: Could not load progress file" "WARN";;
      startTime ← now;
      mret (Progress 0 0 0 0 startTime)
  | Absent =>
      startTime ← now;
      mret (Progress 0 0 0 0 startTime)
  end.

Definition saveProgress (progress : progress) : Async unit :=
  modify (set_progress_file (Saved progress)).

(** [fs.unlinkSync(PROGRESS_FILE)]: removing a file that is not there throws. *)
Definition unlink_progress_file : Async unit :=
  f ← get progress_file;
  match f with
  | Absent => throw (JS.Error "ENOENT: no such file or directory")
  | _ => modify (set_progress_file Absent)
  end.

(** [new Date(timestamp).toISOString()] of a stored time, taken to be in
    ISO form already; [new Date(null)] is the epoch. *)
Definition toISOString (timestamp : option string) : string :=
  match timestamp with
  | Some t => t
  | None => "1970-01-01T00:00:00.000Z"
  end.

Definition createUniqueFilename (photo : Table.row) : string :=
  let timestamp :=
    if JS.truthy (Table.timestamp (snd photo)) then Table.timestamp (snd photo)
    else Table.created_at (snd photo) in
  let dateStr := JS.replace_colon_dot (toISOString timestamp) in
  let filename := JS.or_else (Table.filename (snd photo)) "photo.jpg" in
  let userId := JS.or_else (Table.user_id (snd photo)) "unknown" in
  userId +:+ "/" +:+ dateStr +:+ "_" +:+ filename.

Definition rethrow {A} (prefix : string) (body : Async A) : Async A :=
  try_catch body (fun error => throw (JS.Error (prefix +:+ JS.message error))).

Definition base64ToBlob (base64Data : Image.dataurl) : Async Image.dataurl :=
  if Image.base64 base64Data then mret base64Data
  else throw (JS.Error "The string to be decoded is not correctly encoded.").

Definition uploadToStorage (base64Image : Image.dataurl) (filename : string)
  : Async string :=
  rethrow "Storage upload failed: "
    (blob ← base64ToBlob base64Image;
     r ← Supabase.storage_upload filename blob;
     match Supabase.error r, Supabase.data r with
     | Some error, _ => throw error
     | None, Some path => mret path
     | None, None => throw (JS.Error "Cannot read properties of null (reading 'path')")
     end).

Definition updatePhotoStoragePath (photoId : Z) (storagePath : string) : Async bool :=
  rethrow "Database update failed: "
    (r ← Supabase.photos_update [Table.SetStoragePath (Some storagePath)] photoId;
     match Supabase.error r with
     | Some error => throw error
     | None => mret true
     end).

Definition cleanupBase64Data (photoId : Z) : Async bool :=
  rethrow "Cleanup failed: "
    (r ← Supabase.photos_update
           [Table.SetImageData None; Table.SetThumbnailData None] photoId;
     match Supabase.error r with
     | Some error => throw error
     | None => mret true
     end).

(** [.is("storage_path", null).not("image_data", "is", null)] *)
Definition unmigrated (r : Table.row) : bool :=
  match Table.storage_path (snd r), Table.image_data (snd r) with
  | None, Some _ => true
  | _, _ => false
  end.

(** The filter of the migration query: [unmigrated] and
    [.gt("id", lastProcessedId)] *)
Definition to_migrate (lastProcessedId : Z) (r : Table.row) : bool :=
  unmigrated r && (lastProcessedId <? fst r).

(** ORDER BY id ASC *)
Definition id_le (a b : Table.row) : Prop := fst a <= fst b.

#[global] Instance id_le_dec : RelDecision id_le :=
  fun a b => decide (fst a <= fst b).

(** [supabase.from("photos").select(...).is(...).not(...).gt("id",
    lastProcessedId).order("id", { ascending: true }).limit(batchSize)] *)
Definition photos_select_to_migrate (batchSize lastProcessedId : Z)
  : Async (Supabase.response (list Table.row)) :=
  Supabase.exchange (PhotosSelectToMigrate batchSize lastProcessedId)
    (if batchSize <? 0 then Supabase.failed (JS.Error "LIMIT must not be negative")
     else
       p ← get photos;
       Supabase.ok
         (take (Z.to_nat batchSize)
            (merge_sort id_le (filter (fun r => to_migrate lastProcessedId r) (map_to_list p))))).

(** The count query of [getTotalPhotosToMigrate]. *)
Definition photos_count_to_migrate : Async (Supabase.response Z) :=
  Supabase.exchange PhotosCountToMigrate
    (p ← get photos;
     Supabase.ok
       (Z.of_nat (length (filter (fun r => unmigrated r) (map_to_list p))))).

Definition getPhotosToMigrate (batchSize lastProcessedId : Z) : Async (list Table.row) :=
  rethrow "Failed to fetch photos: "
    (r ← photos_select_to_migrate batchSize lastProcessedId;
     match Supabase.error r with
     | Some error => throw error
     | None => mret (default [] (Supabase.data r))
     end).

Definition getTotalPhotosToMigrate : Async Z :=
  try_catch
    (r ← photos_count_to_migrate;
     match Supabase.error r with
     | Some error => throw error
     | None => mret (default 0 (Supabase.data r))
     end)
    (fun error =>
       log "Warning: Could not get total count" "WARN";;
       mret 0).

(** What [processPhoto] settles with. *)
Inductive processed_photo :=
| Skipped (reason : string)
| Migrated (storagePath : string)
| Failed (error : string).

Definition processPhoto (o : options) (photo : Table.row) : Async processed_photo :=
  try_catch
    (if JS.truthy (Table.storage_path (snd photo)) then mret (Skipped "Already migrated")
     else
       match Table.image_data (snd photo) with
       | None => mret (Skipped "No image data")
       | Some image_data =>
           if dryRun o then mret (Skipped "Dry run mode")
           else
             let filename := createUniqueFilename photo in
             storagePath ← uploadToStorage image_data filename;
             updatePhotoStoragePath (fst photo) storagePath;;
             (if cleanup o then cleanupBase64Data (fst photo) else mret true);;
             mret (Migrated storagePath)
       end)
    (fun error => mret (Failed (JS.message error))).

(** The counters of [runMigration]. *)
Record counters := Counters {
  c_processed : Z;
  c_successful : Z;
  c_failed : Z;
  c_lastProcessedId : Z
}.

(** The [for (const photo of photos)] loop. *)
Fixpoint process_photos (o : options) (startTime : string) (photos : list Table.row)
    (c : counters) : Async counters :=
  match photos with
  | [] => mret c
  | photo :: rest =>
      result ← processPhoto o photo;
      let processed := c_processed c + 1 in
      '(successful, failed) ←
        match result with
        | Skipped reason =>
            log "Skipped photo" "INFO";;
            mret (c_successful c, c_failed c)
        | Migrated storagePath =>
            log "Migrated photo" "INFO";;
            mret (c_successful c + 1, c_failed c)
        | Failed error =>
            log "Failed to migrate photo" "ERROR";;
            mret (c_successful c, c_failed c + 1)
        end;
      let lastProcessedId := fst photo in
      saveProgress (Progress processed successful failed lastProcessedId startTime);;
      sleep 100;;
      process_photos o startTime rest (Counters processed successful failed lastProcessedId)
  end.

(** The body of the [while (true)] loop: [None] at the [break]. *)
Definition iteration (o : options) (startTime : string) (c : counters)
  : Async (option counters) :=
  photos ← getPhotosToMigrate (batchSize o) (c_lastProcessedId c);
  match photos with
  | [] =>
      log "No more photos to process" "INFO";;
      mret None
  | _ :: _ =>
      log "Processing batch of photos" "INFO";;
      c ← process_photos o startTime photos c;
      sleep 1000;;
      mret (Some c)
  end.

(** The [while (true)] loop.  [fuel] bounds the number of batches; the loop
    is [Pending] when it does not suffice. *)
Fixpoint migrate_loop (o : options) (startTime : string) (fuel : nat) (c : counters)
  : Async counters :=
  match fuel with
  | O => never
  | S fuel' =>
      next ← iteration o startTime c;
      match next with
      | None => mret c
      | Some c => migrate_loop o startTime fuel' c
      end
  end.

Definition runMigration (o : options) (fuel : nat) : Async unit :=
  log "Starting image migration to Supabase Storage" "INFO";;
  log "Configuration" "INFO";;
  (if JS.truthy (authEmail o) then
     authSuccess ← authenticateUser (authEmail o);
     if negb authSuccess then
       log "Authentication failed. Exiting." "ERROR";;
       process_exit 1
     else mret tt
   else mret tt);;
  progress ← loadProgress;
  (if resume o && (0 <? lastProcessedId progress) then
     log "Resuming from photo ID" "INFO"
   else mret tt);;
  totalPhotos ← getTotalPhotosToMigrate;
  log "Total photos to migrate" "INFO";;
  if totalPhotos =? 0 then log "No photos need migration" "INFO"
  else
    try_catch
      (c ← migrate_loop o (startTime progress) fuel
             (Counters (processed progress) (successful progress) (failed progress)
                (lastProcessedId progress));
       log "Migration completed!" "INFO";;
       log "Final Statistics:" "INFO";;
       (if 0 <? c_failed c then
          log "photos failed to migrate. Check the log for details." "WARN"
        else mret tt);;
       if c_failed c =? 0 then
         unlink_progress_file;;
         log "Progress file cleaned up" "INFO"
       else mret tt)
      (fun error =>
         log "Migration failed" "ERROR";;
         process_exit 1).

(** The last line of the script: [runMigration().catch(...)]. *)
Definition main (o : options) (fuel : nat) : Async unit :=
  try_catch (runMigration o fuel)
    (fun error =>
       log "Unexpected error" "ERROR";;
       process_exit 1).

(** The id [loadProgress] would resume after. *)
Definition recorded (w : world) : Z :=
  match progress_file w with
  | Saved p => lastProcessedId p
  | _ => 0
  end.

(** Ascending ids, none twice. *)
Definition id_lt (a b : Table.row) : Prop := fst a < fst b.

(** What the migration query may return from the table [p]: rows of [p]
    without storage path and with image data, of ids above
    [lastProcessedId], by ascending id, [batchSize] of them at most. *)
Definition selected (p : gmap Z Table.columns) (batchSize lastProcessedId : Z)
    (rows : list Table.row) : Prop :=
  Forall (fun r => p !! fst r = Some (snd r)
                   /\ Table.storage_path (snd r) = None
                   /\ is_Some (Table.image_data (snd r))
                   /\ lastProcessedId < fst r) rows
  /\ StronglySorted id_lt rows
  /\ Z.of_nat (length rows) <= batchSize.

(** The ids whose [storage_path] a list of requests sets. *)
Definition migrated_ids (l : list (request * option JS.error)) : list Z :=
  omap (fun x => match fst x with
                 | PhotosUpdate [Table.SetStoragePath _] id => Some id
                 | _ => None
                 end) l.

End MigrateImages.

(** ** MapComponent.jsx: the URL and the map

    Numbers are exact rationals: a latitude is not rounded to a double, and
    [parseFloat] yields the value the text denotes. *)

Module MapComponent.

Inductive number :=
| NaN
| Infinity (negative : bool)
| Finite (q : Q).

Definition isNaN (n : number) : bool :=
  match n with
  | NaN => true
  | _ => false
  end.

(** *** Decimal digits *)

Definition digit_char (d : Z) : ascii := ascii_of_N (Z.to_N (48 + d)).

Definition char_digit (c : ascii) : option Z :=
  let n := Z.of_N (N_of_ascii c) in
  if (48 <=? n) && (n <=? 57) then Some (n - 48) else None.

(** The digits of [n >= 0], most significant first; [0] has the digit 0. *)
Fixpoint digits_fuel (fuel : nat) (n : Z) (acc : list Z) : list Z :=
  match fuel with
  | O => acc
  | S fuel' =>
      if n <? 10 then n :: acc
      else digits_fuel fuel' (n / 10) (n mod 10 :: acc)
  end.

Definition digits_of (n : Z) : list Z := digits_fuel (S (Z.to_nat (Z.log2 n))) n [].

(** The number a list of digits denotes. *)
Definition value (ds : list Z) : Z := fold_left (fun a d => a * 10 + d) ds 0.

(** A decimal digit. *)
Definition digit (d : Z) : Prop := 0 <= d <= 9.

(** The number digits denote when they follow digits that denote [a]. *)
Definition value_from (a : Z) (ds : list Z) : Z := fold_left (fun a d => a * 10 + d) ds a.

Definition text (ds : list Z) : list ascii := map digit_char ds.

(** The sign a negative number is written with. *)
Definition minus (negative : bool) : list ascii := if negative then ["-"%char] else [].

(** The longest prefix of digits, and what follows it. *)
Fixpoint span_digits (s : list ascii) : list Z * list ascii :=
  match s with
  | [] => ([], [])
  | c :: rest =>
      match char_digit c with
      | Some d => let '(ds, r) := span_digits rest in (d :: ds, r)
      | None => ([], s)
      end
  end.

(** *** Number.prototype.toString and toFixed *)

(** The trailing zeros of a list of digits removed. *)
Fixpoint drop_zeros (ds : list Z) : list Z :=
  match ds with
  | 0 :: rest => drop_zeros rest
  | _ => ds
  end.

Definition strip_zeros (ds : list Z) : list Z := reverse (drop_zeros (reverse ds)).

(** [Number::toString] of an integer [n >= 0]: positional below [10^21],
    with an exponent from there on.  The digits before the exponent are those
    of [n] itself. *)
Definition unsigned_toString (n : Z) : list ascii :=
  let ds := digits_of n in
  if n <? 10 ^ 21 then text ds
  else
    let e := text (digits_of (Z.of_nat (length ds) - 1)) in
    match strip_zeros ds with
    | [] => text ds
    | [d] => text [d] ++ ["e"; "+"]%char ++ e
    | d :: more => text [d] ++ ["."]%char ++ text more ++ ["e"; "+"]%char ++ e
    end.

(** [zoom.toString()] *)
Definition Number_toString (n : Z) : string :=
  string_of_list_ascii
    ((if n <? 0 then ["-"%char] else []) ++ unsigned_toString (Z.abs n)).

(** [x.toFixed(6)]: the integer [n] closest to [x * 10^6] (the larger of
    two), written with a point before its last six digits. *)
Definition toFixed6 (x : Q) : string :=
  let s := if Qle_bool 0 x then [] else ["-"%char] in
  let x := Qabs x in
  let m :=
    if Qle_bool (inject_Z (10 ^ 21)) x then unsigned_toString (Qfloor x)
    else
      let n := Qfloor (x * inject_Z (10 ^ 6) + (1 # 2)) in
      let m := digits_of n in
      let m := if (length m <=? 6)%nat then replicate (7 - length m) 0 ++ m else m in
      let k := length m in
      text (take (k - 6) m) ++ ["."%char] ++ text (drop (k - 6) m) in
  string_of_list_ascii (s ++ m).

(** *** parseFloat and parseInt *)

(** The white space of one byte. *)
Definition white (c : ascii) : bool :=
  let n := N_of_ascii c in
  ((9 <=? n) && (n <=? 13))%N || (n =? 32)%N.

Fixpoint trim_start (s : list ascii) : list ascii :=
  match s with
  | c :: rest => if white c then trim_start rest else s
  | [] => []
  end.

(** A sign, if there is one, and what follows it. *)
Definition take_sign (s : list ascii) : bool * list ascii :=
  match s with
  | c :: rest =>
      if Ascii.eqb c "-" then (true, rest)
      else if Ascii.eqb c "+" then (false, rest)
      else (false, s)
  | [] => (false, [])
  end.

(** [ToString] of the argument: [null] reads "null". *)
Definition argument (s : option string) : list ascii :=
  match s with
  | Some s => list_ascii_of_string s
  | None => list_ascii_of_string "null"
  end.

(** The value of an ExponentPart at the head of [s], or 0. *)
Definition exponent (s : list ascii) : Z :=
  match s with
  | c :: rest =>
      if Ascii.eqb c "e" || Ascii.eqb c "E" then
        let '(negative, r) := take_sign rest in
        match fst (span_digits r) with
        | [] => 0
        | es => if negative : bool then - value es else value es
        end
      else 0
  | [] => 0
  end.

Definition scale (m : Q) (e : Z) : Q := (m * inject_Z 10 ^ e)%Q.

Definition fraction (fs : list Z) : Q :=
  (inject_Z (value fs) / inject_Z (10 ^ Z.of_nat (length fs)))%Q.

(** What follows a point at the head of [s], if there is one. *)
Definition after_point (s : list ascii) : option (list ascii) :=
  match s with
  | c :: rest => if Ascii.eqb c "." then Some rest else None
  | [] => None
  end.

(** The longest prefix that is a StrUnsignedDecimalLiteral. *)
Definition unsigned_literal (s : list ascii) : option Q :=
  let '(ds, r) := span_digits s in
  match ds, after_point r with
  | _ :: _, Some r' =>
      let '(fs, r'') := span_digits r' in
      Some (scale (inject_Z (value ds) + fraction fs) (exponent r''))
  | _ :: _, None => Some (scale (inject_Z (value ds)) (exponent r))
  | [], Some r' =>
      match span_digits r' with
      | (f :: fs, r'') => Some (scale (fraction (f :: fs)) (exponent r''))
      | ([], _) => None
      end
  | [], None => None
  end.

Definition parseFloat (string : option string) : number :=
  let '(negative, s) := take_sign (trim_start (argument string)) in
  if JS.prefix "Infinity" (string_of_list_ascii s) then Infinity negative
  else
    match unsigned_literal s with
    | Some q => Finite (if negative then - q else q)
    | None => NaN
    end.

Definition hex_digit (c : ascii) : option Z :=
  let n := Z.of_N (N_of_ascii c) in
  if (48 <=? n) && (n <=? 57) then Some (n - 48)
  else if (97 <=? n) && (n <=? 102) then Some (n - 87)
  else if (65 <=? n) && (n <=? 70) then Some (n - 55)
  else None.

Fixpoint span_hex (s : list ascii) : list Z :=
  match s with
  | c :: rest =>
      match hex_digit c with
      | Some d => d :: span_hex rest
      | None => []
      end
  | [] => []
  end.

(** The digits [parseInt] reads after the sign, as a number: in base 16
    after a prefix 0x or 0X, in base 10 otherwise. *)
Definition math_int (s : list ascii) : option Z :=
  let decimal :=
    match fst (span_digits s) with
    | [] => None
    | ds => Some (value ds)
    end in
  match s with
  | c :: x :: rest =>
      if Ascii.eqb c "0" && (Ascii.eqb x "x" || Ascii.eqb x "X") then
        match span_hex rest with
        | [] => None
        | hs => Some (fold_left (fun a d => a * 16 + d) hs 0)
        end
      else decimal
  | _ => decimal
  end.

(** [parseInt(string)] without a radix. *)
Definition parseInt (string : option string) : number :=
  let '(negative, s) := take_sign (trim_start (argument string)) in
  match math_int s with
  | Some n => Finite (inject_Z (if negative then - n else n))
  | None => NaN
  end.

(** *** URLSearchParams *)

Definition search_params : Type := list (string * string).

(** [urlParams.get(name)]: the first value of [name], or [null]. *)
Fixpoint get_param (name : string) (params : search_params) : option string :=
  match params with
  | [] => None
  | (n, v) :: rest => if String.eqb n name then Some v else get_param name rest
  end.

(** [url.searchParams.set(name, value)]: the first entry of [name] takes
    the value and the others go; without one the entry is appended. *)
Fixpoint set_param (name value : string) (params : search_params) : search_params :=
  match params with
  | [] => [(name, value)]
  | (n, v) :: rest =>
      if String.eqb n name then
        (name, value) :: filter (fun p => negb (String.eqb (fst p) name)) rest
      else (n, v) :: set_param name value rest
  end.

(** *** The component *)

(** [window.location] is the query it carries; [replaceState] installs the
    new one. *)
Definition updateURL (lat lng : Q) (zoom : Z) (location : search_params) : search_params :=
  let url := location in
  let url := set_param "lat" (toFixed6 lat) url in
  let url := set_param "lng" (toFixed6 lng) url in
  let url := set_param "zoom" (Number_toString zoom) url in
  url.

Record url_params := UrlParams { lat : number; lng : number; zoom : number }.

Definition readURLParams (location : search_params) : option url_params :=
  let urlParams := location in
  let lat := parseFloat (get_param "lat" urlParams) in
  let lng := parseFloat (get_param "lng" urlParams) in
  let zoom := parseInt (get_param "zoom" urlParams) in
  if negb (isNaN lat) && negb (isNaN lng) && negb (isNaN zoom) then
    Some (UrlParams lat lng zoom)
  else None.

(** [x] rounded to six decimal places, halves away from zero. *)
Definition round6 (x : Q) : Q :=
  let n := Qfloor (Qabs x * inject_Z (10 ^ 6) + (1 # 2)) in
  let r := (inject_Z n / inject_Z (10 ^ 6))%Q in
  if Qle_bool 0 x then r else (- r)%Q.

(** Equality of numbers: of the values, for finite ones. *)
Definition same (a b : number) : Prop :=
  match a, b with
  | NaN, NaN => False
  | Infinity s, Infinity t => s = t
  | Finite p, Finite q => (p == q)%Q
  | _, _ => False
  end.

End MapComponent.

(** ** The vocabulary of the properties *)

Module Spec.

Import Utils PhotoService.

(** [user.user_metadata?.admin] *)
Definition admin_claim (user : option user) : JS.value :=
  match user with
  | Some u =>
      match user_metadata u with
      | Some m => admin m
      | None => JS.Undefined
      end
  | None => JS.Undefined
  end.

(** The requests an operation made: the log grew by [made]. *)
Definition made_requests (w w' : world) (made : list (request * option JS.error)) : Prop :=
  requests w' = requests w ++ made.

(** The backend is as it was and nothing was asked of it. *)
Definition backend_untouched (w w' : world) : Prop :=
  requests w' = requests w /\ photos w' = photos w /\ bucket w' = bucket w
  /\ photos_id_seq w' = photos_id_seq w /\ responses w' = responses w.

(** The operation [m] is refused in [w]: it settles with [success: false]
    and leaves the backend alone. *)
Definition refused (m : Async result) (w : world) : Prop :=
  exists r w', m w = (Ret r, w') /\ success r = false /\ backend_untouched w w'.

(** The image [c] is what [compressImage] makes of [original], and [t]
    what [createThumbnail] makes of [c]. *)
Definition compressed_from (w : world) (original c : Image.dataurl) : Prop :=
  fst (compressImage original 800 600 (8 # 10) w) = Ret c.

Definition thumbnail_from (w : world) (c t : Image.dataurl) : Prop :=
  fst (createThumbnail c 800 800 w) = Ret t.

(** The row [savePhotoToDatabase] asks to insert for [photoData], with the
    original stored at [path]. *)
Definition row_of (w : world) (photoData : photoData) (path : string)
    (values : Table.columns) : Prop :=
  Table.lat values = lat photoData
  /\ Table.lng values = lng photoData
  /\ Table.storage_path values = Some path
  /\ exists c t,
       Table.image_data values = Some c
       /\ Table.thumbnail_data values = Some t
       /\ compressed_from w (imageData photoData) c
       /\ thumbnail_from w c t.

(** The ways [savePhotoToDatabase] can go, by the requests it makes. *)
Inductive save_run (photoData : photoData) (w : world)
  : outcome result -> world -> list (request * option JS.error) -> Prop :=
| save_refused e w' :
    photos w' = photos w -> bucket w' = bucket w ->
    save_run photoData w (Ret (failure e)) w' []
| save_upload_failed path e e' w' :
    photos w' = photos w -> bucket w' = bucket w ->
    save_run photoData w (Ret (failure e')) w'
      [(StorageUpload path (imageData photoData), Some e)]
| save_pending path w' :
    photos w' = photos w ->
    save_run photoData w Pending w'
      [(StorageUpload path (imageData photoData), None)]
| save_insert_failed path values e cleanup w' :
    row_of w photoData path values ->
    photos w' = photos w ->
    (cleanup = None -> bucket w' = bucket w) ->
    (forall c, cleanup = Some c ->
       ("Error cleaning up uploaded file:", Some c) ∈ console w'
       /\ bucket w' !! path = Some (imageData photoData)) ->
    save_run photoData w (Ret (failure e)) w'
      [(StorageUpload path (imageData photoData), None);
       (PhotosInsert values, Some e);
       (StorageRemove [path], cleanup)]
| save_stored path values id now w' :
    row_of w photoData path values ->
    Table.not_null values = true ->
    photos w !! id = None ->
    photos w' = <[id := Table.defaults now values]> (photos w) ->
    bucket w' !! path = Some (imageData photoData) ->
    save_run photoData w
      (Ret (Result true (Some (id, Table.defaults now values)) None)) w'
      [(StorageUpload path (imageData photoData), None);
       (PhotosInsert values, None)].

(** The columns no edit of a photo and no thumbnail script writes. *)
Definition fixed_columns (r : Table.columns) :=
  (Table.lat r, Table.lng r, Table.image_data r, Table.storage_path r,
   Table.timestamp r, Table.filename r, Table.user_id r, Table.created_at r).

(** From [w] to [w'] the table has the same rows, each with the same
    [fixed_columns], and the bucket the same objects. *)
Definition kept (w w' : world) : Prop :=
  (forall k,
     match photos w !! k, photos w' !! k with
     | Some r, Some r' => fixed_columns r' = fixed_columns r
     | None, None => True
     | _, _ => False
     end)
  /\ bucket w' = bucket w.

(** From [w] to [w'] the table is as it was, or the row [id] took
    [values] (and the time of the update); the bucket is as it was. *)
Definition writes (values : list Table.assignment) (id : Z) (w w' : world) : Prop :=
  (photos w' = photos w
   \/ exists row now,
        photos w !! id = Some row
        /\ photos w' = <[id := Table.touch now (Table.patch values row)]> (photos w))
  /\ bucket w' = bucket w.

(** *** Retrying, in the words of the specification

    The world after the two console lines and the wait that precede a new
    attempt. *)
Definition waited (operationName : string) (error : JS.error) (delay : Z) (w : world)
  : world :=
  let w1 := set_console (console w ++ [(operationName +:+ " failed", Some error)]) w in
  let w2 := set_console (console w1 ++ [("Retrying"%string, None)]) w1 in
  set_sleeps (sleeps w2 ++ [delay]) w2.

(** An operation is attempted; a thrown timeout error is followed, while
    fewer than 3 attempts were made, by a wait of the attempt number times
    2000 ms and a new attempt; anything else ends the retrying with what the
    attempt gave. *)
Inductive retried {A} (operation : Async A) (operationName : string)
  : Z -> world -> outcome A * world -> Prop :=
| retried_ends attempt w :
    (forall e, fst (operation w) = Throw e ->
       RegenerateThumbnails.isTimeout e = false \/ 3 <= attempt) ->
    retried operation operationName attempt w (operation w)
| retried_again attempt w e w1 r :
    operation w = (Throw e, w1) ->
    RegenerateThumbnails.isTimeout e = true ->
    attempt < 3 ->
    retried operation operationName (attempt + 1)
      (waited operationName e (attempt * 2000) w1) r ->
    retried operation operationName attempt w r.

(** The request [x] writes to a photo of [photos] the thumbnail Sharp makes
    of the [image_data] of that photo. *)
Definition regenerates (photos : list Table.row) (x : request * option JS.error) : Prop :=
  exists photo url p t,
    photo ∈ photos
    /\ fst x = PhotosUpdate [Table.SetThumbnailData (Some t)] (fst photo)
    /\ Table.image_data (snd photo) = Some url
    /\ Image.decoded url = Some p
    /\ Image.decoded t = Some (Image.Sharp p 800 800 85).

(** From [w] to [w'] the requests [made] were made and the progress file
    was not written. *)
Definition stepped (w w' : world) (made : list (request * option JS.error)) : Prop :=
  made_requests w w' made /\ progress_file w' = progress_file w.

End Spec.

(** ** Sample data *)

Module Sample.

Import Utils PhotoService.

Definition administrator : option user :=
  Some (User "7f3c" (Some (Metadata (JS.Bool true)))).

(** A user whose claim is the string "true", not the boolean. *)
Definition visitor : option user :=
  Some (User "91ab" (Some (Metadata (JS.Str "true")))).

Definition noon : string := "2024-05-01T12:00:00.000Z".

Definition world0 : world :=
  World ∅ 1 ∅ [] [] [] [] (fun _ => noon) 0 (fun _ => 40000) Absent.

Definition capture : Image.dataurl :=
  Image.DataURL 1200000 true (Some (Image.Camera "IMG_0042.jpg" 1920 1080)).

Definition find : photoData :=
  PhotoData (Some (58595312 # 1000000)) (Some (25013654 # 1000000)) capture
    (Some noon) (Some "IMG_0042.jpg") (Some "target") None None.

(** A capture of 3 000 000 characters: about 2.15 MB. *)
Definition oversized : photoData :=
  PhotoData (Some (58595312 # 1000000)) (Some (25013654 # 1000000))
    (Image.DataURL 3000000 true (Some (Image.Camera "IMG_0043.jpg" 4000 3000)))
    (Some noon) (Some "IMG_0043.jpg") (Some "target") None None.

(** Where the original of [find] goes for [administrator] at [noon], and
    the row asked for. *)
Definition find_path : string := "7f3c/2024-05-01T12-00-00-000Z_IMG_0042.jpg".

Definition find_row : Table.columns :=
  let compressed :=
    Image.Canvas (Image.Camera "IMG_0042.jpg" 1920 1080) 800 450 800 (864000 # 1920)
      (8 # 10) in
  {| Table.lat := Some (58595312 # 1000000);
     Table.lng := Some (25013654 # 1000000);
     Table.image_data := Some (Image.DataURL 40000 true (Some compressed));
     Table.thumbnail_data :=
       Some (Image.DataURL 40000 true
               (Some (Image.Canvas compressed 800 450 800 450 (85 # 100))));
     Table.storage_path := Some find_path;
     Table.timestamp := Some noon;
     Table.filename := Some "IMG_0042.jpg";
     Table.type := Some "target";
     Table.name := None;
     Table.description := None;
     Table.user_id := Some "7f3c";
     Table.created_at := Some noon;
     Table.updated_at := None |}.

(** A row from before the bucket: the image inline, no storage path. *)
Definition legacy_row : Table.columns :=
  {| Table.lat := Some (58601 # 1000);
     Table.lng := Some (24998 # 1000);
     Table.image_data :=
       Some (Image.DataURL 900000 true (Some (Image.Camera "IMG_0007.jpg" 1600 1200)));
     Table.thumbnail_data := None;
     Table.storage_path := None;
     Table.timestamp := Some "2023-09-14T08:30:00.000Z";
     Table.filename := Some "IMG_0007.jpg";
     Table.type := Some "coins";
     Table.name := None;
     Table.description := None;
     Table.user_id := Some "7f3c";
     Table.created_at := Some "2023-09-14T08:30:05.000Z";
     Table.updated_at := Some "2023-09-14T08:30:05.000Z" |}.

(** A table with the legacy row 4. *)
Definition world1 : world :=
  World {[ 4 := legacy_row ]} 5 ∅ [] [] [] [] (fun _ => noon) 0 (fun _ => 40000) Absent.

Definition timeout : JS.error :=
  JS.Error "canceling statement due to statement timeout".

Definition denied : JS.error := JS.Error "new row violates row-level security policy".

End Sample.

(** * Further parts of the application

    The reading operations of the photo service, the helpers of lib/utils.js
    and the components that use the service and the URL: App.jsx,
    components/ListView.jsx, MapComponent.jsx, contexts/PhotosContext.jsx,
    PhotoHoverPreview.jsx and PhotoModal.jsx.  A component is the record of
    its state; a handler or an effect takes the state it finds to the state
    it leaves. *)

(** ** photoService.js: the reading operations

    The reads of the app change nothing at the backend and are not entered
    in [requests]; like every call they take the next entry of [responses]
    for their answer. *)

Module PhotoReads.

Import Utils PhotoService.

(** A read is carried out unless the backend fails it. *)
Definition ask {D} (carry_out : Async (Supabase.response D)) : Async (Supabase.response D) :=
  a ← answer;
  match a with
  | Some e => Supabase.failed e
  | None => carry_out
  end.

(** ORDER BY created_at DESC: NULL sorts first. *)
Definition created_ge (a b : Table.row) : Prop :=
  RegenerateThumbnails.created_leb b a = true.

#[global] Instance created_ge_dec : RelDecision created_ge :=
  fun a b => decide (RegenerateThumbnails.created_leb b a = true).

(** The rows of the table, latest first. *)
Definition latest_first (p : gmap Z Table.columns) : list Table.row :=
  merge_sort created_ge (map_to_list p).

(** [.select("*").order("created_at", { ascending: false }).range(first,
    last)]; [columns] keeps the columns selected. *)
Definition photos_select_page (columns : Table.columns -> Table.columns) (first last : Z)
  : Async (Supabase.response (list Table.row)) :=
  ask (p ← get photos;
       Supabase.ok (fmap (M := list) (fun r => (fst r, columns (snd r)))
                      (RegenerateThumbnails.range first last (latest_first p)))).

(** [.select(...).eq("id", id).single()]: one row, or an error. *)
Definition photos_select_single (id : Z) : Async (Supabase.response Table.columns) :=
  ask (p ← get photos;
       match p !! id with
       | None => Supabase.failed
                   (JS.Error "JSON object requested, multiple (or no) rows returned")
       | Some c => Supabase.ok c
       end).

(** [supabase.storage.from(bucket).download(path)] *)
Definition storage_download (path : string) : Async (Supabase.response Image.dataurl) :=
  ask (b ← get bucket;
       match b !! path with
       | None => Supabase.failed (JS.Error "Object not found")
       | Some blob => Supabase.ok blob
       end).

(** The columns of the two narrower selects; a column not selected is
    absent from the object, which reads like [null]. *)
Definition metadata (c : Table.columns) : Table.columns :=
  {| Table.lat := Table.lat c;
     Table.lng := Table.lng c;
     Table.image_data := None;
     Table.thumbnail_data := None;
     Table.storage_path := None;
     Table.timestamp := Table.timestamp c;
     Table.filename := Table.filename c;
     Table.type := Table.type c;
     Table.name := Table.name c;
     Table.description := Table.description c;
     Table.user_id := None;
     Table.created_at := Table.created_at c;
     Table.updated_at := None |}.

Definition with_thumbnail (c : Table.columns) : Table.columns :=
  Table.assign (Table.SetThumbnailData (Table.thumbnail_data c)) (metadata c).

(** A photo as the components hold it: the row selected and the fields the
    loaders add. *)
Record photo := Photo {
  photo_id : Z;
  photo_row : Table.columns;
  photo_imageData : option Image.dataurl;
  hasFullImage : option bool
}.

(** The [{ success, data, error }] object of a read. *)
Record reply (A : Type) := Reply {
  success : bool;
  data : option A;
  error : option JS.error
}.
Arguments Reply {A} success data error.
Arguments success {A} r.
Arguments data {A} r.
Arguments error {A} r.

Definition failure {A} (e : JS.error) : reply A := Reply false None (Some e).

(** [data.map(f)]; on [null] a TypeError. *)
Definition map_rows {A} (f : Table.row -> A) (data : option (list Table.row))
  : Async (list A) :=
  match data with
  | Some rows => mret (f <$> rows)
  | None => throw (JS.Error "Cannot read properties of null (reading 'map')")
  end.

Definition loadPhotosFromDatabase (limit offset : Z) : Async (reply (list photo)) :=
  try_catch
    (r ← photos_select_page (fun c => c) offset (offset + limit - 1);
     match Supabase.error r with
     | Some error =>
         console_log "Error loading photos from database:" (Some error);;
         mret (failure error)
     | None =>
         processedData ← map_rows
           (fun photo => Photo (fst photo) (snd photo) (Table.image_data (snd photo)) None)
           (Supabase.data r);
         console_log "Photos loaded from database" None;;
         mret (Reply true (Some processedData) None)
     end)
    (fun error =>
       console_log "Error loading photos:" (Some error);;
       mret (failure error)).

(** The [while (hasMore)] loop of [loadAllPhotosFromDatabase].  [fuel]
    bounds the number of pages; the loop is [Pending] when it does not
    suffice. *)
Fixpoint load_pages (fuel : nat) (allPhotos : list photo) (offset : Z)
  : Async (reply (list photo)) :=
  match fuel with
  | O => never
  | S fuel' =>
      let limit := 50 in
      result ← loadPhotosFromDatabase limit offset;
      if negb (success result) then mret result
      else
        match data result with
        | None => throw (JS.Error "result.data is not iterable")
        | Some page =>
            let allPhotos := allPhotos ++ page in
            let hasMore := Z.of_nat (length page) =? limit in
            let offset := offset + limit in
            if hasMore then
              sleep 100;;
              load_pages fuel' allPhotos offset
            else
              console_log "All photos loaded from database" None;;
              mret (Reply true (Some allPhotos) None)
        end
  end.

Definition loadAllPhotosFromDatabase (fuel : nat) : Async (reply (list photo)) :=
  try_catch (load_pages fuel [] 0)
    (fun error =>
       console_log "Error loading all photos:" (Some error);;
       mret (failure error)).

Definition loadPhotosMetadataOnly (limit offset : Z) : Async (reply (list Table.row)) :=
  try_catch
    (r ← photos_select_page metadata offset (offset + limit - 1);
     match Supabase.error r with
     | Some error =>
         console_log "Error loading photos metadata:" (Some error);;
         mret (failure error)
     | None =>
         match Supabase.data r with
         | None => throw (JS.Error "Cannot read properties of null (reading 'length')")
         | Some data =>
             console_log "Photos metadata loaded" None;;
             mret (Reply true (Some data) None)
         end
     end)
    (fun error =>
       console_log "Error loading photos metadata:" (Some error);;
       mret (failure error)).

(** [data.column] of the row of a [.single()]; on [null] a TypeError. *)
Definition column {A} (f : Table.columns -> A) (data : option Table.columns) : Async A :=
  match data with
  | Some c => mret (f c)
  | None => throw (JS.Error "Cannot read properties of null")
  end.

Definition loadPhotoThumbnail (photoId : Z) : Async (reply (option Image.dataurl)) :=
  try_catch
    (r ← photos_select_single photoId;
     match Supabase.error r with
     | Some error =>
         console_log "Error loading photo thumbnail:" (Some error);;
         mret (failure error)
     | None =>
         thumbnail_data ← column Table.thumbnail_data (Supabase.data r);
         mret (Reply true (Some thumbnail_data) None)
     end)
    (fun error =>
       console_log "Error loading photo thumbnail:" (Some error);;
       mret (failure error)).

Definition loadPhotosWithThumbnails (limit offset : Z) : Async (reply (list photo)) :=
  try_catch
    (r ← photos_select_page with_thumbnail offset (offset + limit - 1);
     match Supabase.error r with
     | Some error =>
         console_log "Error loading photos with thumbnails:" (Some error);;
         mret (failure error)
     | None =>
         processedData ← map_rows
           (fun photo =>
              Photo (fst photo) (snd photo) (Table.thumbnail_data (snd photo))
                (Some (bool_decide (is_Some (Table.thumbnail_data (snd photo))))))
           (Supabase.data r);
         console_log "Photos with thumbnails loaded" None;;
         mret (Reply true (Some processedData) None)
     end)
    (fun error =>
       console_log "Error loading photos with thumbnails:" (Some error);;
       mret (failure error)).

Definition getFullImageData (photoId : Z) : Async (reply (option Image.dataurl)) :=
  try_catch
    (r ← photos_select_single photoId;
     match Supabase.error r with
     | Some error =>
         console_log "Error loading full image data:" (Some error);;
         mret (failure error)
     | None =>
         image_data ← column Table.image_data (Supabase.data r);
         mret (Reply true (Some image_data) None)
     end)
    (fun error =>
       console_log "Error loading full image:" (Some error);;
       mret (failure error)).

(** [reader.readAsDataURL(blob)]: the data URL of the bytes of the blob.
    The blob holds the bytes of the data URL [base64ToBlob] made it from,
    and its data URL is taken to be that one. *)
Definition readAsDataURL (blob : Image.dataurl) : Async Image.dataurl := mret blob.

Definition downloadOriginalImage (storagePath : string) : Async Image.dataurl :=
  try_catch
    (r ← storage_download storagePath;
     match Supabase.error r, Supabase.data r with
     | Some error, _ =>
         console_log "Error downloading from storage:" (Some error);;
         throw error
     | None, Some data => readAsDataURL data
     | None, None => throw (JS.Error "parameter 1 is not of type 'Blob'")
     end)
    (fun error =>
       console_log "Error in downloadOriginalImage:" (Some error);;
       throw error).

Definition getOriginalImageData (photoId : Z) : Async (reply Image.dataurl) :=
  try_catch
    (r ← photos_select_single photoId;
     match Supabase.error r with
     | Some error =>
         console_log "Error loading photo storage path:" (Some error);;
         mret (failure error)
     | None =>
         storage_path ← column Table.storage_path (Supabase.data r);
         match storage_path with
         | Some (String c path) =>
             originalImageData ← downloadOriginalImage (String c path);
             mret (Reply true (Some originalImageData) None)
         | _ => mret (failure (JS.Error "No original image found in storage"))
         end
     end)
    (fun error =>
       console_log "Error loading original image:" (Some error);;
       mret (failure error)).

(** From [w] to [w'] nothing changed at the backend: the table, the
    bucket, the sequence and the log of requests are as they were. *)
Definition read_only (w w' : world) : Prop :=
  photos w' = photos w /\ bucket w' = bucket w
  /\ photos_id_seq w' = photos_id_seq w /\ requests w' = requests w.

(** The photo [loadPhotosFromDatabase] makes of a row. *)
Definition full_photo (r : Table.row) : photo :=
  Photo (fst r) (snd r) (Table.image_data (snd r)) None.

(** What the read of one column of one row gives. *)
Definition column_read {A} (f : Table.columns -> A) (id : Z) (w : world)
    (r : reply A) : Prop :=
  if success r then
    exists c, photos w !! id = Some c /\ data r = Some (f c) /\ error r = None
  else
    data r = None
    /\ exists e, error r = Some e
                 /\ (head (responses w) = Some (Some e) \/ photos w !! id = None).

End PhotoReads.

(** ** lib/utils.js: the names of the types

    Strings are strings of bytes.  The characters the two replacements of
    [formatTypeName] look for are ASCII; every byte of another character is
    outside [\w] and is left as it is. *)

Module TypeNames.

(** The entries of the object literal [typeMap]. *)
Definition entries : list (string * string) :=
    [("coins", "Coins"); ("jewelry", "Jewelry"); ("relics", "Relics");
     ("tools-and-hardware", "Tools and Hardware");
     ("tokens-and-medallions", "Tokens and Medallions");
     ("weapons-and-ammunition", "Weapons and Ammunition");
     ("household-items", "Household Items");
     ("military-items", "Military Items");
     ("industrial-scrap-junk", "Industrial Scrap / Junk");
     ("religious-or-decorative-items", "Religious or Decorative Items");
     ("unknown", "Unknown")]%string.

(** The names of the find types as they are shown. *)
Definition typeMap : gmap string string := list_to_map entries.

(** [typeMap] is an object literal: besides its own keys, [typeMap[type]]
    finds what [Object.prototype] holds, functions and an object. *)
Definition inherited : list string :=
  ["constructor"; "hasOwnProperty"; "isPrototypeOf"; "propertyIsEnumerable";
   "toLocaleString"; "toString"; "valueOf"; "__defineGetter__"; "__defineSetter__";
   "__lookupGetter__"; "__lookupSetter__"; "__proto__"]%string.

(** What [formatTypeName] returns: a string, or one of the inherited
    values, which is no string. *)
Inductive shown :=
| Name (s : string)
| Inherited.

(** [\w] *)
Definition word (c : ascii) : bool :=
  let n := nat_of_ascii c in
  ((48 <=? n) && (n <=? 57) || (65 <=? n) && (n <=? 90) || (n =? 95)
   || (97 <=? n) && (n <=? 122))%nat.

(** [l.toUpperCase()] of a character *)
Definition toUpperCase (c : ascii) : ascii :=
  let n := nat_of_ascii c in
  if ((97 <=? n) && (n <=? 122))%nat then ascii_of_nat (n - 32) else c.

(** [s.replace(/-/g, " ")] *)
Fixpoint replace_hyphens (s : string) : string :=
  match s with
  | EmptyString => EmptyString
  | String c rest => String (if Ascii.eqb c "-" then " "%char else c) (replace_hyphens rest)
  end.

(** [s.replace(/\b\w/g, (l) => l.toUpperCase())]: a word character is at a
    word boundary when the string starts with it or the character before
    it is no word character; [inside] tells that the character before is
    one. *)
Fixpoint capitalize (inside : bool) (s : string) : string :=
  match s with
  | EmptyString => EmptyString
  | String c rest =>
      String (if word c && negb inside then toUpperCase c else c)
        (capitalize (word c) rest)
  end.

Definition formatTypeName (type : option string) : shown :=
  if negb (JS.truthy type) then Name "Unknown"
  else
    let type := default EmptyString type in
    match typeMap !! type with
    | Some name => Name name
    | None =>
        if bool_decide (type ∈ inherited) then Inherited
        else Name (capitalize false (replace_hyphens type))
    end.

(** [a-z] *)
Definition lower (c : ascii) : bool :=
  let n := nat_of_ascii c in ((97 <=? n) && (n <=? 122))%nat.

(** No lower-case letter of [s] is at a word boundary. *)
Fixpoint capitalized (inside : bool) (s : string) : bool :=
  match s with
  | EmptyString => true
  | String c rest => (inside || negb (lower c)) && capitalized (word c) rest
  end.

(** [s.includes("-")] *)
Fixpoint hyphenated (s : string) : bool :=
  match s with
  | EmptyString => false
  | String c rest => Ascii.eqb c "-" || hyphenated rest
  end.

(** [A-Z] *)
Definition upper (c : ascii) : bool :=
  let n := nat_of_ascii c in ((65 <=? n) && (n <=? 90))%nat.

(** A string the two replacements would have left as it is: it has no
    space, and no upper-case letter at a word boundary. *)
Fixpoint untouched (inside : bool) (s : string) : bool :=
  match s with
  | EmptyString => true
  | String c rest =>
      negb (Ascii.eqb c " ") && (inside || negb (upper c)) && untouched (word c) rest
  end.

End TypeNames.

(** ** App.jsx: the view and the URL *)

Module App.

Import MapComponent.

(** The state of the component and the query of [window.location]. *)
Record state := State {
  currentView : string;
  location : search_params
}.

(** [useState("list")], and the effect that runs at the mount. *)
Definition mount (location : search_params) : state :=
  let currentView := "list"%string in
  let view := get_param "view" location in
  match view with
  | Some v =>
      if JS.truthy view && (String.eqb v "map" || String.eqb v "list")
      then State v location
      else State currentView location
  | None => State currentView location
  end.

Definition handleViewChange (view : string) (s : state) : state :=
  let url := location s in
  let url := set_param "view" view url in
  State view url.

End App.

(** ** components/ListView.jsx: the jump to the map *)

Module ListView.

Import MapComponent.

(** [handleJumpToMap(photo, event)], with [onViewChange] the
    [handleViewChange] of the app.  [photo.lat.toFixed(6)] throws for a
    [null], before [replaceState] is reached. *)
Definition handleJumpToMap (photo : Table.columns) (s : App.state)
  : outcome unit * App.state :=
  let s := App.handleViewChange "map" s in
  let url := App.location s in
  let url := set_param "view" "map" url in
  match Table.lat photo, Table.lng photo with
  | Some lat, Some lng =>
      let url := set_param "lat" (toFixed6 lat) url in
      let url := set_param "lng" (toFixed6 lng) url in
      let url := set_param "zoom" "18" url in
      (Ret tt, App.State (App.currentView s) url)
  | _, _ => (Throw (JS.Error "Cannot read properties of null (reading 'toFixed')"), s)
  end.

End ListView.

(** ** MapComponent.jsx: where the map opens *)

Module MapLocation.

Import MapComponent.

(** What [navigator.geolocation] does with [getCurrentPosition]: it is not
    there, or calls back with a position, or with an error. *)
Inductive geolocation :=
| Unsupported
| Position (latitude longitude : Q)
| PositionError (message : string).

(** The state of the component that the location is kept in. *)
Record state := State {
  userLocation : number * number;
  locationError : option string;
  isLoading : bool;
  showLocation : bool;
  mapCenter : option (number * number);
  mapZoom : number
}.

(** The [useState] defaults. *)
Definition initial : state :=
  State (Finite (585953 # 10000), Finite (250136 # 10000)) None true false None
    (Finite 15).

(** The fallback of the two branches without a position. *)
Definition fallback (urlParams : option url_params) (message : string) (s : state)
  : state :=
  match urlParams with
  | Some p =>
      State (userLocation s) (Some message) false (showLocation s)
        (Some (lat p, lng p)) (zoom p)
  | None =>
      State (userLocation s) (Some message) false (showLocation s)
        (Some (Finite (585953 # 10000), Finite (250136 # 10000))) (mapZoom s)
  end.

(** The effect that initializes the location at the mount of the
    component, with the callback of [getCurrentPosition] run. *)
Definition initialize (geo : geolocation) (location : search_params) : state :=
  let urlParams := readURLParams location in
  let s := initial in
  match geo with
  | Position latitude longitude =>
      match urlParams with
      | Some p =>
          State (Finite latitude, Finite longitude) (locationError s) false true
            (Some (lat p, lng p)) (zoom p)
      | None =>
          State (Finite latitude, Finite longitude) (locationError s) false true
            (Some (Finite latitude, Finite longitude)) (mapZoom s)
      end
  | PositionError message => fallback urlParams message s
  | Unsupported => fallback urlParams "Geolocation not supported" s
  end.

(** [<MapContainer center={mapCenter || userLocation} zoom={mapZoom}>] *)
Definition MapContainer (s : state) : number * number * number :=
  (match mapCenter s with
   | Some center => center
   | None => userLocation s
   end,
   mapZoom s).

(** [mapZoom || 15] *)
Definition zoom_or_15 (zoom : number) : number :=
  match zoom with
  | NaN => Finite 15
  | Finite q => if Qeq_bool q 0 then Finite 15 else zoom
  | Infinity _ => zoom
  end.

(** The effect of [CenterOnLocation]: the view it sets, if it sets one. *)
Definition CenterOnLocation (s : state) : option (number * number * number) :=
  match showLocation s, mapCenter s with
  | true, Some center => Some (center, zoom_or_15 (mapZoom s))
  | _, _ => None
  end.

End MapLocation.

(** ** contexts/PhotosContext.jsx: the list of photos the app holds

    The functions of the provider are called one after the other, each
    with the state the one before left. *)

Module PhotosContext.

Import Utils PhotoReads.

(** What [setError] is given: the error of a result, or a message. *)
Inductive shown_error :=
| ErrorObject (e : JS.error)
| Message (s : string).

Record state := State {
  photos : list photo;
  loading : bool;
  error : option shown_error;
  hasMore : bool;
  currentOffset : Z
}.

(** The [useState] defaults. *)
Definition initial : state := State [] false None true 0.

(** [loadPhotos(limit, offset, useThumbnails)].  The service gives an array
    as [data] with every success; without one [result.data.length] is a
    TypeError, caught like any other. *)
Definition loadPhotos (limit offset : Z) (useThumbnails : bool) (s : state)
  : Async state :=
  let s := State (photos s) true None (hasMore s) (currentOffset s) in
  s ← try_catch
        (result ← (if useThumbnails then loadPhotosWithThumbnails limit offset
                   else loadPhotosFromDatabase limit offset);
         if PhotoReads.success result then
           match PhotoReads.data result with
           | Some data =>
               mret (State (if offset =? 0 then data else photos s ++ data)
                       (loading s) (error s)
                       (Z.of_nat (length data) =? limit)
                       (offset + Z.of_nat (length data)))
           | None =>
               throw (JS.Error "Cannot read properties of undefined (reading 'length')")
           end
         else
           mret (State (photos s) (loading s)
                   (ErrorObject <$> PhotoReads.error result)
                   (hasMore s) (currentOffset s)))
        (fun err =>
           mret (State (photos s) (loading s) (Some (Message (JS.message err)))
                   (hasMore s) (currentOffset s)));
  mret (State (photos s) false (error s) (hasMore s) (currentOffset s)).

Definition loadMorePhotos (s : state) : Async state :=
  if negb (loading s) && hasMore s then loadPhotos 50 (currentOffset s) true s
  else mret s.

Definition refreshPhotos (s : state) : Async state :=
  let s := State (photos s) (loading s) (error s) true 0 in
  loadPhotos 50 0 true s.

Definition clearPhotos (s : state) : state := State [] (loading s) None true 0.

(** The effect that runs at the mount and when the user changes. *)
Definition mount (user : option user) (s : state) : Async state :=
  match user with
  | Some _ => loadPhotos 50 0 true s
  | None => mret s
  end.

(** [{ ...photo, type: newType }] and [{ ...photo, name, description }] *)
Definition with_columns (values : list Table.assignment) (photo : PhotoReads.photo)
  : PhotoReads.photo :=
  Photo (photo_id photo) (Table.patch values (photo_row photo)) (photo_imageData photo)
    (hasFullImage photo).

(** [throw new Error(result.error.message)] *)
Definition throw_message {A} (error : option JS.error) : Async A :=
  match error with
  | Some e => throw (JS.Error (JS.message e))
  | None => throw (JS.Error "Cannot read properties of null (reading 'message')")
  end.

Definition updateType (photoId : Z) (newType : option string) (user : option user)
    (s : state) : Async (option Table.row * state) :=
  try_catch
    (result ← PhotoService.updatePhotoType photoId newType user;
     if PhotoService.success result then
       mret (PhotoService.data result,
             State ((fun photo =>
                       if photo_id photo =? photoId
                       then with_columns [Table.SetType newType] photo
                       else photo) <$> photos s)
               (loading s) (error s) (hasMore s) (currentOffset s))
     else throw_message (PhotoService.error result))
    (fun err =>
       console_log "Error updating photo type:" (Some err);;
       throw err).

Definition updateDetails (photoId : Z) (name description : option string)
    (user : option user) (s : state) : Async (option Table.row * state) :=
  try_catch
    (result ← PhotoService.updatePhotoDetails photoId name description user;
     if PhotoService.success result then
       mret (PhotoService.data result,
             State ((fun photo =>
                       if photo_id photo =? photoId
                       then with_columns
                              [Table.SetName name; Table.SetDescription description] photo
                       else photo) <$> photos s)
               (loading s) (error s) (hasMore s) (currentOffset s))
     else throw_message (PhotoService.error result))
    (fun err =>
       console_log "Error updating photo details:" (Some err);;
       throw err).

Definition deletePhoto (photoId : Z) (user : option user) (s : state)
  : Async (bool * state) :=
  try_catch
    (result ← PhotoService.deletePhotoFromDatabase photoId user;
     if PhotoService.success result then
       mret (true,
             State (filter (fun photo => photo_id photo <> photoId) (photos s))
               (loading s) (error s) (hasMore s) (currentOffset s))
     else throw_message (PhotoService.error result))
    (fun err =>
       console_log "Error deleting photo:" (Some err);;
       throw err).

End PhotosContext.

(** ** PhotoHoverPreview.jsx: where the preview is put *)

Module PhotoHoverPreview.

Record point := Point { x : Q; y : Q }.

Definition offsetX : Q := 15.
Definition offsetY : Q := 15.
Definition previewWidth : Q := 256.
Definition previewHeight : Q := 200.

(** [b > a] *)
Definition gt (b a : Q) : bool := negb (Qle_bool b a).

(** The [left] and [top] of the preview, in pixels. *)
Definition position (mousePosition : point) (viewportWidth viewportHeight : Q) : point :=
  let adjustedX := (x mousePosition + offsetX)%Q in
  let adjustedY := (y mousePosition + offsetY)%Q in
  let adjustedX :=
    if gt (adjustedX + previewWidth) viewportWidth
    then (x mousePosition - offsetX - previewWidth)%Q
    else adjustedX in
  let adjustedY :=
    if gt (adjustedY + previewHeight) viewportHeight
    then (y mousePosition - offsetY - previewHeight)%Q
    else adjustedY in
  Point adjustedX adjustedY.

End PhotoHoverPreview.

(** ** PhotoModal.jsx: the photo that is open *)

Module PhotoModal.

Import Utils PhotoReads.

(** The state of the modal, with the two props the parent keeps for it:
    [showModal] and the photo object [selectedPhoto], whose [name] and
    [description] [handleSave] writes. *)
Record state := State {
  originalImageData : option Image.dataurl;
  isLoadingOriginal : bool;
  photoName : string;
  photoDescription : string;
  isSaving : bool;
  showModal : bool;
  selectedPhoto : option photo
}.

Definition setOriginalImageData (v : option Image.dataurl) (s : state) : state :=
  State v (isLoadingOriginal s) (photoName s) (photoDescription s) (isSaving s)
    (showModal s) (selectedPhoto s).

Definition setIsLoadingOriginal (v : bool) (s : state) : state :=
  State (originalImageData s) v (photoName s) (photoDescription s) (isSaving s)
    (showModal s) (selectedPhoto s).

Definition setIsSaving (v : bool) (s : state) : state :=
  State (originalImageData s) (isLoadingOriginal s) (photoName s) (photoDescription s) v
    (showModal s) (selectedPhoto s).

Definition setShowModal (v : bool) (s : state) : state :=
  State (originalImageData s) (isLoadingOriginal s) (photoName s) (photoDescription s)
    (isSaving s) v (selectedPhoto s).

(** The fallback to the compressed image. *)
Definition fallback (photoId : Z) (s : state) : Async state :=
  try_catch
    (fallbackResult ← getFullImageData photoId;
     if success fallbackResult
     then mret (setOriginalImageData (mjoin (data fallbackResult)) s)
     else mret s)
    (fun error =>
       console_log "Error loading fallback image:" (Some error);;
       mret s).

(** The effect that runs when the modal opens or the photo changes, with
    the promises it starts settled. *)
Definition load (s : state) : Async state :=
  match selectedPhoto s with
  | Some photo =>
      if showModal s && negb (photo_id photo =? 0) then
        let s :=
          State None true
            (JS.or_else (Table.name (photo_row photo)) EmptyString)
            (JS.or_else (Table.description (photo_row photo)) EmptyString)
            (isSaving s) (showModal s) (selectedPhoto s) in
        s ← try_catch
              (result ← getOriginalImageData (photo_id photo);
               if success result then mret (setOriginalImageData (data result) s)
               else
                 console_log "Failed to load original image:" (error result);;
                 fallback (photo_id photo) s)
              (fun error =>
                 console_log "Error loading original image:" (Some error);;
                 fallback (photo_id photo) s);
        mret (setIsLoadingOriginal false s)
      else mret s
  | None => mret s
  end.

(** [photoName !== selectedPhoto.name || photoDescription !==
    selectedPhoto.description] *)
Definition changed (s : state) (photo : photo) : bool :=
  negb (bool_decide (Table.name (photo_row photo) = Some (photoName s)))
  || negb (bool_decide (Table.description (photo_row photo) = Some (photoDescription s))).

Definition handleSave (user : option user) (s : state) : Async state :=
  match selectedPhoto s, user with
  | Some photo, Some _ =>
      let s := setIsSaving true s in
      s ← try_catch
            (if changed s photo then
               detailsResult ← PhotoService.updatePhotoDetails (photo_id photo)
                                 (Some (photoName s)) (Some (photoDescription s)) user;
               if PhotoService.success detailsResult then
                 let photo :=
                   PhotosContext.with_columns
                     [Table.SetName (Some (photoName s));
                      Table.SetDescription (Some (photoDescription s))] photo in
                 console_log "Photo details updated successfully" None;;
                 mret (State (originalImageData s) (isLoadingOriginal s) (photoName s)
                         (photoDescription s) (isSaving s) false (Some photo))
               else
                 console_log "Failed to update photo details:"
                   (PhotoService.error detailsResult);;
                 mret s
             else mret (setShowModal false s))
            (fun error =>
               console_log "Error updating photo:" (Some error);;
               mret s);
      mret (setIsSaving false s)
  | _, _ => mret s
  end.

End PhotoModal.

(** ** The vocabulary of the further properties *)

Module Terms.

(** The capture does not decode, or is so much wider than tall that at
    800 pixels of width less than one pixel of height is left. *)
Definition cannot_be_drawn (d : Image.dataurl) : Prop :=
  Image.decoded d = None
  \/ exists p,
       Image.decoded d = Some p
       /\ snd (Image.natural p) < fst (Image.natural p)
       /\ 800 < fst (Image.natural p)
       /\ snd (Image.natural p) * 800 < fst (Image.natural p).

(** The updates among [made] that met no error. *)
Definition went_through (made : list (request * option JS.error))
  : list (request * option JS.error) :=
  filter (fun x => snd x = None) made.

(** The tally [r'] is the tally [r] after [n] more photos, for which the
    requests [made] were made: every photo is counted as successful or as
    failed, every failure has its line in [errors]; in a dry run nothing is
    asked and every photo counts as processed and successful; otherwise the
    photos processed are those an update was asked for, and the successful
    ones those whose update went through. *)
Definition tallied (dry : bool) (n : Z) (made : list (request * option JS.error))
    (r r' : RegenerateThumbnails.batch_results) : Prop :=
  let d f := f r' - f r in
  d RegenerateThumbnails.successful + d RegenerateThumbnails.failed = n
  /\ 0 <= d RegenerateThumbnails.failed
  /\ Z.of_nat (length (RegenerateThumbnails.errors r'))
     - Z.of_nat (length (RegenerateThumbnails.errors r))
     = d RegenerateThumbnails.failed
  /\ if dry then
       made = [] /\ d RegenerateThumbnails.successful = n
       /\ d RegenerateThumbnails.processed = n
     else
       d RegenerateThumbnails.processed = Z.of_nat (length made)
       /\ d RegenerateThumbnails.successful = Z.of_nat (length (went_through made)).

(** A row as [loadPhotosWithThumbnails] hands it on. *)
Definition thumbnail_photo (r : Table.row) : PhotoReads.photo :=
  PhotoReads.Photo (fst r) (PhotoReads.with_thumbnail (snd r))
    (Table.thumbnail_data (snd r))
    (Some (bool_decide (is_Some (Table.thumbnail_data (snd r))))).

(** [loadMorePhotos] called [n] times, one call after the other. *)
Fixpoint scrolled (n : nat) (s : PhotosContext.state) : Async PhotosContext.state :=
  match n with
  | O => mret s
  | S n' => s' ← PhotosContext.loadMorePhotos s; scrolled n' s'
  end.

(** The state of the provider when the first [k] pages of 50 of the rows
    [rows] are loaded. *)
Definition pages_loaded (k : nat) (rows : list Table.row) (s : PhotosContext.state)
  : Prop :=
  PhotosContext.photos s = thumbnail_photo <$> take (50 * k) rows
  /\ PhotosContext.error s = None
  /\ PhotosContext.loading s = false
  /\ PhotosContext.hasMore s = bool_decide (50 * k <= length rows)%nat
  /\ PhotosContext.currentOffset s = Z.of_nat (Nat.min (50 * k) (length rows)).

(** A request that only reads: the count and the selects. *)
Definition is_query (r : request) : bool :=
  match r with
  | PhotosSelectStoragePath _ | PhotosSelectIn _ | PhotosSelectRange _ _
  | PhotosSelectToMigrate _ _ | PhotosCount | PhotosCountToMigrate => true
  | _ => false
  end.

(** From [w] to [w'] only queries were made, and the table and the bucket
    are as they were. *)
Definition only_queried (w w' : world) : Prop :=
  photos w' = photos w /\ bucket w' = bucket w
  /\ exists made,
       Spec.made_requests w w' made
       /\ Forall (fun x => is_query (fst x) = true) made.

(** The computation [m] only queries, whatever the world it runs in. *)
Definition queries_only {A} (m : Async A) : Prop :=
  forall w, only_queried w (snd (m w)).

End Terms.

(** * Proofs *)

(** ** Running asynchronous code *)

Ltac run := unfold mbind, mret, Async_bind, Async_ret; cbn.

Ltac answered H :=
  unfold Supabase.exchange, answer; run; repeat (rewrite H; run).

(** The cases of a membership [H] in a list written out. *)
Ltac in_list H :=
  repeat (apply elem_of_cons in H; destruct H as [H | H]; [try discriminate H |]);
  try (by apply elem_of_nil in H).

(** ** The photo service *)

Section PhotoServiceFacts.

Import Utils PhotoService Spec.

Lemma not_admin_check user :
  user = None \/ admin_claim user <> JS.Bool true -> checkAdminPermission user = false.
Proof.
  intros [-> | H]; [reflexivity |].
  destruct user as [[i [[a] |]] |]; simpl in *; try reflexivity.
  destruct a as [| | [|] | |]; simpl; try reflexivity. congruence.
Qed.

Lemma admin_check user :
  admin_claim user = JS.Bool true -> checkAdminPermission user = true.
Proof.
  destruct user as [[i [[a] |]] |]; simpl; try discriminate. by intros ->.
Qed.

Lemma refused_requireAdmin (body : Async result) label user w :
  checkAdminPermission user = false ->
  refused (try_catch (requireAdmin user;; body)
             (fun error => console_log label (Some error);; mret (failure error))) w.
Proof.
  intros H. unfold refused, requireAdmin, try_catch. rewrite H. run.
  eexists _, _. split; [reflexivity |]. split; [reflexivity |].
  repeat split.
Qed.

(** C9. A caller whose user object is null, or whose [user_metadata.admin]
    is not exactly [true], is refused by each of the four mutating
    operations: the operation settles with [success: false], no request
    reaches the backend, and table, bucket, sequence and pending answers
    are as before. *)
Theorem non_admin_is_refused user :
  user = None \/ admin_claim user <> JS.Bool true ->
  forall photoData photoId newType name description w,
    refused (savePhotoToDatabase photoData user) w
    /\ refused (updatePhotoType photoId newType user) w
    /\ refused (updatePhotoDetails photoId name description user) w
    /\ refused (deletePhotoFromDatabase photoId user) w.
Proof.
  intros H%not_admin_check *.
  repeat split; apply refused_requireAdmin; exact H.
Qed.

Lemma non_admin_is_refused_witness :
  admin_claim Sample.visitor <> JS.Bool true
  /\ refused (savePhotoToDatabase Sample.find Sample.visitor) Sample.world0
  /\ refused (updatePhotoType 4 (Some "coins"%string) Sample.visitor) Sample.world0
  /\ refused (updatePhotoDetails 4 (Some "Ring"%string) None Sample.visitor) Sample.world0
  /\ refused (deletePhotoFromDatabase 4 Sample.visitor) Sample.world0.
Proof.
  assert (H : admin_claim Sample.visitor <> JS.Bool true) by (simpl; discriminate).
  split; [exact H |].
  apply (non_admin_is_refused Sample.visitor). right. exact H.
Defined.

(** C10. An image whose approximate size, three quarters of the length of
    its data URL, exceeds 2 MB is refused by [savePhotoToDatabase] whoever
    the caller is: [success: false], no upload and no insert requested, the
    backend as before. *)
Theorem oversized_image_is_refused photoData user w :
  (2 * 1024 * 1024 < inject_Z (Image.chars (imageData photoData)) * 3 / 4)%Q ->
  refused (savePhotoToDatabase photoData user) w.
Proof.
  intros Hsize.
  destruct (checkAdminPermission user) eqn:Hadmin;
    [| by apply refused_requireAdmin].
  unfold refused, savePhotoToDatabase, requireAdmin, validateImageSize, try_catch.
  rewrite Hadmin. run.
  assert (Hgt : Qgt_bool (inject_Z (Image.chars (imageData photoData)) * 3 / 4)
                  (2 * 1024 * 1024) = true).
  { unfold Qgt_bool. apply negb_true_iff. apply not_true_is_false.
    intros Hle%Qle_bool_iff. exact (Qlt_not_le _ _ Hsize Hle). }
  rewrite Hgt. run.
  eexists _, _. split; [reflexivity |]. split; [reflexivity |]. repeat split.
Qed.

Lemma oversized_image_is_refused_witness :
  (2 * 1024 * 1024 < inject_Z (Image.chars (imageData Sample.oversized)) * 3 / 4)%Q
  /\ refused (savePhotoToDatabase Sample.oversized Sample.administrator) Sample.world0.
Proof.
  split; [reflexivity |].
  apply oversized_image_is_refused. reflexivity.
Defined.

(** *** What the canvas functions return *)

Lemma draw_cases img width height quality w :
  exists u, draw img width height quality w = (Ret u, w)
    /\ (Image.decoded u = None
        \/ Image.decoded u
           = Some (Image.Canvas img (Qfloor width) (Qfloor height) width height quality)).
Proof.
  unfold draw. destruct (_ || _); run; eauto.
Qed.

Lemma draw_world img width height quality w w' :
  jpeg_chars w = jpeg_chars w' ->
  fst (draw img width height quality w) = fst (draw img width height quality w').
Proof. unfold draw. intros E. destruct (_ || _); run; [done |]. by rewrite E. Qed.

Lemma compressImage_run u maxWidth maxHeight quality w :
  compressImage u maxWidth maxHeight quality w = (Pending, w)
  \/ exists c, compressImage u maxWidth maxHeight quality w = (Ret c, w).
Proof.
  unfold compressImage, load. destruct (Image.decoded u) as [p |]; run; [right | left; done].
  match goal with |- context [draw p ?a ?b quality w] =>
    destruct (draw_cases p a b quality w) as (c & E & H) end.
  eauto.
Qed.

Lemma compressImage_world u maxWidth maxHeight quality w w' :
  jpeg_chars w = jpeg_chars w' ->
  fst (compressImage u maxWidth maxHeight quality w)
  = fst (compressImage u maxWidth maxHeight quality w').
Proof.
  intros E. unfold compressImage, load. destruct (Image.decoded u) as [p |]; run; [| done].
  by apply draw_world.
Qed.

Lemma createThumbnail_run u maxWidth maxHeight w :
  createThumbnail u maxWidth maxHeight w = (Pending, w)
  \/ exists t, createThumbnail u maxWidth maxHeight w = (Ret t, w).
Proof.
  unfold createThumbnail, load. destruct (Image.decoded u) as [p |]; run; [right | left; done].
  match goal with |- context [draw p ?a ?b ?q w] =>
    destruct (draw_cases p a b q w) as (c & E & H) end.
  eauto.
Qed.

Lemma createThumbnail_world u maxWidth maxHeight w w' :
  jpeg_chars w = jpeg_chars w' ->
  fst (createThumbnail u maxWidth maxHeight w) = fst (createThumbnail u maxWidth maxHeight w').
Proof.
  intros E. unfold createThumbnail, load. destruct (Image.decoded u) as [p |]; run; [| done].
  by apply draw_world.
Qed.

(** A picture drawn from [p] is not [p]. *)
Lemma canvas_neq p cw ch dw dh q : Image.Canvas p cw ch dw dh q <> p.
Proof.
  revert cw ch dw dh q. induction p; intros cw' ch' dw' dh' q' E; try discriminate.
  injection E as E _ _ _ _ _. by apply IHp in E.
Qed.

(** A compressed image that decodes was drawn from the decoded original. *)
Lemma compressed_from_picture w original c pc :
  compressed_from w original c -> Image.decoded c = Some pc ->
  exists po, Image.decoded original = Some po /\ Image.made_from pc po /\ pc <> po.
Proof.
  unfold compressed_from, compressImage, load.
  destruct (Image.decoded original) as [po |]; run; [| discriminate].
  match goal with |- context [draw po ?a ?b ?q w] =>
    destruct (draw_cases po a b q w) as (u & -> & H) end.
  cbn. intros [= <-] Hpc. exists po. split; [done |].
  destruct H as [H | H]; rewrite H in Hpc; [discriminate |].
  injection Hpc as <-. split; [reflexivity | apply canvas_neq].
Qed.

Lemma thumbnail_from_picture w c t pt :
  thumbnail_from w c t -> Image.decoded t = Some pt ->
  exists pc, Image.decoded c = Some pc /\ Image.made_from pt pc.
Proof.
  unfold thumbnail_from, createThumbnail, load.
  destruct (Image.decoded c) as [pc |]; run; [| discriminate].
  match goal with |- context [draw pc ?a ?b ?q w] =>
    destruct (draw_cases pc a b q w) as (u & -> & H) end.
  cbn. intros [= <-] Hpt. exists pc. split; [done |].
  destruct H as [H | H]; rewrite H in Hpt; [discriminate |].
  by injection Hpt as <-.
Qed.

(** *** The row asked for *)

Lemma row_of_insert w photoData path c t
    (type name description user_id created_at : option string) :
  compressed_from w (imageData photoData) c -> thumbnail_from w c t ->
  row_of w photoData path
    (Table.Columns (lat photoData) (lng photoData) (Some c) (Some t) (Some path)
       (timestamp photoData) (filename photoData) type name description user_id
       created_at None).
Proof. intros Hc Ht. repeat split. eauto 8. Qed.

(** *** The helpers, by the requests they make *)

Lemma uploadOriginalImage_run base64Image filename userId w :
  exists out w' made,
    uploadOriginalImage base64Image filename userId w = (out, w')
    /\ made_requests w w' made
    /\ photos w' = photos w /\ jpeg_chars w' = jpeg_chars w
    /\ match out with
       | Ret path =>
           made = [(StorageUpload path base64Image, None)]
           /\ bucket w !! path = None
           /\ bucket w' = <[path := base64Image]> (bucket w)
       | Throw e =>
           (made = [] \/ exists path e0, made = [(StorageUpload path base64Image, Some e0)])
           /\ bucket w' = bucket w
       | _ => False
       end.
Proof.
  unfold uploadOriginalImage, base64ToBlob, try_catch, made_requests.
  destruct (Image.base64 base64Image); run.
  2:{ eexists _, _, []. split; [reflexivity |]. cbn. rewrite app_nil_r. auto 8. }
  unfold Supabase.storage_upload, Supabase.exchange, answer. run.
  set (path := (userId +:+ _)).
  destruct (responses w) as [| [e |] rest]; run;
    try (destruct (bucket w !! path) eqn:Hb; run);
    eexists _, _, _; (split; [reflexivity |]); cbn; eauto 10.
Qed.

Lemma photos_insert_run values w :
  exists r w' a,
    Supabase.photos_insert values w = (Ret r, w')
    /\ made_requests w w' [(PhotosInsert values, a)]
    /\ Supabase.error r = a
    /\ bucket w' = bucket w /\ console w' = console w
    /\ match a with
       | None =>
           exists id now,
             Table.not_null values = true
             /\ photos w !! id = None
             /\ photos w' = <[id := Table.defaults now values]> (photos w)
             /\ Supabase.data r = Some [(id, Table.defaults now values)]
       | Some _ => photos w' = photos w
       end.
Proof.
  unfold Supabase.photos_insert, Supabase.exchange, answer, made_requests. run.
  destruct (responses w) as [| [e |] rest]; run;
    try (destruct (Table.not_null values) eqn:Hnn; run;
         [destruct (photos w !! photos_id_seq w) eqn:Hp; run |]);
    eexists _, _, _; (split; [reflexivity |]); cbn; eauto 12.
Qed.

Lemma deleteOriginalImage_run storagePath w :
  exists out w' a,
    deleteOriginalImage storagePath w = (out, w')
    /\ made_requests w w' [(StorageRemove [storagePath], a)]
    /\ photos w' = photos w
    /\ match out, a with
       | Ret _, None => bucket w' = delete storagePath (bucket w)
       | Throw e, Some e' => e = e' /\ bucket w' = bucket w
       | _, _ => False
       end.
Proof.
  unfold deleteOriginalImage, Supabase.storage_remove, Supabase.exchange, answer,
    try_catch, made_requests. run.
  destruct (responses w) as [| [e |] rest]; run;
    eexists _, _, _; (split; [reflexivity |]); cbn; eauto.
Qed.

(** *** savePhotoToDatabase, case by case *)

Ltac step :=
  unfold mbind, mret, Async_bind, Async_ret;
  cbn -[uploadOriginalImage compressImage createThumbnail Supabase.photos_insert
        deleteOriginalImage].

Lemma savePhotoToDatabase_runs photoData user w :
  exists made,
    made_requests w (snd (savePhotoToDatabase photoData user w)) made
    /\ save_run photoData w (fst (savePhotoToDatabase photoData user w))
         (snd (savePhotoToDatabase photoData user w)) made.
Proof.
  unfold savePhotoToDatabase, requireAdmin, validateImageSize, try_catch.
  destruct (checkAdminPermission user) eqn:Hadmin; step.
  2:{ exists []. split; [unfold made_requests; cbn; by rewrite app_nil_r | by constructor]. }
  destruct (Qgt_bool _ _); step.
  { exists []. split; [unfold made_requests; cbn; by rewrite app_nil_r | by constructor]. }
  destruct user as [u |]; [| discriminate]. step.
  destruct (uploadOriginalImage_run (imageData photoData)
              (JS.or_else (filename photoData) "photo.jpg") (id u) w)
    as (out & w1 & made1 & -> & M1 & P1 & J1 & H1).
  destruct out as [path | e | |]; try done; step.
  2:{ destruct H1 as [[-> | (path & e0 & ->)] B1]; eexists; (split; [exact M1 |]);
        by constructor. }
  destruct H1 as (-> & Hfree & B1).
  assert (Fc : fst (compressImage (imageData photoData) 800 600 (8 # 10) w)
               = fst (compressImage (imageData photoData) 800 600 (8 # 10) w1))
    by (apply compressImage_world; by rewrite J1).
  destruct (compressImage_run (imageData photoData) 800 600 (8 # 10) w1)
    as [Ec | [c Ec]]; rewrite Ec in *; step.
  { eexists. split; [exact M1 |]. by constructor. }
  assert (Ft : fst (createThumbnail c 800 800 w) = fst (createThumbnail c 800 800 w1))
    by (apply createThumbnail_world; by rewrite J1).
  destruct (createThumbnail_run c 800 800 w1) as [Et | [t Et]]; rewrite Et in *; step.
  { eexists. split; [exact M1 |]. by constructor. }
  cbn in Fc, Ft.
  match goal with |- context [Supabase.photos_insert ?v ?w2] =>
    set (values := v);
    destruct (photos_insert_run values w2) as (r & w3 & a & -> & M3 & <- & B3 & C3 & H3)
  end.
  assert (Hrow : row_of w photoData path values) by by apply row_of_insert.
  unfold made_requests in *. cbn in M3, B3, C3, H3.
  destruct (Supabase.error r) as [e |] eqn:He; step.
  - match goal with |- context [deleteOriginalImage path ?w4] =>
      destruct (deleteOriginalImage_run path w4) as (out & w5 & cleanup & -> & M5 & P5 & H5)
    end.
    unfold made_requests in M5. cbn in M5, P5, H5.
    exists [(StorageUpload path (imageData photoData), None);
            (PhotosInsert values, Some e); (StorageRemove [path], cleanup)].
    destruct out as [ok | e' | |], cleanup as [c' |]; try done; step.
    + split; [by rewrite M5, M3, M1, <- !app_assoc |].
      apply save_insert_failed; [done | by rewrite P5, H3 | | done].
      intros _. by rewrite H5, B3, B1, delete_insert_id.
    + destruct H5 as [-> H5].
      split; [by rewrite M5, M3, M1, <- !app_assoc |].
      apply save_insert_failed; cbn; [done | by rewrite P5, H3 | done |].
      intros c0 [= <-]. split.
      * rewrite elem_of_app. right. by apply list_elem_of_singleton.
      * cbn. by rewrite H5, B3, B1, lookup_insert_eq.
  - destruct H3 as (id & now & Hnn & Hnone & P3 & ->). step.
    exists [(StorageUpload path (imageData photoData), None); (PhotosInsert values, None)].
    split; [by rewrite M3, M1, <- !app_assoc |].
    apply save_stored; cbn; [done | done | by rewrite <- P1 | by rewrite P3, P1 |].
    by rewrite B3, B1, lookup_insert_eq.
Qed.

(** The requests made are determined by the two logs. *)
Lemma made_requests_inj w w' made made' :
  made_requests w w' made -> made_requests w w' made' -> made = made'.
Proof. unfold made_requests. intros -> E. by apply app_inv_head in E. Qed.

Lemma save_run_of photoData user w made :
  made_requests w (snd (savePhotoToDatabase photoData user w)) made ->
  save_run photoData w (fst (savePhotoToDatabase photoData user w))
    (snd (savePhotoToDatabase photoData user w)) made.
Proof.
  intros H. destruct (savePhotoToDatabase_runs photoData user w) as (made' & H' & Hrun).
  by rewrite (made_requests_inj _ _ _ _ H H').
Qed.

(** C1. When the insert of the row fails (the original being uploaded by
    then), [savePhotoToDatabase] asks the storage to remove the very object
    it uploaded; whether that removal succeeds or fails the operation
    settles with [success: false] and the error of the insert, and a failed
    removal leaves only a console line. *)
Theorem failed_insert_removes_upload photoData user w made values e :
  made_requests w (snd (savePhotoToDatabase photoData user w)) made ->
  (PhotosInsert values, Some e) ∈ made ->
  exists path cleanup,
    made = [(StorageUpload path (imageData photoData), None);
            (PhotosInsert values, Some e);
            (StorageRemove [path], cleanup)]
    /\ Table.storage_path values = Some path
    /\ fst (savePhotoToDatabase photoData user w) = Ret (failure e)
    /\ success (failure e) = false
    /\ forall c, cleanup = Some c ->
         ("Error cleaning up uploaded file:"%string, Some c)
           ∈ console (snd (savePhotoToDatabase photoData user w)).
Proof.
  intros Hmade%save_run_of Hin.
  destruct Hmade as [ | | | path values' e' cleanup w' Hrow Hp Hok Hfail | ]; in_list Hin.
  injection Hin as <- <-. exists path, cleanup.
  split; [done |]. split; [apply Hrow |]. split; [done |]. split; [done |].
  intros c Hc. by apply Hfail.
Qed.

Lemma failed_insert_removes_upload_witness :
  let w := set_responses [None; Some Sample.denied; Some Sample.timeout] Sample.world0 in
  let made := [(StorageUpload Sample.find_path Sample.capture, None);
               (PhotosInsert Sample.find_row, Some Sample.denied);
               (StorageRemove [Sample.find_path], Some Sample.timeout)] in
  made_requests w (snd (savePhotoToDatabase Sample.find Sample.administrator w)) made
  /\ (PhotosInsert Sample.find_row, Some Sample.denied) ∈ made
  /\ exists path cleanup,
       made = [(StorageUpload path (imageData Sample.find), None);
               (PhotosInsert Sample.find_row, Some Sample.denied);
               (StorageRemove [path], cleanup)]
       /\ Table.storage_path Sample.find_row = Some path
       /\ fst (savePhotoToDatabase Sample.find Sample.administrator w)
          = Ret (failure Sample.denied)
       /\ success (failure Sample.denied) = false
       /\ forall c, cleanup = Some c ->
            ("Error cleaning up uploaded file:"%string, Some c)
              ∈ console (snd (savePhotoToDatabase Sample.find Sample.administrator w)).
Proof.
  intros w made.
  assert (H1 : made_requests w
                 (snd (savePhotoToDatabase Sample.find Sample.administrator w)) made)
    by (vm_compute; reflexivity).
  assert (H2 : (PhotosInsert Sample.find_row, Some Sample.denied) ∈ made)
    by (apply elem_of_cons; right; apply elem_of_cons; by left).
  split; [exact H1 |]. split; [exact H2 |].
  exact (failed_insert_removes_upload Sample.find Sample.administrator w made
           Sample.find_row Sample.denied H1 H2).
Defined.

(** C5. A row that [savePhotoToDatabase] creates has a latitude, a
    longitude, a compressed image, a thumbnail and a storage path, none of
    them null; the operation made exactly two requests, the upload of the
    original, which succeeded, and then the insert, and the storage path of
    the row is where the original now lies in the bucket. *)
Theorem created_row_is_complete photoData user w id row :
  photos (snd (savePhotoToDatabase photoData user w)) !! id = Some row ->
  photos w !! id <> Some row ->
  is_Some (Table.lat row) /\ is_Some (Table.lng row)
  /\ is_Some (Table.image_data row) /\ is_Some (Table.thumbnail_data row)
  /\ exists path values now,
       row = Table.defaults now values
       /\ Table.storage_path row = Some path
       /\ made_requests w (snd (savePhotoToDatabase photoData user w))
            [(StorageUpload path (imageData photoData), None);
             (PhotosInsert values, None)]
       /\ bucket (snd (savePhotoToDatabase photoData user w)) !! path
          = Some (imageData photoData).
Proof.
  intros Hnew Hold.
  destruct (savePhotoToDatabase_runs photoData user w) as (made & Hmade & Hrun).
  destruct Hrun as [ e w' Hp _ | path e e' w' Hp _ | path w' Hp
                   | path values e cleanup w' _ Hp _ _
                   | path values id' now w' Hrow Hnn Hfree Hp Hb ];
    try (rewrite Hp in Hnew; contradiction).
  rewrite Hp in Hnew.
  destruct (decide (id' = id)) as [-> | Hne];
    [| rewrite lookup_insert_ne in Hnew by done; contradiction].
  rewrite lookup_insert_eq in Hnew. injection Hnew as <-.
  destruct Hrow as (Hlat & Hlng & Hpath & c & t & Hc & Ht & _).
  unfold Table.not_null in Hnn.
  destruct values as [vlat vlng vimage vthumb vpath vts vfile vtype vname vdesc vuser vcr vup].
  cbn in *. subst.
  destruct (lat photoData), (lng photoData); try discriminate.
  repeat (split; [by eexists |]).
  eexists _, _, _. split; [reflexivity |]. cbn. eauto.
Qed.

Lemma created_row_is_complete_witness :
  let w' := snd (savePhotoToDatabase Sample.find Sample.administrator Sample.world0) in
  let row := Table.defaults Sample.noon Sample.find_row in
  photos w' !! 1 = Some row
  /\ photos Sample.world0 !! 1 <> Some row
  /\ is_Some (Table.lat row) /\ is_Some (Table.lng row)
  /\ is_Some (Table.image_data row) /\ is_Some (Table.thumbnail_data row)
  /\ exists path values now,
       row = Table.defaults now values
       /\ Table.storage_path row = Some path
       /\ made_requests Sample.world0 w'
            [(StorageUpload path (imageData Sample.find), None);
             (PhotosInsert values, None)]
       /\ bucket w' !! path = Some (imageData Sample.find).
Proof.
  intros w' row.
  assert (H1 : photos w' !! 1 = Some row) by (vm_compute; reflexivity).
  assert (H2 : photos Sample.world0 !! 1 <> Some row) by (vm_compute; discriminate).
  split; [exact H1 |]. split; [exact H2 |].
  exact (created_row_is_complete Sample.find Sample.administrator Sample.world0 1 row H1 H2).
Defined.

(** *** deletePhotoFromDatabase *)

(** C2, as amended. For a caller with the admin claim,
    [deletePhotoFromDatabase] asks for the storage path of the row, then
    for the deletion of the row, and settles with [success: true] exactly
    when the deletion of the row met no error: neither a failure to fetch
    the storage path nor a failure to remove the object from storage
    changes that. The object is asked to be removed only after a successful
    deletion of a row whose path was fetched. *)
Theorem delete_reports_row_deletion user photoId w :
  admin_claim user = JS.Bool true ->
  exists fetched deleted cleanup r,
    made_requests w (snd (deletePhotoFromDatabase photoId user w))
      ([(PhotosSelectStoragePath photoId, fetched); (PhotosDelete photoId, deleted)]
         ++ cleanup)
    /\ fst (deletePhotoFromDatabase photoId user w) = Ret r
    /\ (success r = true <-> deleted = None)
    /\ (cleanup = []
        \/ exists path removed,
             fetched = None /\ deleted = None
             /\ cleanup = [(StorageRemove [path], removed)]).
Proof.
  intros Hadmin%admin_check. unfold made_requests.
  unfold deletePhotoFromDatabase, requireAdmin, try_catch. rewrite Hadmin. run.
  unfold Supabase.photos_select_storage_path, Supabase.photos_delete,
    deleteOriginalImage, Supabase.storage_remove, try_catch.
  assert (Hno : forall e : JS.error, Some e = None <-> False) by (split; [discriminate | done]).
  destruct (responses w) as [| [e1 |] r1] eqn:Hresp; answered Hresp.
  - destruct (photos w !! photoId) as [[? ? ? ? [[| a p] |] ? ? ? ? ? ? ? ?] |]; run;
      answered Hresp;
      eexists _, _, _, _; (split; [rewrite <- ?app_assoc; reflexivity |]);
      (split; [reflexivity |]); cbn; (split; [done |]); eauto 8.
  - destruct r1 as [| [e2 |] r2]; run;
      [ | | destruct r2 as [| [e3 |] r3]; run ];
      eexists _, _, _, _; (split; [rewrite <- ?app_assoc; reflexivity |]);
      (split; [reflexivity |]); cbn; (split; [done |]); eauto 8.
  - destruct r1 as [| [e2 |] r2]; run;
      destruct (photos w !! photoId) as [[? ? ? ? [[| a p] |] ? ? ? ? ? ? ? ?] |]; run;
      try (destruct r2 as [| [e3 |] r3]; run);
      eexists _, _, _, _; (split; [rewrite <- ?app_assoc; reflexivity |]);
      (split; [reflexivity |]); cbn; (split; [done |]); eauto 8.
Qed.

Lemma delete_reports_row_deletion_witness :
  admin_claim Sample.administrator = JS.Bool true
  /\ exists fetched deleted cleanup r,
       made_requests Sample.world0
         (snd (deletePhotoFromDatabase 4 Sample.administrator Sample.world0))
         ([(PhotosSelectStoragePath 4, fetched); (PhotosDelete 4, deleted)] ++ cleanup)
       /\ fst (deletePhotoFromDatabase 4 Sample.administrator Sample.world0) = Ret r
       /\ (success r = true <-> deleted = None)
       /\ (cleanup = []
           \/ exists path removed,
                fetched = None /\ deleted = None
                /\ cleanup = [(StorageRemove [path], removed)]).
Proof.
  split; [reflexivity |].
  apply (delete_reports_row_deletion Sample.administrator 4 Sample.world0). reflexivity.
Defined.

(** C2 as stated fails for a caller without the admin claim: the operation
    settles with [success: false] although no deletion of a row failed,
    none having been asked for. *)
Lemma delete_fails_without_row_deletion :
  exists r,
    fst (deletePhotoFromDatabase 4 None Sample.world0) = Ret r
    /\ success r = false
    /\ requests (snd (deletePhotoFromDatabase 4 None Sample.world0)) = [].
Proof. eexists. split; [reflexivity |]. split; reflexivity. Qed.

(** *** The updates *)

Lemma assign_fixed a r :
  match a with
  | Table.SetImageData _ | Table.SetStoragePath _ => False
  | _ => True
  end ->
  fixed_columns (Table.assign a r) = fixed_columns r.
Proof. by destruct a. Qed.

Lemma touch_fixed now r : fixed_columns (Table.touch now r) = fixed_columns r.
Proof. reflexivity. Qed.

(** What [.update(values).eq("id", id)] does to the table. *)
Lemma photos_update_writes values id w :
  writes values id w (snd (Supabase.photos_update values id w)).
Proof.
  unfold writes, Supabase.photos_update, Supabase.exchange, answer. run.
  destruct (responses w) as [| [e |] rest]; run; try (split; [by left | done]);
    (destruct (photos w !! id) as [row |] eqn:Hrow; run; [| split; [by left | done]]);
    (destruct (Table.not_null _); run; split; [| done | | done]; eauto).
Qed.

Lemma updatePhotoType_writes photoId newType user w :
  writes [Table.SetType newType] photoId w (snd (updatePhotoType photoId newType user w)).
Proof.
  unfold updatePhotoType, requireAdmin, try_catch.
  destruct (checkAdminPermission user); run; [| split; [by left | done]].
  unfold first.
  match goal with
  | |- context [Supabase.photos_update ?v ?i ?w] =>
      pose proof (photos_update_writes v i w) as H;
      destruct (Supabase.photos_update v i w) as [[[[d |] [e |]] | | |] w1]; run; exact H
  end.
Qed.

Lemma updatePhotoDetails_writes photoId name description user w :
  writes [Table.SetName (JS.or_null name); Table.SetDescription (JS.or_null description)]
    photoId w (snd (updatePhotoDetails photoId name description user w)).
Proof.
  unfold updatePhotoDetails, requireAdmin, try_catch.
  destruct (checkAdminPermission user); run; [| split; [by left | done]].
  unfold first.
  match goal with
  | |- context [Supabase.photos_update ?v ?i ?w] =>
      pose proof (photos_update_writes v i w) as H;
      destruct (Supabase.photos_update v i w) as [[[[d |] [e |]] | | |] w1]; run; exact H
  end.
Qed.

Lemma updatePhotoWithThumbnail_writes photoId thumbnailData w :
  writes [Table.SetThumbnailData (Some thumbnailData)] photoId w
    (snd (RegenerateThumbnails.updatePhotoWithThumbnail photoId thumbnailData w)).
Proof.
  unfold RegenerateThumbnails.updatePhotoWithThumbnail, try_catch. run.
  match goal with
  | |- context [Supabase.photos_update ?v ?i ?w] =>
      pose proof (photos_update_writes v i w) as H;
      destruct (Supabase.photos_update v i w) as [[[[d |] [e |]] | | |] w1]; run; exact H
  end.
Qed.

Lemma updatePhotoStoragePath_writes photoId storagePath w :
  writes [Table.SetStoragePath (Some storagePath)] photoId w
    (snd (MigrateImages.updatePhotoStoragePath photoId storagePath w)).
Proof.
  unfold MigrateImages.updatePhotoStoragePath, MigrateImages.rethrow, try_catch. run.
  match goal with
  | |- context [Supabase.photos_update ?v ?i ?w] =>
      pose proof (photos_update_writes v i w) as H;
      destruct (Supabase.photos_update v i w) as [[[[d |] [e |]] | | |] w1]; run; exact H
  end.
Qed.

(** An update that writes neither [image_data] nor [storage_path] keeps
    the rows there are, and in each of them what [fixed_columns] holds. *)
Lemma writes_keeps values id w w' :
  writes values id w w' ->
  Forall (fun a => match a with
                   | Table.SetImageData _ | Table.SetStoragePath _ => False
                   | _ => True
                   end) values ->
  kept w w'.
Proof.
  intros [[E | (row & now & Hrow & E)] Hb] Hvalues; split; try done; intros k.
  - rewrite E. destruct (photos w !! k); done.
  - rewrite E. destruct (decide (k = id)) as [-> | Hne].
    + rewrite lookup_insert_eq, Hrow. rewrite touch_fixed.
      unfold Table.patch. clear Hrow E. revert row.
      induction Hvalues as [| a values Ha _ IH]; intros row; [done |].
      cbn. rewrite IH. by apply assign_fixed.
    + rewrite lookup_insert_ne by done. destruct (photos w !! k); done.
Qed.

(** C6, as amended. [updatePhotoType] writes the column [type] only,
    [updatePhotoDetails] the columns [name] and [description] only, and
    [updatePhotoWithThumbnail] of the thumbnail scripts the column
    [thumbnail_data] only (the trigger of the table adds the time of the
    update). They create and delete no row, and leave latitude, longitude,
    compressed image and storage path of every row as they were.
    [updatePhotoStoragePath] of the migration script writes [storage_path]
    only. *)
Theorem edits_write_their_columns_only
    photoId newType name description thumbnailData storagePath user w :
  (writes [Table.SetType newType] photoId w
     (snd (updatePhotoType photoId newType user w))
   /\ kept w (snd (updatePhotoType photoId newType user w)))
  /\ (writes [Table.SetName (JS.or_null name); Table.SetDescription (JS.or_null description)]
        photoId w (snd (updatePhotoDetails photoId name description user w))
      /\ kept w (snd (updatePhotoDetails photoId name description user w)))
  /\ (writes [Table.SetThumbnailData (Some thumbnailData)] photoId w
        (snd (RegenerateThumbnails.updatePhotoWithThumbnail photoId thumbnailData w))
      /\ kept w (snd (RegenerateThumbnails.updatePhotoWithThumbnail photoId thumbnailData w)))
  /\ writes [Table.SetStoragePath (Some storagePath)] photoId w
       (snd (MigrateImages.updatePhotoStoragePath photoId storagePath w)).
Proof.
  pose proof (updatePhotoType_writes photoId newType user w) as H1.
  pose proof (updatePhotoDetails_writes photoId name description user w) as H2.
  pose proof (updatePhotoWithThumbnail_writes photoId thumbnailData w) as H3.
  pose proof (updatePhotoStoragePath_writes photoId storagePath w) as H4.
  split; [split; [exact H1 | apply (writes_keeps _ _ _ _ H1); by repeat constructor] |].
  split; [split; [exact H2 | apply (writes_keeps _ _ _ _ H2); by repeat constructor] |].
  split; [split; [exact H3 | apply (writes_keeps _ _ _ _ H3); by repeat constructor] |].
  exact H4.
Qed.

(** C6 as stated fails on the migration script: it sets the storage path
    of a persisted row, here of the row 4. *)
Lemma migration_sets_storage_path :
  let w' := snd (MigrateImages.updatePhotoStoragePath 4 Sample.find_path Sample.world1) in
  Table.storage_path <$> photos Sample.world1 !! 4 = Some None
  /\ Table.storage_path <$> photos w' !! 4 = Some (Some Sample.find_path)
  /\ ~ kept Sample.world1 w'.
Proof.
  cbn zeta. split; [reflexivity |]. split; [vm_compute; reflexivity |].
  intros [H _]. specialize (H 4). vm_compute in H. discriminate.
Qed.

End PhotoServiceFacts.

(** ** The thumbnail scripts *)

Section ThumbnailScriptFacts.

Import Spec RegenerateThumbnails.

Lemma includes_append p s needle :
  JS.includes s needle = true -> JS.includes (p +:+ s) needle = true.
Proof.
  intros H. induction p as [| c p IH]; [exact H |].
  change (JS.includes (String c p +:+ s) needle)
    with (if JS.prefix needle (String c (p +:+ s)) then true
          else JS.includes (p +:+ s) needle).
  destruct (JS.prefix needle (String c (p +:+ s))); [reflexivity | exact IH].
Qed.

Lemma isTimeout_database_error p e :
  isTimeout e = true -> isTimeout (database_error p e) = true.
Proof.
  unfold isTimeout, database_error. cbn.
  intros [H | H]%orb_true_iff; apply orb_true_iff; [left | right];
    by apply includes_append.
Qed.

(** The loop of [retryOperation] retries as the specification words it,
    whatever the attempt it is at. *)
Lemma retry_loop_retried {A} (operation : Async A) operationName left :
  forall attempt lastError w,
    attempt + Z.of_nat left = 4 -> (1 <= left)%nat ->
    retried operation operationName attempt w
      (retry_loop operation operationName 3 lastError attempt left w).
Proof.
  induction left as [| left IH]; intros attempt lastError w Hsum Hleft; [lia |].
  cbn [retry_loop]. unfold try_catch.
  destruct (operation w) as [[a | e | |] w1] eqn:E;
    try (rewrite <- E; apply retried_ends; rewrite E; by intros).
  destruct (isTimeout e) eqn:T; cbn [andb].
  - destruct (attempt <? 3) eqn:Hlt.
    + apply Z.ltb_lt in Hlt. run.
      eapply retried_again; [exact E | exact T | exact Hlt |].
      apply IH; lia.
    + apply Z.ltb_ge in Hlt. unfold throw. rewrite <- E.
      apply retried_ends. intros. by right.
  - unfold throw. rewrite <- E. apply retried_ends. rewrite E. intros ? [= <-]. by left.
Qed.

Lemma retryOperation_retried {A} (operation : Async A) operationName w :
  retried operation operationName 1 w
    (retryOperation operation operationName MAX_RETRIES w).
Proof.
  unfold retryOperation, MAX_RETRIES. change (Z.to_nat 3) with 3%nat.
  apply retry_loop_retried; [reflexivity | lia].
Qed.

(** An operation that does not throw is attempted once. *)
Lemma retryOperation_settled {A} (operation : Async A) operationName w :
  (forall e, fst (operation w) <> Throw e) ->
  retryOperation operation operationName MAX_RETRIES w = operation w.
Proof.
  intros H. unfold retryOperation, MAX_RETRIES. change (Z.to_nat 3) with 3%nat.
  cbn [retry_loop]. unfold try_catch.
  destruct (operation w) as [[a | e | |] w1]; try done. by destruct (H e).
Qed.

(** A fetch the backend fails (the error is rethrown with a prefix). *)
Lemma getAllPhotos_fails limit offset w e rest :
  responses w = Some e :: rest ->
  exists w',
    getAllPhotos limit offset w = (Throw (database_error "Database error: " e), w')
    /\ made_requests w w' [(PhotosSelectRange offset (offset + limit - 1), Some e)]
    /\ responses w' = rest /\ sleeps w' = sleeps w /\ photos w' = photos w.
Proof.
  intros Hresp. unfold getAllPhotos, photos_select_range, try_catch. answered Hresp.
  eexists. split; [reflexivity |]. cbn. by unfold made_requests.
Qed.

Lemma retry_loop_again {A} (operation : Async A) name maxRetries lastError attempt left
    w e w1 :
  operation w = (Throw e, w1) -> isTimeout e = true -> attempt < maxRetries ->
  retry_loop operation name maxRetries lastError attempt (S left) w
  = retry_loop operation name maxRetries (Some e) (attempt + 1) left
      (waited name e (attempt * 2000) w1).
Proof.
  intros E T Hlt%Z.ltb_lt. cbn [retry_loop]. unfold try_catch. rewrite E, T, Hlt.
  reflexivity.
Qed.

Lemma retry_loop_throws {A} (operation : Async A) name maxRetries lastError attempt left
    w e w1 :
  operation w = (Throw e, w1) -> isTimeout e = false \/ maxRetries <= attempt ->
  retry_loop operation name maxRetries lastError attempt (S left) w = (Throw e, w1).
Proof.
  intros E H. cbn [retry_loop]. unfold try_catch. rewrite E.
  destruct H as [-> | Hge%Z.ltb_ge]; [reflexivity |].
  rewrite Hge. by rewrite andb_false_r.
Qed.

(** Three failed fetches, the first two timeouts: the third error is
    thrown, after waits of 2000 and 4000 ms. *)
Lemma fetch_gives_up limit offset w e1 e2 e3 rest :
  responses w = Some e1 :: Some e2 :: Some e3 :: rest ->
  isTimeout e1 = true -> isTimeout e2 = true ->
  exists w',
    retryOperation (getAllPhotos limit offset) "Fetching photos batch" MAX_RETRIES w
    = (Throw (database_error "Database error: " e3), w')
    /\ made_requests w w'
         [(PhotosSelectRange offset (offset + limit - 1), Some e1);
          (PhotosSelectRange offset (offset + limit - 1), Some e2);
          (PhotosSelectRange offset (offset + limit - 1), Some e3)]
    /\ responses w' = rest
    /\ sleeps w' = sleeps w ++ [2000; 4000]
    /\ photos w' = photos w.
Proof.
  intros Hresp T1 T2.
  destruct (getAllPhotos_fails limit offset w e1 _ Hresp) as (w1 & E1 & M1 & R1 & S1 & P1).
  set (w1' := waited "Fetching photos batch" (database_error "Database error: " e1) (1 * 2000) w1).
  destruct (getAllPhotos_fails limit offset w1' e2 _ R1) as (w2 & E2 & M2 & R2 & S2 & P2).
  set (w2' := waited "Fetching photos batch" (database_error "Database error: " e2) (2 * 2000) w2).
  destruct (getAllPhotos_fails limit offset w2' e3 _ R2) as (w3 & E3 & M3 & R3 & S3 & P3).
  exists w3.
  unfold retryOperation, MAX_RETRIES. change (Z.to_nat 3) with 3%nat.
  rewrite (retry_loop_again _ _ _ _ _ _ _ _ _ E1) by
    (try apply isTimeout_database_error; done).
  rewrite (retry_loop_again _ _ _ _ _ _ _ _ _ E2) by
    (try apply isTimeout_database_error; done).
  rewrite (retry_loop_throws _ _ _ _ _ _ _ _ _ E3) by (right; done).
  split; [reflexivity |].
  unfold made_requests in *. cbn in *.
  rewrite M3, M2, M1, S3, S2, S1, P3, P2, P1, <- !app_assoc. done.
Qed.

(** The loop of the [--all] mode throws what the exhausted fetch threw. *)
Lemma fetch_loop_gives_up o totalCount fuel offset overallResults w e1 e2 e3 rest :
  (forall l, nonzero (limit o) = Some l -> processed (tally overallResults) < l) ->
  responses w = Some e1 :: Some e2 :: Some e3 :: rest ->
  isTimeout e1 = true -> isTimeout e2 = true ->
  exists w' first last,
    fetch_loop o totalCount (S fuel) offset overallResults w
    = (Throw (database_error "Database error: " e3), w')
    /\ made_requests w w'
         [(PhotosSelectRange first last, Some e1);
          (PhotosSelectRange first last, Some e2);
          (PhotosSelectRange first last, Some e3)]
    /\ sleeps w' = sleeps w ++ [2000; 4000]
    /\ photos w' = photos w.
Proof.
  intros Hlimit Hresp T1 T2. cbn [fetch_loop].
  match goal with
  | |- context [retryOperation (getAllPhotos ?size offset)] =>
      destruct (fetch_gives_up size offset w e1 e2 e3 rest Hresp T1 T2)
        as (w' & E & M & _ & S & P);
      exists w', offset, (offset + size - 1)
  end.
  split; [| done].
  destruct (nonzero (limit o)) as [l |] eqn:Hl; run.
  - specialize (Hlimit l eq_refl). apply Z.leb_gt in Hlimit. rewrite Hlimit. run.
    by rewrite E.
  - by rewrite E.
Qed.

(** What the count query leaves behind, whatever its answer. *)
Lemma getAllPhotosCount_run w :
  exists count w',
    getAllPhotosCount w = (Ret count, w')
    /\ made_requests w w' [(PhotosCount, match responses w with a :: _ => a | [] => None end)]
    /\ responses w' = tail (responses w)
    /\ sleeps w' = sleeps w /\ photos w' = photos w.
Proof.
  unfold getAllPhotosCount, photos_count, try_catch, Supabase.exchange, answer. run.
  destruct (responses w) as [| [e |] rest] eqn:Hr; run; eexists _, _;
    (split; [reflexivity |]); unfold made_requests; cbn; rewrite ?Hr; repeat split.
Qed.

(** In the [--all] mode, when the fetch of the first batch fails three
    times, the script exits with code 1. *)
Lemma regenerateThumbnails_aborts o fuel w counted e1 e2 e3 rest :
  allMode o = true -> photoIds o = [] ->
  (forall l, limit o = Some l -> 0 <= l) ->
  responses w = counted :: Some e1 :: Some e2 :: Some e3 :: rest ->
  isTimeout e1 = true -> isTimeout e2 = true ->
  exists w' first last,
    regenerateThumbnails o (S fuel) w = (Exit 1, w')
    /\ made_requests w w'
         [(PhotosCount, counted);
          (PhotosSelectRange first last, Some e1);
          (PhotosSelectRange first last, Some e2);
          (PhotosSelectRange first last, Some e3)]
    /\ sleeps w' = sleeps w ++ [2000; 4000].
Proof.
  intros Hall Hids Hlimit Hresp T1 T2.
  unfold regenerateThumbnails. rewrite Hall, Hids.
  set (w0 := snd ((console_log "Starting thumbnail regeneration process..." None;;
                   (if dryRun o
                    then console_log "DRY RUN MODE - No changes will be made" None
                    else mret tt);;
                   console_log "Processing all photos" None) w)).
  assert (H0 : responses w0 = responses w /\ requests w0 = requests w
               /\ sleeps w0 = sleeps w).
  { subst w0. destruct (dryRun o); done. }
  destruct H0 as (R0 & Q0 & S0).
  destruct (getAllPhotosCount_run w0) as (count & w1 & E1 & M1 & R1 & S1 & _).
  rewrite R0, Hresp in R1, M1. cbn in R1, M1.
  set (w1' := set_console (console w1 ++ [("Processing photos in batches"%string, None)]) w1).
  destruct (fetch_loop_gives_up o count fuel 0 (Overall 0 (Results 0 0 0 [])) w1'
              e1 e2 e3 rest) as (w2 & first & last & E2 & M2 & S2 & _); try done.
  { intros l Hl. cbn. destruct (limit o) as [[| p | p] |] eqn:Hl'; try done;
      injection Hl as <-; [lia |]. by specialize (Hlimit _ eq_refl). }
  exists (set_console
            (console w2 ++ [("Fatal error during thumbnail regeneration:"%string,
                             Some (database_error "Database error: " e3))]) w2),
    first, last.
  split.
  - unfold try_catch, mbind, mret, Async_bind, Async_ret in *.
    cbn -[getAllPhotosCount fetch_loop] in *.
    destruct (dryRun o); cbn -[getAllPhotosCount fetch_loop] in *;
      rewrite E1; cbn -[getAllPhotosCount fetch_loop]; fold w1'; rewrite E2; reflexivity.
  - unfold made_requests in *. cbn in *.
    rewrite M2, S2, M1, S1, Q0, S0, <- !app_assoc. done.
Qed.

(** *** processBatch *)

Lemma script_createThumbnail_cases base64Image w :
  (exists e w', createThumbnail base64Image THUMBNAIL_CONFIG w = (Throw e, w')
     /\ requests w' = requests w /\ sleeps w' = sleeps w /\ responses w' = responses w)
  \/ (exists url p t, createThumbnail base64Image THUMBNAIL_CONFIG w = (Ret t, w)
        /\ base64Image = Some url /\ Image.decoded url = Some p
        /\ Image.decoded t = Some (Image.Sharp p 800 800 85)).
Proof.
  unfold createThumbnail, try_catch.
  destruct base64Image as [[n b [p |]] |]; run; [right | left | left]; eauto 10.
Qed.

(** The update of a thumbnail settles with a boolean, having asked the
    backend once and waited for nothing. *)
Lemma updatePhotoWithThumbnail_run photoId thumbnailData w :
  exists ok a w',
    updatePhotoWithThumbnail photoId thumbnailData w = (Ret ok, w')
    /\ made_requests w w'
         [(PhotosUpdate [Table.SetThumbnailData (Some thumbnailData)] photoId, a)]
    /\ sleeps w' = sleeps w
    /\ (ok = true <-> a = None).
Proof.
  unfold updatePhotoWithThumbnail, Supabase.photos_update, try_catch,
    Supabase.exchange, answer, made_requests. run.
  destruct (responses w) as [| [e |] rest]; run;
    try (destruct (photos w !! photoId); run; try (destruct (Table.not_null _); run));
    eexists _, _, _; (split; [reflexivity |]); cbn; (split; [reflexivity |]); done.
Qed.

Lemma process_one_run o photo results w :
  exists results' w' made,
    process_one o photo results w = (Ret results', w')
    /\ made_requests w w' made
    /\ sleeps w' = sleeps w
    /\ Forall (regenerates [photo]) made
    /\ (length made <= 1)%nat.
Proof.
  unfold process_one, try_catch. run.
  destruct (dryRun o); run.
  { eexists _, _, []. split; [reflexivity |]. unfold made_requests. cbn.
    rewrite app_nil_r. repeat split; [constructor | lia]. }
  match goal with
  | |- context [createThumbnail ?u ?c ?w1] =>
      destruct (script_createThumbnail_cases u w1)
        as [(e & w2 & -> & Hq & Hs & _) | (url & p & t & -> & Hu & Hp & Ht)]
  end.
  { run. eexists _, _, []. split; [reflexivity |]. unfold made_requests. cbn.
    rewrite app_nil_r. repeat split; [done | done | constructor | lia]. }
  match goal with
  | |- context [retryOperation (updatePhotoWithThumbnail ?i ?th) ?n ?m ?w1] =>
      destruct (updatePhotoWithThumbnail_run i th w1) as (ok & a & w2 & E & M & S & _);
      rewrite (retryOperation_settled (updatePhotoWithThumbnail i th) n w1)
        by (rewrite E; done);
      rewrite E
  end.
  assert (Hreg : regenerates [photo]
                   (PhotosUpdate [Table.SetThumbnailData (Some t)] (fst photo), a)).
  { exists photo, url, p, t. rewrite list_elem_of_singleton. done. }
  unfold made_requests in *. cbn in M, S.
  destruct ok; run; eexists _, _, _; (split; [reflexivity |]); cbn;
    (split; [exact M |]); (split; [exact S |]); (split; [by constructor | cbn; lia]).
Qed.

Lemma regenerates_mono photos photos' x :
  photos ⊆ photos' -> regenerates photos x -> regenerates photos' x.
Proof.
  intros Hsub (photo & url & p & t & Hin & H). exists photo, url, p, t.
  split; [by apply Hsub | exact H].
Qed.

Lemma process_each_run o photos :
  forall results w,
  exists results' w' made,
    process_each o photos results w = (Ret results', w')
    /\ made_requests w w' made
    /\ sleeps w' = sleeps w
    /\ Forall (regenerates photos) made
    /\ (length made <= length photos)%nat.
Proof.
  induction photos as [| photo photos IH]; intros results w.
  - exists results, w, []. split; [reflexivity |]. unfold made_requests.
    rewrite app_nil_r. repeat split; [constructor | cbn; lia].
  - cbn [process_each].
    destruct (process_one_run o photo results w) as (r1 & w1 & m1 & E1 & M1 & S1 & F1 & L1).
    destruct (IH r1 w1) as (r2 & w2 & m2 & E2 & M2 & S2 & F2 & L2).
    exists r2, w2, (m1 ++ m2).
    split; [unfold mbind, Async_bind; by rewrite E1 |].
    unfold made_requests in *. rewrite M2, M1, S2, S1, <- app_assoc.
    repeat split; [| rewrite length_app; cbn; lia].
    apply Forall_app. split.
    + eapply Forall_impl; [exact F1 |]. intros x. apply regenerates_mono.
      intros y ->%list_elem_of_singleton. by left.
    + eapply Forall_impl; [exact F2 |]. intros x. apply regenerates_mono.
      intros y Hy. by right.
Qed.

Lemma processBatch_run o photos batchIndex w :
  exists results w' made,
    processBatch o photos batchIndex w = (Ret results, w')
    /\ made_requests w w' made
    /\ sleeps w' = sleeps w
    /\ Forall (regenerates photos) made
    /\ (length made <= length photos)%nat.
Proof.
  unfold processBatch. run.
  match goal with
  | |- context [process_each o photos ?r ?w1] =>
      destruct (process_each_run o photos r w1) as (r' & w' & made & E & H)
  end.
  exists r', w', made. split; [exact E | exact H].
Qed.

(** The rows a fetch returns are rows of the table. *)
Lemma range_subseteq {A} first last (rows : list A) : range first last rows ⊆ rows.
Proof.
  unfold range. intros x Hx.
  apply (subseteq_drop (Z.to_nat first)). eapply subseteq_take. exact Hx.
Qed.

Lemma fetched_rows_are_stored limit offset ids w page w' row :
  getAllPhotos limit offset w = (Ret page, w')
  \/ getPhotosByIds ids w = (Ret page, w') ->
  row ∈ photos_of page -> photos w !! fst row = Some (snd row).
Proof.
  intros [E | E] Hin; revert E;
    [ unfold getAllPhotos, photos_select_range | unfold getPhotosByIds, photos_select_in ];
    unfold try_catch, Supabase.exchange, answer; run.
  - destruct (responses w) as [| [e |] rest]; run; intros [= <- _]; cbn in Hin;
      apply range_subseteq in Hin; rewrite merge_sort_Permutation in Hin;
      apply elem_of_map_to_list'; exact Hin.
  - destruct (responses w) as [| [e |] rest]; run; try discriminate;
      (destruct (filter _ _) as [| r l] eqn:Hf; run; intros [= <- _]; cbn in Hin;
       [by apply elem_of_nil in Hin |]);
      rewrite <- Hf in Hin; apply list_elem_of_filter in Hin as [_ Hin];
      apply elem_of_map_to_list'; exact Hin.
Qed.

(** *** Retrying and giving up *)

(** A thrown error that is no timeout ends [retryOperation] at the first
    attempt. *)
Lemma retryOperation_rethrows {A} (operation : Async A) operationName w e w1 :
  operation w = (Throw e, w1) -> isTimeout e = false ->
  retryOperation operation operationName MAX_RETRIES w = (Throw e, w1).
Proof.
  intros Hop He. unfold retryOperation. change (Z.to_nat MAX_RETRIES) with 3%nat.
  apply retry_loop_throws; [exact Hop | by left].
Qed.




(** The update of a thumbnail never throws, so [retryOperation] has
    nothing to retry there: a timeout of the update is asked once and counts
    as a failed photo. *)
Lemma update_timeout_is_not_retried :
  let w := set_responses [Some Sample.timeout] Sample.world1 in
  let thumbnail := Image.DataURL 40000 true None in
  retryOperation (updatePhotoWithThumbnail 4 thumbnail) "Updating photo 4" MAX_RETRIES w
  = updatePhotoWithThumbnail 4 thumbnail w
  /\ fst (updatePhotoWithThumbnail 4 thumbnail w) = Ret false
  /\ requests (snd (updatePhotoWithThumbnail 4 thumbnail w))
     = [(PhotosUpdate [Table.SetThumbnailData (Some thumbnail)] 4, Some Sample.timeout)]
  /\ sleeps (snd (updatePhotoWithThumbnail 4 thumbnail w)) = [].
Proof.
  vm_compute. repeat split; reflexivity.
Qed.

End ThumbnailScriptFacts.

(** ** Where thumbnails come from *)

Section ThumbnailFacts.

Import Utils PhotoService Spec.



End ThumbnailFacts.

(** ** The migration script *)

Section MigrationFacts.

Import Spec MigrateImages.

#[local] Instance id_le_transitive : Transitive id_le.
Proof. intros a b c. unfold id_le. lia. Qed.

#[local] Instance id_le_total : Total id_le.
Proof. intros a b. unfold id_le. lia. Qed.

Lemma StronglySorted_sublist {A} (R : relation A) k l :
  sublist k l -> StronglySorted R l -> StronglySorted R k.
Proof.
  induction 1 as [| x k l Hsub IH | x k l Hsub IH]; intros Hl; [constructor | |].
  - apply StronglySorted_inv in Hl as [Hl Hx]. constructor; [by apply IH |].
    eapply Forall_forall. intros y Hy. eapply Forall_forall in Hx; [exact Hx |].
    eapply elem_of_sublist; [exact Hy | exact Hsub].
  - apply StronglySorted_inv in Hl as [Hl _]. by apply IH.
Qed.

Lemma strictly_sorted_ids (l : list Table.row) :
  StronglySorted id_le l -> NoDup (l.*1) -> StronglySorted id_lt l.
Proof.
  induction 1 as [| x l Hl IH Hx]; intros Hnd; [constructor |].
  cbn in Hnd. apply NoDup_cons in Hnd as [Hnotin Hnd].
  constructor; [by apply IH |].
  apply Forall_forall. intros y Hy. rewrite Forall_forall in Hx.
  specialize (Hx y Hy). unfold id_le, id_lt in *.
  assert (fst x <> fst y); [| lia].
  intros E. apply Hnotin. rewrite E. by apply list_elem_of_fmap_2.
Qed.

(** The rows the migration query selects. *)
Lemma select_to_migrate_selected (p : gmap Z Table.columns) batchSize lastProcessedId :
  0 <= batchSize ->
  selected p batchSize lastProcessedId
    (take (Z.to_nat batchSize)
       (merge_sort id_le
          (filter (fun r => to_migrate lastProcessedId r) (map_to_list p)))).
Proof.
  intros Hsize.
  set (found := filter _ (map_to_list p)).
  set (sorted := merge_sort id_le found).
  assert (Hperm : sorted ≡ₚ found) by apply merge_sort_Permutation.
  assert (Hsub : sublist (take (Z.to_nat batchSize) sorted) sorted) by apply sublist_take.
  split; [| split].
  - apply Forall_forall. intros r Hr.
    eapply elem_of_sublist in Hr; [| exact Hsub].
    rewrite Hperm in Hr. apply list_elem_of_filter in Hr as [Hf Hr].
    apply elem_of_map_to_list' in Hr. split; [exact Hr |].
    unfold to_migrate, unmigrated in Hf.
    destruct (Table.storage_path (snd r)); [done |].
    destruct (Table.image_data (snd r)); [| done].
    apply Is_true_true in Hf. cbn in Hf. apply Z.ltb_lt in Hf. eauto.
  - eapply StronglySorted_sublist; [exact Hsub |].
    apply strictly_sorted_ids; [apply StronglySorted_merge_sort; apply _ |].
    rewrite Hperm.
    assert (Hfound : sublist (found.*1) ((map_to_list p).*1))
      by (apply fmap_sublist; apply sublist_filter).
    exact (sublist_NoDup _ _ (NoDup_fst_map_to_list p) Hfound).
  - rewrite length_take. lia.
Qed.

(** *** The steps of the migration, by the requests they make *)

Lemma stepped_refl w : stepped w w [].
Proof. split; [unfold made_requests; by rewrite app_nil_r | done]. Qed.

Lemma stepped_trans w1 w2 w3 m1 m2 :
  stepped w1 w2 m1 -> stepped w2 w3 m2 -> stepped w1 w3 (m1 ++ m2).
Proof.
  unfold stepped, made_requests. intros [-> ->] [-> ->]. by rewrite app_assoc.
Qed.

(** The query of a batch: it throws, or returns rows selected from the
    table. *)
Lemma getPhotosToMigrate_run batchSize lastProcessedId w :
  exists out w' a,
    getPhotosToMigrate batchSize lastProcessedId w = (out, w')
    /\ stepped w w' [(PhotosSelectToMigrate batchSize lastProcessedId, a)]
    /\ match out with
       | Ret rows => selected (photos w) batchSize lastProcessedId rows
       | Throw _ => True
       | _ => False
       end.
Proof.
  unfold getPhotosToMigrate, rethrow, photos_select_to_migrate, try_catch,
    Supabase.exchange, answer. run.
  destruct (responses w) as [| [e |] rest]; run;
    try (eexists _, _, _; split; [reflexivity |]; by split);
    (destruct (batchSize <? 0) eqn:Hsize; run;
     [ eexists _, _, _; split; [reflexivity |]; by split | ]);
    apply Z.ltb_ge in Hsize;
    (eexists _, _, _; split; [reflexivity |]; split; [by split |]);
    by apply select_to_migrate_selected.
Qed.

Lemma migrated_ids_app l k : migrated_ids (l ++ k) = migrated_ids l ++ migrated_ids k.
Proof. apply omap_app. Qed.

(** The upload asks for one upload, or for nothing when the image is no
    base64. *)
Lemma uploadToStorage_run base64Image filename w :
  exists out w' made,
    uploadToStorage base64Image filename w = (out, w')
    /\ stepped w w' made
    /\ migrated_ids made = []
    /\ match out with Ret _ | Throw _ => True | _ => False end.
Proof.
  unfold uploadToStorage, base64ToBlob, rethrow, try_catch.
  destruct (Image.base64 base64Image); run.
  2:{ eexists _, _, []. split; [reflexivity |]. split; [apply stepped_refl | done]. }
  unfold Supabase.storage_upload, Supabase.exchange, answer. run.
  destruct (responses w) as [| [e |] rest]; run;
    try (destruct (bucket w !! filename); run);
    eexists _, _, [_]; (split; [reflexivity |]); by split.
Qed.

Lemma update_run values photoId w :
  exists r w' a,
    Supabase.photos_update values photoId w = (Ret r, w')
    /\ stepped w w' [(PhotosUpdate values photoId, a)].
Proof.
  unfold Supabase.photos_update, Supabase.exchange, answer. run.
  destruct (responses w) as [| [e |] rest]; run;
    try (destruct (photos w !! photoId); run; try (destruct (Table.not_null _); run));
    eexists _, _, _; (split; [reflexivity |]); by split.
Qed.

Lemma updatePhotoStoragePath_run photoId storagePath w :
  exists out w' a,
    updatePhotoStoragePath photoId storagePath w = (out, w')
    /\ stepped w w' [(PhotosUpdate [Table.SetStoragePath (Some storagePath)] photoId, a)]
    /\ match out with Ret _ | Throw _ => True | _ => False end.
Proof.
  unfold updatePhotoStoragePath, rethrow, try_catch.
  unfold mbind, Async_bind.
  destruct (update_run [Table.SetStoragePath (Some storagePath)] photoId w)
    as ([d [e |]] & w' & a & -> & H); run; eauto 10.
Qed.

Lemma cleanupBase64Data_run photoId w :
  exists out w' a,
    cleanupBase64Data photoId w = (out, w')
    /\ stepped w w'
         [(PhotosUpdate [Table.SetImageData None; Table.SetThumbnailData None] photoId, a)]
    /\ match out with Ret _ | Throw _ => True | _ => False end.
Proof.
  unfold cleanupBase64Data, rethrow, try_catch.
  unfold mbind, Async_bind.
  destruct (update_run [Table.SetImageData None; Table.SetThumbnailData None] photoId w)
    as ([d [e |]] & w' & a & -> & H); run; eauto 10.
Qed.

(** A photo is processed without an exception, and of the ids the
    requests migrate there is none but its own. *)
Lemma processPhoto_run o photo w :
  exists r w' made,
    processPhoto o photo w = (Ret r, w')
    /\ stepped w w' made
    /\ sublist (migrated_ids made) [fst photo].
Proof.
  unfold processPhoto, try_catch.
  destruct (JS.truthy _); run.
  { eexists _, _, []. split; [reflexivity |]. split; [apply stepped_refl | by constructor]. }
  destruct (Table.image_data _) as [image_data |]; run.
  2:{ eexists _, _, []. split; [reflexivity |]. split; [apply stepped_refl | by constructor]. }
  destruct (dryRun o); run.
  { eexists _, _, []. split; [reflexivity |]. split; [apply stepped_refl | by constructor]. }
  destruct (uploadToStorage_run image_data (createUniqueFilename photo) w)
    as (out1 & w1 & made1 & -> & H1 & Hnone & Hout1).
  destruct out1 as [storagePath | e | |]; try done; run.
  2:{ eexists _, _, _. split; [reflexivity |]. split; [exact H1 |].
      rewrite Hnone. by constructor. }
  destruct (updatePhotoStoragePath_run (fst photo) storagePath w1)
    as (out2 & w2 & a2 & -> & H2 & Hout2).
  pose proof (stepped_trans _ _ _ _ _ H1 H2) as H12.
  destruct out2 as [ok | e | |]; try done; run.
  2:{ eexists _, _, _. split; [reflexivity |]. split; [exact H12 |].
      by rewrite migrated_ids_app, Hnone. }
  destruct (cleanup o); run.
  2:{ eexists _, _, _. split; [reflexivity |]. split; [exact H12 |].
      by rewrite migrated_ids_app, Hnone. }
  destruct (cleanupBase64Data_run (fst photo) w2) as (out3 & w3 & a3 & -> & H3 & Hout3).
  pose proof (stepped_trans _ _ _ _ _ H12 H3) as H123.
  destruct out3 as [ok' | e | |]; try done; run;
    eexists _, _, _; (split; [reflexivity |]); (split; [exact H123 |]);
    by rewrite !migrated_ids_app, Hnone.
Qed.

(** The batch is processed photo by photo without an exception; the ids
    migrated are among those of the batch, in its order; and the progress
    file ends with the id of the last photo. *)
Lemma process_photos_run o startTime photos :
  forall c w,
  exists c' w' made,
    process_photos o startTime photos c w = (Ret c', w')
    /\ made_requests w w' made
    /\ sublist (migrated_ids made) (photos.*1)
    /\ match last photos with
       | Some photo => c_lastProcessedId c' = fst photo /\ recorded w' = fst photo
       | None => c' = c /\ w' = w
       end.
Proof.
  induction photos as [| photo rest IH]; intros c w.
  - exists c, w, []. split; [reflexivity |]. unfold made_requests. rewrite app_nil_r.
    repeat split. constructor.
  - cbn [process_photos]. unfold mbind at 1, Async_bind at 1.
    destruct (processPhoto_run o photo w) as (r & w1 & m1 & -> & [M1 _] & S1).
    set (next := fun successful failed w =>
                   process_photos o startTime rest
                     (Counters (c_processed c + 1) successful failed (fst photo))
                     (set_sleeps (sleeps w ++ [100])
                        (set_progress_file
                           (Saved (Progress (c_processed c + 1) successful failed
                                     (fst photo) startTime)) w))).
    assert (Hnext : forall successful failed line,
              exists c' w' made,
                next successful failed (set_console (console w1 ++ [line]) w1)
                = (Ret c', w')
                /\ made_requests w w' made
                /\ sublist (migrated_ids made) ((photo :: rest).*1)
                /\ match last (photo :: rest) with
                   | Some photo => c_lastProcessedId c' = fst photo
                                   /\ recorded w' = fst photo
                   | None => c' = c /\ w' = w
                   end).
    { intros successful failed line. unfold next.
      match goal with
      | |- context [process_photos o startTime rest ?c2 ?w2] =>
          destruct (IH c2 w2) as (c' & w' & m2 & E & M2 & S2 & L)
      end.
      exists c', w', (m1 ++ m2). split; [exact E |].
      unfold made_requests in *. cbn in M2. rewrite M2, M1, app_assoc.
      split; [done |]. split.
      - rewrite migrated_ids_app.
        change ((photo :: rest).*1) with ([fst photo] ++ rest.*1). by apply sublist_app.
      - destruct rest as [| photo' rest'].
        + cbn in *. destruct L as [-> ->]. done.
        + change (last (photo :: photo' :: rest')) with (last (photo' :: rest')).
          destruct (last (photo' :: rest')) eqn:Hl; [exact L |].
          by apply last_None in Hl. }
    destruct r; run; apply Hnext.
Qed.

Lemma Forall_sublist {A} (P : A -> Prop) k l :
  sublist k l -> Forall P l -> Forall P k.
Proof.
  intros Hsub Hl. apply Forall_forall. intros x Hx. rewrite Forall_forall in Hl.
  apply Hl. by apply (elem_of_sublist k).
Qed.

Lemma last_is_greatest (ids : list Z) greatest :
  StronglySorted Z.lt ids -> last ids = Some greatest -> Forall (fun i => i <= greatest) ids.
Proof.
  induction 1 as [| i ids Hs IH Hi]; intros Hlast; [constructor |].
  destruct ids as [| j ids'].
  - injection Hlast as <-. repeat constructor. lia.
  - specialize (IH Hlast). constructor; [| exact IH].
    apply Forall_inv in Hi. apply Forall_inv in IH. lia.
Qed.

(** One turn of the loop: a query with the id the counters hold, then the
    batch; the ids migrated ascend from above that id up to the id the
    counters hold afterwards, which is the one in the progress file. *)
Lemma iteration_run o startTime c w :
  exists out w' a made,
    iteration o startTime c w = (out, w')
    /\ made_requests w w'
         ((PhotosSelectToMigrate (batchSize o) (c_lastProcessedId c), a) :: made)
    /\ StronglySorted Z.lt (migrated_ids made)
    /\ Forall (fun i => c_lastProcessedId c < i) (migrated_ids made)
    /\ match out with
       | Ret (Some c') =>
           Forall (fun i => i <= c_lastProcessedId c') (migrated_ids made)
           /\ c_lastProcessedId c' = recorded w'
           /\ c_lastProcessedId c < c_lastProcessedId c'
       | Ret None => made = [] /\ recorded w' = recorded w
       | Throw _ => made = []
       | _ => False
       end.
Proof.
  unfold iteration. unfold mbind at 1, Async_bind at 1.
  destruct (getPhotosToMigrate_run (batchSize o) (c_lastProcessedId c) w)
    as (out & w1 & a & -> & [M1 P1] & Hout).
  destruct out as [photos | e | |]; try done.
  2:{ exists (Throw e), w1, a, []. repeat split; try done; constructor. }
  destruct photos as [| photo rest];
    unfold mbind, mret, Async_bind, Async_ret; cbn -[process_photos].
  { eexists _, _, a, []. split; [reflexivity |]. split; [exact M1 |].
    repeat split; try constructor. unfold recorded. cbn. by rewrite P1. }
  set (photos := photo :: rest) in *.
  match goal with
  | |- context [process_photos o startTime photos c ?w2] =>
      destruct (process_photos_run o startTime photos c w2)
        as (c' & w' & made & -> & M2 & Hsub & Hlast)
  end.
  destruct Hout as (Hrows & Hsorted & _).
  assert (Hids : StronglySorted Z.lt (photos.*1)).
  { apply (StronglySorted_fmap fst id_lt Z.lt); [| exact Hsorted]. by intros x y. }
  assert (Habove : Forall (fun i => c_lastProcessedId c < i) (photos.*1)).
  { apply Forall_fmap. eapply Forall_impl; [exact Hrows |]. by intros r (_ & _ & _ & H). }
  destruct (last photos) as [greatest |] eqn:Hgreatest;
    [| by apply last_None in Hgreatest].
  destruct Hlast as [Hc' Hrec].
  assert (Hbelow : Forall (fun i => i <= fst greatest) (photos.*1)).
  { apply last_is_greatest; [exact Hids |].
    pose proof (fmap_last fst photos) as Hf. unfold Table.row in *.
    rewrite Hgreatest in Hf. exact Hf. }
  exists (Ret (Some c')), (set_sleeps (sleeps w' ++ [1000]) w'), a, made.
  split; [reflexivity |].
  split; [unfold made_requests in *; cbn in *; by rewrite M2, M1, <- app_assoc |].
  split; [by apply (StronglySorted_sublist _ _ _ Hsub) |].
  split; [by apply (Forall_sublist _ _ _ Hsub) |].
  rewrite Hc'. split; [by apply (Forall_sublist _ _ _ Hsub) |]. split; [by rewrite <- Hrec |].
  apply last_Some_elem_of in Hgreatest.
  rewrite Forall_forall in Habove. apply Habove. by apply list_elem_of_fmap_2.
Qed.

(** The loop, whatever the fuel: the ids migrated ascend, from above the id
    the counters hold at the start. *)
Lemma migrate_loop_run o startTime fuel :
  forall c w,
  exists made,
    made_requests w (snd (migrate_loop o startTime fuel c w)) made
    /\ StronglySorted Z.lt (migrated_ids made)
    /\ Forall (fun i => c_lastProcessedId c < i) (migrated_ids made)
    /\ (made = []
        \/ exists a rest,
             made = (PhotosSelectToMigrate (batchSize o) (c_lastProcessedId c), a) :: rest).
Proof.
  induction fuel as [| fuel IH]; intros c w.
  - exists []. cbn. unfold made_requests. rewrite app_nil_r.
    split; [done |]. split; [constructor |]. split; [constructor | by left].
  - cbn [migrate_loop]. unfold mbind, Async_bind.
    destruct (iteration_run o startTime c w)
      as (out & w1 & a & m1 & -> & M1 & Hsorted & Habove & Hout).
    destruct out as [[c' |] | e | |]; try done; cbn [snd].
    2,3: (exists ((PhotosSelectToMigrate (batchSize o) (c_lastProcessedId c), a) :: m1);
          split; [exact M1 |]; split; [exact Hsorted |]; split; [exact Habove |];
          right; eauto).
    destruct Hout as (Hbelow & _ & Hgrows).
    destruct (IH c' w1) as (m2 & M2 & Hsorted2 & Habove2 & _).
    exists (((PhotosSelectToMigrate (batchSize o) (c_lastProcessedId c), a) :: m1) ++ m2).
    split; [unfold made_requests in *; by rewrite M2, M1, <- app_assoc |].
    change (migrated_ids (?x :: m1 ++ m2)) with (migrated_ids (m1 ++ m2)).
    rewrite migrated_ids_app.
    assert (Hall : StronglySorted Z.lt (migrated_ids m1 ++ migrated_ids m2)).
    { apply StronglySorted_app. split; [| by split].
      intros i j Hi Hj. rewrite Forall_forall in Hbelow, Habove2.
      specialize (Hbelow i Hi). specialize (Habove2 j Hj). lia. }
    assert (Hup : Forall (fun i => c_lastProcessedId c < i)
                    (migrated_ids m1 ++ migrated_ids m2)).
    { apply Forall_app. split; [exact Habove |].
      eapply Forall_impl; [exact Habove2 |]. intros j Hj. cbn in Hj. lia. }
    split; [exact Hall |]. split; [exact Hup |]. right. eauto.
Qed.

(** What the progress file gives to resume from. *)
Lemma loadProgress_run w :
  exists p w',
    loadProgress w = (Ret p, w')
    /\ lastProcessedId p = recorded w
    /\ stepped w w' [].
Proof.
  unfold loadProgress, recorded, log. run.
  destruct (progress_file w) eqn:Hf; run;
    eexists _, _; (split; [reflexivity |]); (split; [reflexivity |]);
    split; unfold made_requests; cbn; by rewrite ?app_nil_r.
Qed.

Lemma getTotalPhotosToMigrate_run w :
  exists n w' a,
    getTotalPhotosToMigrate w = (Ret n, w')
    /\ stepped w w' [(PhotosCountToMigrate, a)].
Proof.
  unfold getTotalPhotosToMigrate, photos_count_to_migrate, try_catch, log,
    Supabase.exchange, answer. run.
  destruct (responses w) as [| [e |] rest]; run;
    eexists _, _, _; (split; [reflexivity |]); by split.
Qed.

(** The whole run: the ids migrated ascend, from above the id the progress
    file held at the start; the first batch is asked for from that id on. *)
Lemma runMigration_run o fuel w :
  exists made,
    made_requests w (snd (runMigration o fuel w)) made
    /\ StronglySorted Z.lt (migrated_ids made)
    /\ Forall (fun i => recorded w < i) (migrated_ids made)
    /\ (made = []
        \/ exists counted,
             made = [(PhotosCountToMigrate, counted)]
             \/ exists a rest,
                  made = (PhotosCountToMigrate, counted)
                         :: (PhotosSelectToMigrate (batchSize o) (recorded w), a) :: rest).
Proof.
  unfold runMigration.
  unfold mbind, Async_bind, log, console_log at 1 2.
  cbn -[loadProgress getTotalPhotosToMigrate migrate_loop].
  destruct (JS.truthy (authEmail o)) eqn:Hauth;
    cbn -[loadProgress getTotalPhotosToMigrate migrate_loop].
  { exists []. unfold authenticateUser. rewrite Hauth. run.
    split; [unfold made_requests; cbn; by rewrite app_nil_r |].
    split; [constructor |]. split; [constructor | by left]. }
  match goal with
  | |- context [loadProgress ?w0] =>
      assert (H0 : stepped w w0 [])
        by (split; unfold made_requests; cbn; by rewrite ?app_nil_r);
      assert (Hrec : recorded w0 = recorded w) by done;
      destruct (loadProgress_run w0) as (p & w1 & -> & Hp & H1)
  end.
  rewrite Hrec in Hp.
  cbn -[loadProgress getTotalPhotosToMigrate migrate_loop].
  match goal with
  | |- context [(if ?b then ?x else ?y) w1] =>
      assert (Hm : exists w1', (if b then x else y) w1 = (Ret tt, w1') /\ stepped w1 w1' [])
        by (destruct b; eexists; (split; [reflexivity |]); split;
            unfold made_requests; cbn; by rewrite ?app_nil_r);
      destruct Hm as (w1' & -> & H1')
  end.
  destruct (getTotalPhotosToMigrate_run w1') as (n & w2 & counted & -> & H2).
  pose proof (stepped_trans _ _ _ _ _
                (stepped_trans _ _ _ _ _ (stepped_trans _ _ _ _ _ H0 H1) H1') H2) as H02.
  cbn [app] in H02.
  cbn -[loadProgress getTotalPhotosToMigrate migrate_loop].
  destruct (n =? 0); cbn -[migrate_loop].
  { exists [(PhotosCountToMigrate, counted)]. split; [apply H02 |].
    split; [constructor |]. split; [constructor |]. right. eauto. }
  unfold try_catch.
  match goal with
  | |- context [migrate_loop o ?st fuel ?c ?w3] =>
      destruct (migrate_loop_run o st fuel c w3) as (m & M & Hsorted & Habove & Hfirst);
      destruct (migrate_loop o st fuel c w3) as [out w4] eqn:E
  end.
  cbn [c_lastProcessedId] in Habove, Hfirst. rewrite Hp in Habove, Hfirst.
  assert (Hmade : requests w4 = requests w ++ (PhotosCountToMigrate, counted) :: m).
  { destruct H02 as [H02 _]. unfold made_requests in *. cbn in M, H02.
    rewrite M, H02, <- app_assoc. done. }
  exists ((PhotosCountToMigrate, counted) :: m).
  split.
  - unfold made_requests, unlink_progress_file.
    destruct out as [c' | e | |]; run; try exact Hmade.
    destruct (0 <? c_failed c'), (c_failed c' =? 0); run; try exact Hmade;
      destruct (progress_file w4); run; exact Hmade.
  - split; [exact Hsorted |]. split; [exact Habove |].
    right. exists counted. destruct Hfirst as [-> | (a & rest & ->)]; eauto.
Qed.

(** C7. The migration script is resumable and sets the storage path of a
    photo at most once in a run.  A batch query returns rows of the table
    whose [storage_path] is null, whose [image_data] is not, and whose ids
    are above the last processed id it is given, by ascending id and no more
    than the batch size.  The loop gives it the id recorded in the progress
    file: it does at its start, and after a batch the id it continues with
    is again the one recorded.  [processPhoto] skips a photo that has a
    storage path, with no request made.  And over a whole run the ids whose
    storage path is set are strictly ascending, so none is set twice, and all
    are above the id recorded when the run started. *)
Theorem migration_resumes_after_the_recorded_id o startTime c w :
  c_lastProcessedId c = recorded w ->
  (forall batchSize lastProcessedId w0 rows w1,
      getPhotosToMigrate batchSize lastProcessedId w0 = (Ret rows, w1) ->
      selected (photos w0) batchSize lastProcessedId rows)
  /\ (exists out w' a made,
         iteration o startTime c w = (out, w')
         /\ made_requests w w'
              ((PhotosSelectToMigrate (batchSize o) (recorded w), a) :: made)
         /\ StronglySorted Z.lt (migrated_ids made)
         /\ Forall (fun i => recorded w < i) (migrated_ids made)
         /\ match out with
            | Ret (Some c') =>
                c_lastProcessedId c' = recorded w'
                /\ recorded w < recorded w'
                /\ Forall (fun i => i <= recorded w') (migrated_ids made)
            | Ret None => made = [] /\ recorded w' = recorded w
            | Throw _ => made = []
            | _ => False
            end)
  /\ (forall photo path w0,
         Table.storage_path (snd photo) = Some path -> path <> EmptyString ->
         processPhoto o photo w0 = (Ret (Skipped "Already migrated"), w0))
  /\ (forall fuel,
         exists made,
           made_requests w (snd (runMigration o fuel w)) made
           /\ StronglySorted Z.lt (migrated_ids made)
           /\ Forall (fun i => recorded w < i) (migrated_ids made)
           /\ (made = []
               \/ exists counted,
                    made = [(PhotosCountToMigrate, counted)]
                    \/ exists a rest,
                         made = (PhotosCountToMigrate, counted)
                                :: (PhotosSelectToMigrate (batchSize o) (recorded w), a)
                                :: rest)).
Proof.
  intros Hinv. split; [| split; [| split]].
  - intros batchSize lastProcessedId w0 rows w1 Hrun.
    destruct (getPhotosToMigrate_run batchSize lastProcessedId w0)
      as (out & w' & a & E & _ & Hout).
    rewrite E in Hrun. injection Hrun as -> ->. exact Hout.
  - destruct (iteration_run o startTime c w)
      as (out & w' & a & made & E & Hmade & Hsorted & Habove & Hout).
    rewrite Hinv in Hmade, Habove. exists out, w', a, made.
    repeat (split; [assumption |]).
    destruct out as [[c' |] | | |]; try exact Hout.
    destruct Hout as (Hle & Hrec & Hlt). rewrite Hinv, Hrec in Hlt. rewrite Hrec in Hle.
    by repeat split.
  - intros photo path w0 Hpath Hne. unfold processPhoto, try_catch.
    rewrite Hpath. destruct path; [done |]. reflexivity.
  - intros fuel. apply runMigration_run.
Qed.

Lemma migration_resumes_after_the_recorded_id_witness :
  let o := Options 10 false true false None in
  let c := Counters 3 3 0 3 in
  let w := set_progress_file (Saved (Progress 3 3 0 3 Sample.noon)) Sample.world1 in
  c_lastProcessedId c = recorded w
  /\ exists out w' a made,
       iteration o Sample.noon c w = (out, w')
       /\ made_requests w w'
            ((PhotosSelectToMigrate (batchSize o) (recorded w), a) :: made)
       /\ StronglySorted Z.lt (migrated_ids made)
       /\ Forall (fun i => recorded w < i) (migrated_ids made)
       /\ match out with
          | Ret (Some c') =>
              c_lastProcessedId c' = recorded w'
              /\ recorded w < recorded w'
              /\ Forall (fun i => i <= recorded w') (migrated_ids made)
          | Ret None => made = [] /\ recorded w' = recorded w
          | Throw _ => made = []
          | _ => False
          end.
Proof.
  intros o c w. split; [reflexivity |].
  exact (proj1 (proj2 (migration_resumes_after_the_recorded_id o Sample.noon c w
                         eq_refl))).
Defined.

(** The run of the witness: row 4 is uploaded and takes its storage path,
    and the progress file records it. *)
Example migration_of_the_legacy_row :
  let o := Options 10 false true false None in
  let w := set_progress_file (Saved (Progress 3 3 0 3 Sample.noon)) Sample.world1 in
  let w' := snd (iteration o Sample.noon (Counters 3 3 0 3) w) in
  migrated_ids (requests w') = [4]
  /\ recorded w' = 4
  /\ (Table.storage_path <$> photos w' !! 4)
     = Some (Some "7f3c/2023-09-14T08-30-00-000Z_IMG_0007.jpg"%string).
Proof.
  vm_compute. repeat split; reflexivity.
Qed.

End MigrationFacts.

(** ** The URL and the map *)

Section UrlFacts.

Import MapComponent.

(** *** Parameters of the query *)

Lemma get_set_param name value params :
  get_param name (set_param name value params) = Some value.
Proof.
  induction params as [| [n v] rest IH]; cbn.
  - by rewrite String.eqb_refl.
  - destruct (String.eqb n name) eqn:E; cbn; [by rewrite String.eqb_refl |].
    by rewrite E.
Qed.

Lemma get_filter_param name other (params : list (string * string)) :
  name <> other ->
  get_param name (filter (fun p => negb (String.eqb (fst p) other)) params)
  = get_param name params.
Proof.
  intros Hne. induction params as [| [n v] rest IH]; [done |].
  rewrite filter_cons. destruct (decide _) as [H | H]; cbn [get_param fst] in *.
  - by rewrite IH.
  - destruct (String.eqb n other) eqn:E; [| by destruct H].
    apply String.eqb_eq in E. subst n.
    destruct (String.eqb other name) eqn:E'; [| exact IH].
    apply String.eqb_eq in E'. congruence.
Qed.

Lemma get_set_other_param name other value params :
  name <> other ->
  get_param name (set_param other value params) = get_param name params.
Proof.
  intros Hne. induction params as [| [n v] rest IH]; cbn.
  - destruct (String.eqb other name) eqn:E; [| done].
    apply String.eqb_eq in E. congruence.
  - destruct (String.eqb n other) eqn:E; cbn.
    + apply String.eqb_eq in E. subst n.
      destruct (String.eqb other name) eqn:E'.
      * apply String.eqb_eq in E'. congruence.
      * by apply get_filter_param.
    + by rewrite IH.
Qed.

(** *** Digits *)

Lemma char_digit_char d : digit d -> char_digit (digit_char d) = Some d.
Proof.
  intros Hd. unfold digit in Hd.
  assert (H : d = 0 \/ d = 1 \/ d = 2 \/ d = 3 \/ d = 4 \/ d = 5 \/ d = 6 \/ d = 7
              \/ d = 8 \/ d = 9) by lia.
  repeat (destruct H as [-> | H]; [reflexivity |]). by subst.
Qed.

(** A character that is a digit is none of the characters that are not. *)
Lemma digit_is_not c d x :
  char_digit c = Some d -> char_digit x = None -> Ascii.eqb c x = false.
Proof.
  intros Hc Hx. destruct (Ascii.eqb_spec c x) as [-> |]; [congruence | done].
Qed.

Lemma digit_not_white c d : char_digit c = Some d -> white c = false.
Proof.
  unfold char_digit, white. destruct (_ && _) eqn:E; [| discriminate]. intros _.
  apply andb_true_iff in E as [E1%Z.leb_le E2%Z.leb_le].
  apply orb_false_iff. split.
  - apply andb_false_iff. right. apply N.leb_gt. lia.
  - apply N.eqb_neq. lia.
Qed.

Lemma value_from_app a ds es : value_from a (ds ++ es) = value_from (value_from a ds) es.
Proof. apply fold_left_app. Qed.

Lemma value_from_shift ds : forall a, value_from a ds = a * 10 ^ Z.of_nat (length ds) + value ds.
Proof.
  unfold value. fold (value_from 0 ds).
  induction ds as [| d ds IH]; intros a; cbn [value_from fold_left length].
  - cbn. lia.
  - fold (value_from (a * 10 + d) ds). fold (value_from (0 * 10 + d) ds).
    rewrite (IH (a * 10 + d)), (IH (0 * 10 + d)).
    rewrite Nat2Z.inj_succ, Z.pow_succ_r by lia. lia.
Qed.

Lemma value_app ds es : value (ds ++ es) = value ds * 10 ^ Z.of_nat (length es) + value es.
Proof.
  unfold value at 1. fold (value_from 0 (ds ++ es)).
  rewrite value_from_app, value_from_shift. reflexivity.
Qed.

(** The digits of a number are digits, at least one, and denote it. *)
Lemma digits_fuel_spec fuel :
  forall n acc,
    0 <= n -> Z.log2 n < Z.of_nat fuel ->
    value_from 0 (digits_fuel fuel n acc) = value_from n acc
    /\ (Forall digit acc -> Forall digit (digits_fuel fuel n acc))
    /\ (length acc < length (digits_fuel fuel n acc))%nat.
Proof.
  induction fuel as [| fuel IH]; intros n acc Hn Hlog.
  - pose proof (Z.log2_nonneg n). lia.
  - cbn [digits_fuel]. destruct (n <? 10) eqn:Hlt.
    + apply Z.ltb_lt in Hlt. cbn. repeat split; [| lia].
      intros Hacc. constructor; [unfold digit; lia | exact Hacc].
    + apply Z.ltb_ge in Hlt.
      assert (Hlog' : Z.log2 (n / 10) < Z.of_nat fuel).
      { assert (Hspec : 2 ^ Z.log2 n <= n < 2 ^ Z.succ (Z.log2 n))
          by (apply Z.log2_spec; lia).
        rewrite Z.pow_succ_r in Hspec by apply Z.log2_nonneg.
        assert (Hpos : 0 < n / 10) by (apply Z.div_str_pos; lia).
        assert (Hsmall : n / 10 < 2 ^ Z.log2 n)
          by (apply Z.div_lt_upper_bound; lia).
        apply Z.log2_lt_pow2 in Hsmall; lia. }
      destruct (IH (n / 10) (n mod 10 :: acc)) as (Hv & Hd & Hl);
        [apply Z.div_pos; lia | exact Hlog' |].
      rewrite Hv. cbn [value_from fold_left]. fold (value_from (n / 10 * 10 + n mod 10) acc).
      replace (n / 10 * 10 + n mod 10) with n
        by (pose proof (Z.div_mod n 10); lia).
      repeat split; [| cbn in Hl; lia].
      intros Hacc. apply Hd. constructor; [| exact Hacc].
      pose proof (Z.mod_pos_bound n 10). unfold digit. lia.
Qed.

Lemma digits_of_spec n :
  0 <= n ->
  value (digits_of n) = n /\ Forall digit (digits_of n) /\ digits_of n <> [].
Proof.
  intros Hn. unfold digits_of.
  destruct (digits_fuel_spec (S (Z.to_nat (Z.log2 n))) n [] Hn) as (Hv & Hd & Hl).
  { pose proof (Z.log2_nonneg n). lia. }
  split; [exact Hv |]. split; [by apply Hd |].
  intros E. rewrite E in Hl. cbn in Hl. lia.
Qed.

(** Reading back digits that were written. *)
Lemma span_digits_text ds rest :
  Forall digit ds ->
  span_digits (text ds ++ rest)
  = (ds ++ fst (span_digits rest), snd (span_digits rest)).
Proof.
  induction 1 as [| d ds Hd _ IH]; cbn [text map app span_digits].
  - by destruct (span_digits rest).
  - fold (text ds). rewrite (char_digit_char d Hd), IH. reflexivity.
Qed.

Lemma span_digits_text_end ds : Forall digit ds -> span_digits (text ds) = (ds, []).
Proof.
  intros H. rewrite <- (app_nil_r (text ds)), span_digits_text by done.
  cbn. by rewrite app_nil_r.
Qed.

Lemma span_digits_stop c rest : char_digit c = None -> span_digits (c :: rest) = ([], c :: rest).
Proof. intros H. cbn. by rewrite H. Qed.

(** *** Reading back what [toFixed(6)] and [toString()] wrote *)

Lemma value_zeros k : value (replicate k 0) = 0.
Proof.
  unfold value. induction k as [| k IH]; [reflexivity |]. cbn. exact IH.
Qed.

Lemma digit_zeros k : Forall digit (replicate k 0).
Proof. apply Forall_replicate. unfold digit. lia. Qed.

(** A text of digits, a point, six digits: what [parseFloat] makes of it. *)
Lemma parseFloat_fixed negative a b :
  Forall digit a -> Forall digit b -> a <> [] ->
  parseFloat (Some (string_of_list_ascii (minus negative ++ text a ++ "."%char :: text b)))
  = Finite (let q := scale (inject_Z (value a) + fraction b) 0 in
            if negative then (- q)%Q else q).
Proof.
  intros Ha Hb Hne. unfold parseFloat, argument.
  rewrite list_ascii_of_string_of_list_ascii.
  destruct a as [| d ds]; [done |]. clear Hne.
  pose proof (Forall_inv Ha) as Hd. apply char_digit_char in Hd.
  assert (Hrest : unsigned_literal (text (d :: ds) ++ "."%char :: text b)
                  = Some (scale (inject_Z (value (d :: ds)) + fraction b) 0)).
  { unfold unsigned_literal. rewrite span_digits_text by done.
    rewrite (span_digits_stop "."%char) by reflexivity. cbn [fst snd].
    rewrite app_nil_r. cbn [after_point]. rewrite Ascii.eqb_refl.
    rewrite span_digits_text_end by done. reflexivity. }
  assert (Hinf : JS.prefix "Infinity"
                   (string_of_list_ascii (text (d :: ds) ++ "."%char :: text b)) = false).
  { cbn [text map app string_of_list_ascii JS.prefix].
    destruct (Ascii.eqb_spec "I"%char (digit_char d)) as [E |]; [| reflexivity].
    rewrite <- E in Hd. discriminate Hd. }
  destruct negative; cbn [minus app].
  - cbn [trim_start]. change (white "-") with false. cbv iota.
    cbn [take_sign]. rewrite Ascii.eqb_refl. rewrite Hinf, Hrest. reflexivity.
  - cbn [text map app trim_start]. rewrite (digit_not_white _ _ Hd).
    cbn [take_sign].
    rewrite (digit_is_not _ _ "-"%char Hd), (digit_is_not _ _ "+"%char Hd) by reflexivity.
    fold (text ds). change (digit_char d :: text ds ++ "."%char :: text b)
      with (text (d :: ds) ++ "."%char :: text b).
    rewrite Hinf, Hrest. reflexivity.
Qed.

(** What [toFixed(6)] writes for a number below [10^21] in magnitude:
    a sign, the digits of the whole part, a point and six digits, which
    together denote the magnitude times [10^6], rounded. *)
Lemma toFixed6_text x :
  (Qabs x < inject_Z (10 ^ 21))%Q ->
  exists a b,
    toFixed6 x
    = string_of_list_ascii (minus (negb (Qle_bool 0 x)) ++ text a ++ "."%char :: text b)
    /\ Forall digit a /\ Forall digit b /\ a <> [] /\ length b = 6%nat
    /\ value a * 10 ^ 6 + value b = Qfloor (Qabs x * inject_Z (10 ^ 6) + (1 # 2)).
Proof.
  intros Hx. unfold toFixed6.
  assert (Hbig : Qle_bool (inject_Z (10 ^ 21)) (Qabs x) = false).
  { apply not_true_is_false. intros H%Qle_bool_iff. exact (Qlt_not_le _ _ Hx H). }
  rewrite Hbig.
  set (n := Qfloor (Qabs x * inject_Z (10 ^ 6) + (1 # 2))).
  assert (Hn : 0 <= n).
  { subst n. change 0 with (Qfloor 0). apply Qfloor_resp_le.
    pose proof (Qabs_nonneg x) as Hpos.
    apply Qle_trans with (Qabs x * inject_Z (10 ^ 6) + 0)%Q.
    - rewrite Qplus_0_r. apply Qmult_le_0_compat; [exact Hpos | done].
    - apply Qplus_le_r. done. }
  destruct (digits_of_spec n Hn) as (Hv & Hd & Hne).
  set (m := if (length (digits_of n) <=? 6)%nat
            then replicate (7 - length (digits_of n)) 0 ++ digits_of n
            else digits_of n).
  assert (Hm : value m = n /\ Forall digit m /\ (7 <= length m)%nat).
  { subst m. destruct (length (digits_of n) <=? 6)%nat eqn:Hlen.
    - apply Nat.leb_le in Hlen. rewrite value_app, value_zeros, Hv.
      split; [lia |]. split; [apply Forall_app; split; [apply digit_zeros | exact Hd] |].
      rewrite length_app, length_replicate. lia.
    - apply Nat.leb_gt in Hlen. split; [exact Hv |]. split; [exact Hd | lia]. }
  destruct Hm as (Hmv & Hmd & Hml).
  exists (take (length m - 6) m), (drop (length m - 6) m).
  split; [| split; [| split; [| split; [| split]]]].
  - destruct (Qle_bool 0 x); reflexivity.
  - by apply Forall_take.
  - by apply Forall_drop.
  - intros E. apply (f_equal length) in E. rewrite length_take in E. cbn in E. lia.
  - rewrite length_drop. lia.
  - rewrite <- Hmv.
    transitivity (value (take (length m - 6) m ++ drop (length m - 6) m));
      [| by rewrite take_drop].
    rewrite value_app, length_drop. repeat f_equal. lia.
Qed.

Lemma fixed_value a b :
  (scale (inject_Z a + inject_Z b / inject_Z (10 ^ 6)) 0
   == inject_Z (a * 10 ^ 6 + b) / inject_Z (10 ^ 6))%Q.
Proof.
  unfold scale. rewrite inject_Z_plus, inject_Z_mult.
  change ((inject_Z 10) ^ 0)%Q with 1%Q. field. discriminate.
Qed.

(** [parseFloat] reads from the text of [toFixed(6)] the number rounded to
    six decimal places. *)
Lemma parseFloat_toFixed6 x :
  (Qabs x < inject_Z (10 ^ 21))%Q ->
  exists q, parseFloat (Some (toFixed6 x)) = Finite q /\ (q == round6 x)%Q.
Proof.
  intros Hx. destruct (toFixed6_text x Hx) as (a & b & -> & Ha & Hb & Hne & Hlen & Hval).
  rewrite parseFloat_fixed by done. eexists. split; [reflexivity |].
  unfold round6. rewrite <- Hval. unfold fraction. rewrite Hlen.
  change (Z.of_nat 6) with 6. cbv zeta.
  destruct (Qle_bool 0 x); cbn [negb].
  - apply fixed_value.
  - apply Qopp_comp, fixed_value.
Qed.

(** [parseInt] reads from the text of [toString()] the integer itself, as
    long as the text has no exponent. *)
Lemma parseInt_toString z :
  Z.abs z < 10 ^ 21 -> parseInt (Some (Number_toString z)) = Finite (inject_Z z).
Proof.
  intros Hz. unfold parseInt, argument, Number_toString.
  rewrite list_ascii_of_string_of_list_ascii. unfold unsigned_toString.
  assert (Hlt : (Z.abs z <? 10 ^ 21) = true) by by apply Z.ltb_lt.
  rewrite Hlt.
  destruct (digits_of_spec (Z.abs z) (Z.abs_nonneg z)) as (Hv & Hd & Hne).
  destruct (digits_of (Z.abs z)) as [| d ds] eqn:E; [done |]. clear Hne.
  pose proof (Forall_inv Hd) as H0. apply char_digit_char in H0.
  assert (Hint : math_int (text (d :: ds)) = Some (Z.abs z)).
  { unfold math_int. rewrite span_digits_text_end by done. cbn [fst].
    rewrite Hv. destruct ds as [| d' ds']; [reflexivity |].
    cbn [text map]. pose proof (Forall_inv (Forall_inv_tail Hd)) as H1.
    apply char_digit_char in H1.
    rewrite (digit_is_not _ _ "x"%char H1), (digit_is_not _ _ "X"%char H1) by reflexivity.
    by rewrite andb_false_r. }
  destruct (z <? 0) eqn:Hneg; cbn [app].
  - cbn [trim_start]. change (white "-") with false. cbv iota.
    cbn [take_sign]. rewrite Ascii.eqb_refl, Hint. apply Z.ltb_lt in Hneg.
    do 2 f_equal. lia.
  - cbn [text map trim_start]. rewrite (digit_not_white _ _ H0).
    cbn [take_sign].
    rewrite (digit_is_not _ _ "-"%char H0), (digit_is_not _ _ "+"%char H0) by reflexivity.
    fold (text ds). change (digit_char d :: text ds) with (text (d :: ds)).
    rewrite Hint. apply Z.ltb_ge in Hneg. do 2 f_equal. lia.
Qed.

(** The three parameters as [updateURL] leaves them. *)
Lemma updateURL_params lat lng zoom location :
  get_param "lat" (updateURL lat lng zoom location) = Some (toFixed6 lat)
  /\ get_param "lng" (updateURL lat lng zoom location) = Some (toFixed6 lng)
  /\ get_param "zoom" (updateURL lat lng zoom location) = Some (Number_toString zoom).
Proof.
  unfold updateURL. split; [| split].
  - rewrite !get_set_other_param by done. apply get_set_param.
  - rewrite get_set_other_param by done. apply get_set_param.
  - apply get_set_param.
Qed.

Lemma half_a_millionth a m :
  (m <= a * inject_Z (10 ^ 6) + (1 # 2))%Q ->
  (a * inject_Z (10 ^ 6) + (1 # 2) < m + inject_Z 1)%Q ->
  (Qabs (m / inject_Z (10 ^ 6) - a) <= 1 # 2000000)%Q.
Proof.
  change (inject_Z (10 ^ 6)) with (1000000 # 1)%Q. change (inject_Z 1) with 1%Q.
  intros Hlo Hhi. apply Qabs_Qle_condition.
  setoid_replace (m / (1000000 # 1) - a)%Q
    with ((m - a * (1000000 # 1)) * (1 # 1000000))%Q using relation Qeq by field.
  split; lra.
Qed.

(** [round6] is rounding to six decimal places: a whole number of
    millionths, no further from [x] than half a millionth. *)
Lemma round6_nearest x :
  (exists n, round6 x == inject_Z n / inject_Z (10 ^ 6))%Q
  /\ (Qabs (round6 x - x) <= 1 # 2000000)%Q.
Proof.
  unfold round6.
  set (n := Qfloor (Qabs x * inject_Z (10 ^ 6) + (1 # 2))).
  assert (Hlo : (inject_Z n <= Qabs x * inject_Z (10 ^ 6) + (1 # 2))%Q)
    by apply Qfloor_le.
  assert (Hhi : (Qabs x * inject_Z (10 ^ 6) + (1 # 2) < inject_Z (n + 1))%Q)
    by apply Qlt_floor.
  rewrite inject_Z_plus in Hhi.
  pose proof (half_a_millionth _ _ Hlo Hhi) as Hnear.
  destruct (Qle_bool 0 x) eqn:Hsign.
  - split; [by exists n |]. apply Qle_bool_iff in Hsign.
    rewrite (Qabs_pos x Hsign) in Hnear. exact Hnear.
  - split.
    + exists (- n). rewrite inject_Z_opp. field. discriminate.
    + assert (Hneg : (x <= 0)%Q).
      { apply Qlt_le_weak, Qnot_le_lt. intros H%Qle_bool_iff. congruence. }
      setoid_replace (- (inject_Z n / inject_Z (10 ^ 6)) - x)%Q
        with (- (inject_Z n / inject_Z (10 ^ 6) - Qabs x))%Q using relation Qeq.
      * rewrite Qabs_opp. exact Hnear.
      * rewrite (Qabs_neg x Hneg). field. discriminate.
Qed.




End UrlFacts.

(** ** The reading operations of the photo service *)

Section PhotoReadsFacts.

Import PhotoReads.

Lemma read_only_refl w : read_only w w.
Proof. by repeat split. Qed.

Lemma read_only_trans w1 w2 w3 : read_only w1 w2 -> read_only w2 w3 -> read_only w1 w3.
Proof.
  intros (? & ? & ? & ?) (? & ? & ? & ?). repeat split; congruence.
Qed.

Lemma ask_run {D} (carry_out : Async (Supabase.response D)) w :
  ask carry_out w
  = match responses w with
    | [] => carry_out w
    | Some e :: rest => (Ret (Supabase.Response None (Some e)), set_responses rest w)
    | None :: rest => carry_out (set_responses rest w)
    end.
Proof. unfold ask, answer. run. by destruct (responses w) as [| [e |] rest]. Qed.

(** A page: the answer is an error, or the rows at the positions asked
    for. *)
Lemma photos_select_page_run columns first last w :
  exists r w',
    photos_select_page columns first last w = (Ret r, w')
    /\ read_only w w' /\ sleeps w' = sleeps w
    /\ responses w' = tail (responses w)
    /\ match Supabase.error r with
       | Some e => head (responses w) = Some (Some e) /\ Supabase.data r = None
       | None =>
           Supabase.data r
           = Some ((fun r => (fst r, columns (snd r)))
                     <$> RegenerateThumbnails.range first last (latest_first (photos w)))
       end.
Proof.
  unfold photos_select_page. rewrite ask_run.
  destruct (responses w) as [| [e |] rest] eqn:Hr; run;
    eexists _, _; (split; [reflexivity |]); cbn; rewrite ?Hr;
    repeat split; done.
Qed.

(** A single row: the answer is an error (the one scripted, or that of a
    missing row), or the row. *)
Lemma photos_select_single_run id w :
  exists r w',
    photos_select_single id w = (Ret r, w')
    /\ read_only w w' /\ responses w' = tail (responses w)
    /\ match Supabase.error r with
       | Some e =>
           Supabase.data r = None
           /\ (head (responses w) = Some (Some e) \/ photos w !! id = None)
       | None => exists c, photos w !! id = Some c /\ Supabase.data r = Some c
       end.
Proof.
  unfold photos_select_single. rewrite ask_run.
  destruct (responses w) as [| [e |] rest] eqn:Hr; run;
    try (destruct (photos w !! id) as [c |] eqn:Hp; run);
    eexists _, _; (split; [reflexivity |]); cbn; rewrite ?Hr;
    repeat split; eauto.
Qed.

Lemma downloadOriginalImage_run storagePath w :
  exists out w',
    downloadOriginalImage storagePath w = (out, w')
    /\ read_only w w' /\ responses w' = tail (responses w)
    /\ match out with
       | Ret u => bucket w !! storagePath = Some u
       | Throw _ => True
       | _ => False
       end.
Proof.
  unfold downloadOriginalImage, storage_download, readAsDataURL, try_catch.
  unfold mbind, Async_bind. rewrite ask_run.
  destruct (responses w) as [| [e |] rest] eqn:Hr; run;
    try (destruct (bucket w !! storagePath) as [u |] eqn:Hb; run);
    eexists _, _; (split; [reflexivity |]); cbn; rewrite ?Hr;
    repeat split; eauto.
Qed.

Ltac read_step lemma :=
  match goal with
  | |- context [photos_select_page ?c ?a ?b ?w] =>
      let r := fresh "r" in let w' := fresh "w'" in
      destruct (lemma c a b w) as ([[d |] [e |]] & w' & -> & ? & ? & ? & ?)
  | |- context [photos_select_single ?i ?w] =>
      let r := fresh "r" in let w' := fresh "w'" in
      destruct (lemma i w) as ([[d |] [e |]] & w' & -> & ? & ? & ?)
  end.

Lemma loadPhotosFromDatabase_run limit offset w :
  exists r w',
    loadPhotosFromDatabase limit offset w = (Ret r, w')
    /\ read_only w w' /\ sleeps w' = sleeps w
    /\ responses w' = tail (responses w)
    /\ (if success r then
          data r = Some (full_photo
                           <$> RegenerateThumbnails.range offset (offset + limit - 1)
                                 (latest_first (photos w)))
        else data r = None
             /\ exists e, error r = Some e /\ head (responses w) = Some (Some e)).
Proof.
  unfold loadPhotosFromDatabase, try_catch, map_rows. unfold mbind, Async_bind.
  read_step photos_select_page_run; cbn in *; run;
    try (eexists _, _; split; [reflexivity |]; cbn; by intuition eauto);
    try discriminate.
  eexists _, _; split; [reflexivity |]. cbn. repeat (split; [done |]).
  match goal with H : Some _ = Some _ |- _ => injection H as -> end.
  f_equal. rewrite <- list_fmap_compose. apply list_fmap_ext. by intros i [k c] _.
Qed.

(** The pages of [loadAllPhotosFromDatabase] are consecutive stretches of
    one listing, the table being the same at every page. *)
Lemma load_pages_run fuel :
  forall allPhotos offset w,
    0 <= offset ->
    allPhotos = full_photo <$> take (Z.to_nat offset) (latest_first (photos w)) ->
    Z.max 0 (Z.of_nat (length (latest_first (photos w))) - offset) < 50 * Z.of_nat fuel ->
    exists r w',
      load_pages fuel allPhotos offset w = (Ret r, w')
      /\ read_only w w'
      /\ (if success r then
            data r = Some (full_photo <$> latest_first (photos w))
            /\ sleeps w'
               = sleeps w
                 ++ replicate
                      (Z.to_nat ((Z.of_nat (length (latest_first (photos w))) - offset) / 50))
                      100
          else data r = None /\ exists e, error r = Some e /\ Some e ∈ responses w)
      /\ (responses w = [] -> success r = true).
Proof.
  induction fuel as [| fuel IH]; intros allPhotos offset w Hoff Hall Hfuel; [lia |].
  cbn [load_pages]. unfold mbind, Async_bind.
  destruct (loadPhotosFromDatabase_run 50 offset w)
    as (page & w1 & -> & Hread & Hsleep & Hresp & Hpage).
  set (L := latest_first (photos w)) in *.
  destruct (success page) eqn:Hsucc; cbn [negb].
  2:{ run. exists page, w1. rewrite Hsucc. split; [done |]. split; [done |].
      destruct Hpage as (Hnone & e & He & Hhead). split.
      - split; [done |]. exists e. split; [done |]. destruct (responses w); [done |].
        cbn in Hhead. injection Hhead as ->. by left.
      - intros Hnil. rewrite Hnil in Hhead. done. }
  rewrite Hpage. unfold RegenerateThumbnails.range.
  replace (offset + 50 - 1 - offset + 1) with 50 by lia.
  change (Z.to_nat 50) with 50%nat.
  set (page' := take 50 (drop (Z.to_nat offset) L)).
  rewrite length_fmap.
  assert (HL : photos w1 = photos w) by apply Hread.
  destruct (Z.of_nat (length page') =? 50) eqn:Hfull.
  - apply Z.eqb_eq in Hfull.
    assert (Hlen : offset + 50 <= Z.of_nat (length L)).
    { subst page'. rewrite length_take, length_drop in Hfull. lia. }
    unfold sleep. run.
    set (w2 := set_sleeps (sleeps w1 ++ [100]) w1).
    assert (Hw2 : latest_first (photos w2) = L) by (subst w2 L; cbn; by rewrite HL).
    destruct (IH (allPhotos ++ (full_photo <$> page')) (offset + 50) w2) as
      (r & w' & -> & Hread' & Hres & Hhealthy).
    + lia.
    + rewrite Hw2, Hall, <- fmap_app. f_equal.
      subst page'. rewrite take_take_drop. f_equal. lia.
    + rewrite Hw2. lia.
    + exists r, w'. split; [done |]. rewrite Hw2 in Hres.
      split; [| split].
      * exact (read_only_trans _ _ _ Hread Hread').
      * destruct (success r).
        -- destruct Hres as [-> ->]. split; [done |]. subst w2.
           cbn [sleeps set_sleeps]. rewrite Hsleep, <- app_assoc.
           f_equal. change [100] with (replicate 1 100).
           rewrite <- replicate_add. f_equal.
           generalize dependent (Z.of_nat (length L)). intros n **.
           assert (Hdiv : (n - offset) / 50 = (n - (offset + 50)) / 50 + 1).
           { replace (n - offset) with ((n - (offset + 50)) + 1 * 50) by lia.
             by rewrite Z.div_add. }
           rewrite Hdiv.
           assert (0 <= (n - (offset + 50)) / 50) by (apply Z.div_pos; lia). lia.
        -- destruct Hres as (Hnone & e & He & Hin). split; [done |].
           exists e. split; [done |].
           change (responses w2) with (responses w1) in Hin.
           rewrite Hresp in Hin. destruct (responses w); [done | by right].
      * intros Hnil. apply Hhealthy. change (responses w2) with (responses w1).
        rewrite Hresp, Hnil. done.
  - apply Z.eqb_neq in Hfull. unfold console_log. run.
    eexists _, _. split; [reflexivity |]. cbn [success data sleeps set_console].
    assert (Hshort : (length (drop (Z.to_nat offset) L) < 50)%nat).
    { subst page'. rewrite length_take in Hfull. lia. }
    split; [apply Hread |]. split; [| done]. split.
    + f_equal. rewrite Hall, <- fmap_app. f_equal. subst page'.
      rewrite (take_ge (drop _ L)) by lia. apply take_drop.
    + rewrite length_drop in Hshort.
      assert (Hnone : (Z.of_nat (length L) - offset) / 50 <= 0).
      { destruct (Z_lt_le_dec (Z.of_nat (length L) - offset) 0).
        - apply Z.lt_le_incl, Z.div_lt_upper_bound; lia.
        - rewrite Z.div_small; lia. }
      replace (Z.to_nat ((Z.of_nat (length L) - offset) / 50)) with 0%nat by lia.
      cbn. by rewrite app_nil_r.
Qed.

#[local] Instance created_ge_total : Total created_ge.
Proof.
  intros a b. unfold created_ge, RegenerateThumbnails.created_leb.
  destruct (Table.created_at (snd a)) as [s |], (Table.created_at (snd b)) as [t |];
    auto using String.leb_total.
Qed.

Lemma length_latest_first p : length (latest_first p) = size p.
Proof.
  unfold latest_first. rewrite (Permutation_length (merge_sort_Permutation _ _)).
  apply length_map_to_list.
Qed.

(** X1. [loadAllPhotosFromDatabase] pages through the whole table: when it
    reports success its data are the rows of the table, each once and the
    latest first, and it waited 100 ms after every full page of 50; when it
    reports failure the error is one the backend answered with, and the
    photos of the pages before are not returned.  It reads only, throws
    nothing, and succeeds on a backend that fails no request. *)
Theorem loadAllPhotosFromDatabase_returns_every_photo fuel w :
  Z.of_nat (size (photos w)) < 50 * Z.of_nat fuel ->
  exists r w',
    loadAllPhotosFromDatabase fuel w = (Ret r, w')
    /\ read_only w w'
    /\ (if success r then
          exists rows,
            data r = Some (full_photo <$> rows)
            /\ rows ≡ₚ map_to_list (photos w)
            /\ Sorted created_ge rows
            /\ sleeps w' = sleeps w ++ replicate (size (photos w) / 50) 100
        else
          data r = None /\ exists e, error r = Some e /\ Some e ∈ responses w)
    /\ (responses w = [] -> success r = true).
Proof.
  intros Hfuel. unfold loadAllPhotosFromDatabase, try_catch.
  destruct (load_pages_run fuel [] 0 w) as (r & w' & -> & Hread & Hres & Hhealthy).
  - done.
  - done.
  - rewrite length_latest_first. lia.
  - exists r, w'. split; [done |]. split; [done |]. split; [| done].
    destruct r as [[|] d e]; cbn in *.
    + destruct Hres as [-> ->]. exists (latest_first (photos w)).
      split; [done |]. split; [apply merge_sort_Permutation |].
      split; [apply Sorted_merge_sort, _ |].
      rewrite length_latest_first, Z.sub_0_r. do 2 f_equal.
      rewrite Z2Nat.inj_div by lia. by rewrite Nat2Z.id.
    + exact Hres.
Qed.

Lemma loadAllPhotosFromDatabase_returns_every_photo_witness :
  Z.of_nat (size (photos Sample.world1)) < 50 * Z.of_nat 1
  /\ exists r w',
       loadAllPhotosFromDatabase 1 Sample.world1 = (Ret r, w')
       /\ read_only Sample.world1 w'
       /\ (if success r then
             exists rows,
               data r = Some (full_photo <$> rows)
               /\ rows ≡ₚ map_to_list (photos Sample.world1)
               /\ Sorted created_ge rows
               /\ sleeps w'
                  = sleeps Sample.world1
                    ++ replicate (size (photos Sample.world1) / 50) 100
           else
             data r = None
             /\ exists e, error r = Some e /\ Some e ∈ responses Sample.world1)
       /\ (responses Sample.world1 = [] -> success r = true).
Proof.
  assert (H : Z.of_nat (size (photos Sample.world1)) < 50 * Z.of_nat 1)
    by (vm_compute; reflexivity).
  split; [exact H |].
  exact (loadAllPhotosFromDatabase_returns_every_photo 1 Sample.world1 H).
Defined.

(** *** The other loaders *)

Lemma loadPhotosMetadataOnly_run limit offset w :
  exists r w',
    loadPhotosMetadataOnly limit offset w = (Ret r, w')
    /\ read_only w w'
    /\ (if success r then
          data r = Some ((fun r => (fst r, metadata (snd r)))
                           <$> RegenerateThumbnails.range offset (offset + limit - 1)
                                 (latest_first (photos w)))
        else data r = None).
Proof.
  unfold loadPhotosMetadataOnly, try_catch. unfold mbind, Async_bind.
  read_step photos_select_page_run; cbn in *; run;
    try (eexists _, _; split; [reflexivity |]; cbn; by intuition eauto);
    try discriminate.
Qed.

Lemma loadPhotosWithThumbnails_run limit offset w :
  exists r w',
    loadPhotosWithThumbnails limit offset w = (Ret r, w')
    /\ read_only w w'
    /\ responses w' = tail (responses w)
    /\ (if success r then
          data r
          = Some ((fun r =>
                     Photo (fst r) (with_thumbnail (snd r)) (Table.thumbnail_data (snd r))
                       (Some (bool_decide (is_Some (Table.thumbnail_data (snd r))))))
                    <$> RegenerateThumbnails.range offset (offset + limit - 1)
                          (latest_first (photos w)))
        else data r = None
             /\ exists e, error r = Some e /\ head (responses w) = Some (Some e)).
Proof.
  unfold loadPhotosWithThumbnails, try_catch, map_rows. unfold mbind, Async_bind.
  read_step photos_select_page_run; cbn in *; run;
    try (eexists _, _; split; [reflexivity |]; cbn; by intuition eauto);
    try discriminate.
  eexists _, _; split; [reflexivity |]. cbn. repeat (split; [done |]).
  match goal with H : Some _ = Some _ |- _ => injection H as -> end.
  f_equal. rewrite <- list_fmap_compose. apply list_fmap_ext. by intros i [k c] _.
Qed.

Lemma loadPhotoThumbnail_run photoId w :
  exists r w',
    loadPhotoThumbnail photoId w = (Ret r, w')
    /\ read_only w w' /\ responses w' = tail (responses w)
    /\ column_read Table.thumbnail_data photoId w r.
Proof.
  unfold loadPhotoThumbnail, try_catch, column, column_read. unfold mbind, Async_bind.
  read_step photos_select_single_run; cbn in *; run;
    eexists _, _; (split; [reflexivity |]); cbn; (split; [done |]); (split; [done |]);
    try (by intuition eauto).
  all: match goal with H : exists _, _ |- _ => destruct H as (c & ? & [=]) end; subst; eauto.
Qed.

Lemma getFullImageData_run photoId w :
  exists r w',
    getFullImageData photoId w = (Ret r, w')
    /\ read_only w w' /\ responses w' = tail (responses w)
    /\ column_read Table.image_data photoId w r.
Proof.
  unfold getFullImageData, try_catch, column, column_read. unfold mbind, Async_bind.
  read_step photos_select_single_run; cbn in *; run;
    eexists _, _; (split; [reflexivity |]); cbn; (split; [done |]); (split; [done |]);
    try (by intuition eauto).
  all: match goal with H : exists _, _ |- _ => destruct H as (c & ? & [=]) end; subst; eauto.
Qed.

Lemma getOriginalImageData_run photoId w :
  exists r w',
    getOriginalImageData photoId w = (Ret r, w')
    /\ read_only w w'
    /\ (success r = true ->
        exists c path u,
          photos w !! photoId = Some c
          /\ Table.storage_path c = Some path
          /\ bucket w !! path = Some u
          /\ data r = Some u)
    /\ (forall c,
          photos w !! photoId = Some c -> JS.truthy (Table.storage_path c) = false ->
          (forall e, head (responses w) <> Some (Some e)) ->
          r = failure (JS.Error "No original image found in storage")
          /\ responses w' = tail (responses w))
    /\ (forall c path u,
          photos w !! photoId = Some c -> Table.storage_path c = Some path ->
          path <> EmptyString -> bucket w !! path = Some u -> responses w = [] ->
          r = Reply true (Some u) None).
Proof.
  unfold getOriginalImageData, try_catch, column. unfold mbind, Async_bind.
  destruct (photos_select_single_run photoId w) as ([[d |] [e |]] & w1 & -> & R1 & T1 & H1);
    cbn in H1; run.
  - exists (failure e), (set_console (console w1 ++ [("Error loading photo storage path:"%string, Some e)]) w1).
    split; [reflexivity |]. split; [apply R1 |]. split; [done |].
    destruct H1 as [_ [H1 | H1]].
    + split.
      * intros c Hc Hf Hhead. by destruct (Hhead e).
      * intros c path u Hc _ _ _ Hnil. rewrite Hnil in H1. done.
    + split; intros c; intros; congruence.
  - destruct H1 as (c & Hc & [= ->]).
    destruct (Table.storage_path c) as [[| a path] |] eqn:Hpath; run.
    1, 3: eexists _, _; (split; [reflexivity |]); cbn; (split; [apply R1 |]);
      (split; [done |]); split;
      [ intros c' Hc' _ _; by rewrite T1
      | intros c' path' u Hc' Hp'; rewrite Hc in Hc'; injection Hc' as <-; congruence ].
    destruct (downloadOriginalImage_run (String a path) w1)
      as (out & w2 & E2 & R2 & T2 & H2).
    unfold mbind, Async_bind. rewrite E2.
    pose proof (read_only_trans _ _ _ R1 R2) as R12.
    assert (Hb : bucket w1 = bucket w) by apply R1.
    destruct out as [u | e | |]; try done; run.
    + eexists _, _. split; [reflexivity |]. cbn. split; [done |]. split.
      * intros _. exists c, (String a path), u. rewrite <- Hb. done.
      * split.
        -- intros c' Hc'. rewrite Hc in Hc'. injection Hc' as <-. rewrite Hpath. done.
        -- intros c' path' u' Hc' Hp' _ Hu' _. rewrite Hc in Hc'. injection Hc' as <-.
           rewrite Hpath in Hp'. injection Hp' as <-. rewrite <- Hb, H2 in Hu'.
           by injection Hu' as ->.
    + eexists _, _. split; [reflexivity |]. cbn. split; [apply R12 |].
      split; [done |]. split.
      * intros c' Hc'. rewrite Hc in Hc'. injection Hc' as <-. rewrite Hpath. done.
      * intros c' path' u' Hc' Hp' _ Hu' Hnil. exfalso.
        rewrite Hc in Hc'. injection Hc' as <-.
        rewrite Hpath in Hp'. injection Hp' as <-.
        revert E2. unfold downloadOriginalImage, storage_download, readAsDataURL, try_catch.
        unfold mbind, Async_bind. rewrite ask_run, T1, Hnil. cbn. rewrite Hb, Hu'. run.
        discriminate.
  - exists (failure e), (set_console (console w1 ++ [("Error loading photo storage path:"%string, Some e)]) w1).
    split; [reflexivity |]. split; [apply R1 |]. split; [done |].
    destruct H1 as [_ [H1 | H1]].
    + split.
      * intros c Hc Hf Hhead. by destruct (Hhead e).
      * intros c path u Hc _ _ _ Hnil. rewrite Hnil in H1. done.
    + split; intros c; intros; congruence.
  - destruct H1 as (c & _ & [=]).
Qed.

(** A stretch of a sorted list is sorted. *)
Lemma Sorted_take {A} (R : relation A) n l : Sorted R l -> Sorted R (take n l).
Proof.
  revert n. induction l as [| a l IH]; intros [| n] Hl; cbn; try constructor.
  - apply IH. by apply Sorted_inv in Hl as [? _].
  - apply Sorted_inv in Hl as [_ Hhd]. destruct Hhd, n; cbn; by constructor.
Qed.

Lemma Sorted_drop {A} (R : relation A) n l : Sorted R l -> Sorted R (drop n l).
Proof.
  revert l. induction n as [| n IH]; intros [| a l] Hl; cbn; try done.
  apply IH. by apply Sorted_inv in Hl as [? _].
Qed.

Lemma range_facts p first last :
  0 <= first ->
  let rows := RegenerateThumbnails.range first last (latest_first p) in
  Z.of_nat (length rows) <= Z.max 0 (last - first + 1)
  /\ Sorted created_ge rows
  /\ NoDup (rows.*1)
  /\ Forall (fun r => p !! fst r = Some (snd r)) rows.
Proof.
  intros Hfirst rows. subst rows. unfold RegenerateThumbnails.range.
  set (L := latest_first p).
  assert (Hsub : sublist (take (Z.to_nat (last - first + 1)) (drop (Z.to_nat first) L))
                   L).
  { etransitivity; [apply sublist_take | apply sublist_drop]. }
  assert (Hperm : L ≡ₚ map_to_list p) by apply merge_sort_Permutation.
  split; [rewrite length_take; lia |].
  split; [apply Sorted_take, Sorted_drop, Sorted_merge_sort, _ |].
  split.
  - eapply sublist_NoDup; [| apply fmap_sublist, Hsub].
    rewrite Hperm. apply NoDup_fst_map_to_list.
  - apply Forall_forall. intros [i c] Hin. cbn.
    apply elem_of_map_to_list. rewrite <- Hperm.
    eapply elem_of_sublist; [exact Hin | exact Hsub].
Qed.

(** X2. A page of [loadPhotosWithThumbnails] holds at most [limit] photos,
    the latest first, no photo twice; each is a row of the table shown
    through its thumbnail: [imageData] is the [thumbnail_data] of the row,
    [hasFullImage] tells whether there is one, and the compressed image and
    the storage path are not loaded.  A failed page has no data. *)
Theorem loadPhotosWithThumbnails_page limit offset w r w' :
  0 <= offset -> 0 <= limit ->
  loadPhotosWithThumbnails limit offset w = (Ret r, w') ->
  if success r then
    exists rows,
      data r
      = Some ((fun r =>
                 Photo (fst r) (with_thumbnail (snd r)) (Table.thumbnail_data (snd r))
                   (Some (bool_decide (is_Some (Table.thumbnail_data (snd r))))))
                <$> rows)
      /\ Z.of_nat (length rows) <= limit
      /\ Sorted created_ge rows
      /\ NoDup (rows.*1)
      /\ Forall (fun r => photos w !! fst r = Some (snd r)) rows
      /\ Forall (fun r => Table.image_data (with_thumbnail (snd r)) = None
                          /\ Table.storage_path (with_thumbnail (snd r)) = None) rows
  else data r = None.
Proof.
  intros Hoffset Hlimit Hrun.
  destruct (loadPhotosWithThumbnails_run limit offset w) as (r0 & w0 & E & _ & _ & H).
  rewrite E in Hrun. injection Hrun as <- <-.
  destruct (success r0); [| apply H].
  destruct (range_facts (photos w) offset (offset + limit - 1) Hoffset)
    as (Hlen & Hsorted & Hnodup & Hrows).
  cbv zeta in Hlen, Hsorted, Hnodup, Hrows.
  eexists. split; [exact H |].
  split; [etransitivity; [exact Hlen | lia] |]. repeat (split; [done |]).
  apply Forall_forall. by intros [i c] _.
Qed.

Lemma loadPhotosWithThumbnails_page_witness :
  (0 <= 0 /\ 0 <= 100)
  /\ exists r w',
       loadPhotosWithThumbnails 100 0 Sample.world1 = (Ret r, w')
       /\ if success r then
            exists rows,
              data r
              = Some ((fun r =>
                         Photo (fst r) (with_thumbnail (snd r))
                           (Table.thumbnail_data (snd r))
                           (Some (bool_decide (is_Some (Table.thumbnail_data (snd r))))))
                        <$> rows)
              /\ Z.of_nat (length rows) <= 100
              /\ Sorted created_ge rows
              /\ NoDup (rows.*1)
              /\ Forall (fun r => photos Sample.world1 !! fst r = Some (snd r)) rows
              /\ Forall (fun r => Table.image_data (with_thumbnail (snd r)) = None
                                  /\ Table.storage_path (with_thumbnail (snd r)) = None)
                   rows
          else data r = None.
Proof.
  split; [lia |].
  destruct (loadPhotosWithThumbnails_run 100 0 Sample.world1) as (r & w' & E & _).
  exists r, w'. split; [exact E |].
  exact (loadPhotosWithThumbnails_page 100 0 Sample.world1 r w'
           ltac:(lia) ltac:(lia) E).
Defined.

(** X3. No read of the photo service throws or changes the backend:
    each settles with a result object, and table, bucket, sequence and
    the log of requests are as before. *)
Theorem reads_settle_and_change_nothing limit offset photoId w :
  (exists r w', loadPhotosFromDatabase limit offset w = (Ret r, w') /\ read_only w w')
  /\ (exists r w', loadPhotosMetadataOnly limit offset w = (Ret r, w') /\ read_only w w')
  /\ (exists r w', loadPhotosWithThumbnails limit offset w = (Ret r, w') /\ read_only w w')
  /\ (exists r w', loadPhotoThumbnail photoId w = (Ret r, w') /\ read_only w w')
  /\ (exists r w', getFullImageData photoId w = (Ret r, w') /\ read_only w w')
  /\ (exists r w', getOriginalImageData photoId w = (Ret r, w') /\ read_only w w').
Proof.
  split; [| split; [| split; [| split; [| split]]]].
  - destruct (loadPhotosFromDatabase_run limit offset w) as (r & w' & ? & ? & _); eauto.
  - destruct (loadPhotosMetadataOnly_run limit offset w) as (r & w' & ? & ? & _); eauto.
  - destruct (loadPhotosWithThumbnails_run limit offset w) as (r & w' & ? & ? & _); eauto.
  - destruct (loadPhotoThumbnail_run photoId w) as (r & w' & ? & ? & _); eauto.
  - destruct (getFullImageData_run photoId w) as (r & w' & ? & ? & _); eauto.
  - destruct (getOriginalImageData_run photoId w) as (r & w' & ? & ? & _); eauto.
Qed.

(** X4. For a photo whose row has no storage path (a row from before the
    bucket), [getOriginalImageData] reports failure with the message "No
    original image found in storage" and asks the storage for nothing: the
    select is its only call.  When it reports success, its data is the
    object the bucket holds at the storage path of the row. *)
Theorem getOriginalImageData_needs_a_storage_path photoId w c :
  photos w !! photoId = Some c ->
  (forall e, head (responses w) <> Some (Some e)) ->
  exists r w',
    getOriginalImageData photoId w = (Ret r, w')
    /\ (JS.truthy (Table.storage_path c) = false ->
        r = failure (JS.Error "No original image found in storage")
        /\ responses w' = tail (responses w))
    /\ (success r = true ->
        exists path, Table.storage_path c = Some path /\ data r = bucket w !! path).
Proof.
  intros Hc Hhead.
  destruct (getOriginalImageData_run photoId w) as (r & w' & E & _ & Hs & Hnone & _).
  exists r, w'. split; [done |]. split.
  - intros Hf. by apply (Hnone c).
  - intros Hsucc. destruct (Hs Hsucc) as (c' & path & u & Hc' & Hp & Hu & Hd).
    rewrite Hc in Hc'. injection Hc' as <-. exists path. by rewrite Hu.
Qed.

Lemma getOriginalImageData_needs_a_storage_path_witness :
  (photos Sample.world1 !! 4 = Some Sample.legacy_row
   /\ forall e, head (responses Sample.world1) <> Some (Some e))
  /\ exists r w',
       getOriginalImageData 4 Sample.world1 = (Ret r, w')
       /\ (JS.truthy (Table.storage_path Sample.legacy_row) = false ->
           r = failure (JS.Error "No original image found in storage")
           /\ responses w' = tail (responses Sample.world1))
       /\ (success r = true ->
           exists path,
             Table.storage_path Sample.legacy_row = Some path
             /\ data r = bucket Sample.world1 !! path).
Proof.
  assert (H1 : photos Sample.world1 !! 4 = Some Sample.legacy_row)
    by (vm_compute; reflexivity).
  assert (H2 : forall e, head (responses Sample.world1) <> Some (Some e)) by done.
  split; [by split |].
  exact (getOriginalImageData_needs_a_storage_path 4 Sample.world1 Sample.legacy_row H1 H2).
Defined.

End PhotoReadsFacts.

(** ** Reading back what was saved *)

Section SavedPhotoFacts.

Import Utils PhotoService Spec PhotoReads.

Lemma append_slash_truthy (u rest : string) : JS.truthy (Some (u +:+ "/" +:+ rest)) = true.
Proof. by destruct u. Qed.

Lemma uploadOriginalImage_path base64Image filename userId w path w' :
  uploadOriginalImage base64Image filename userId w = (Ret path, w') ->
  JS.truthy (Some path) = true.
Proof.
  unfold uploadOriginalImage, base64ToBlob, try_catch.
  destruct (Image.base64 base64Image); run; [| discriminate].
  unfold Supabase.storage_upload, Supabase.exchange, answer. run.
  set (path0 := (userId +:+ _)).
  assert (Ht : JS.truthy (Some path0) = true) by apply append_slash_truthy.
  destruct (responses w) as [| [e |] rest]; run;
    try (destruct (bucket w !! path0) eqn:Hb; run);
    intros [= <- _]; exact Ht.
Qed.

Ltac save_step :=
  unfold mbind, mret, Async_bind, Async_ret;
  cbn -[uploadOriginalImage compressImage createThumbnail Supabase.photos_insert
        deleteOriginalImage].

(** What a successful [savePhotoToDatabase] leaves behind. *)
Lemma savePhotoToDatabase_stored photoData user w r w' :
  savePhotoToDatabase photoData user w = (Ret r, w') ->
  PhotoService.success r = true ->
  exists id row path c t,
    PhotoService.data r = Some (id, row)
    /\ photos w' !! id = Some row
    /\ Table.storage_path row = Some path
    /\ JS.truthy (Some path) = true
    /\ bucket w' !! path = Some (imageData photoData)
    /\ Table.image_data row = Some c
    /\ Table.thumbnail_data row = Some t
    /\ compressed_from w (imageData photoData) c
    /\ thumbnail_from w c t.
Proof.
  unfold savePhotoToDatabase, requireAdmin, validateImageSize, try_catch.
  destruct (checkAdminPermission user) eqn:Hadmin; save_step; [| by intros [= <- _]].
  destruct (Qgt_bool _ _); save_step; [by intros [= <- _] |].
  destruct user as [u |]; [| discriminate]. save_step.
  destruct (uploadOriginalImage (imageData photoData)
              (JS.or_else (filename photoData) "photo.jpg") (id u) w)
    as [out w1] eqn:E1.
  pose proof (uploadOriginalImage_run (imageData photoData)
                (JS.or_else (filename photoData) "photo.jpg") (id u) w)
    as (out' & w1' & made1 & E1' & M1 & P1 & J1 & H1).
  rewrite E1 in E1'. injection E1' as <- <-.
  destruct out as [path | e | |]; try done; save_step; [| by intros [= <- _]].
  apply uploadOriginalImage_path in E1. destruct H1 as (-> & Hfree & B1).
  assert (Fc : fst (compressImage (imageData photoData) 800 600 (8 # 10) w)
               = fst (compressImage (imageData photoData) 800 600 (8 # 10) w1))
    by (apply compressImage_world; by rewrite J1).
  destruct (compressImage_run (imageData photoData) 800 600 (8 # 10) w1)
    as [Ec | [c Ec]]; rewrite Ec in *; save_step; [discriminate |].
  assert (Ft : fst (createThumbnail c 800 800 w) = fst (createThumbnail c 800 800 w1))
    by (apply createThumbnail_world; by rewrite J1).
  destruct (createThumbnail_run c 800 800 w1) as [Et | [t Et]]; rewrite Et in *;
    save_step; [discriminate |].
  cbn in Fc, Ft.
  match goal with |- context [Supabase.photos_insert ?v ?w2] =>
    set (values := v);
    destruct (photos_insert_run values w2) as (r3 & w3 & a & -> & M3 & <- & B3 & C3 & H3)
  end.
  cbn in B3, H3.
  destruct (Supabase.error r3) as [e |] eqn:He; save_step.
  - match goal with |- context [deleteOriginalImage path ?w4] =>
      destruct (deleteOriginalImage_run path w4) as (out & w5 & cleanup & -> & _ & _ & H5)
    end.
    destruct out as [ok | e' | |], cleanup as [c' |]; try done; save_step;
      by intros [= <- _].
  - destruct H3 as (i & now & Hnn & Hnone & P3 & ->). save_step.
    intros [= <- <-] _. exists i, (Table.defaults now values), path, c, t.
    cbn. rewrite P3, lookup_insert_eq, B3, B1, lookup_insert_eq. by repeat split.
Qed.

Lemma column_read_healthy {A} (f : Table.columns -> A) id w c (r : reply A) :
  column_read f id w r -> photos w !! id = Some c -> responses w = [] ->
  r = Reply true (Some (f c)) None.
Proof.
  unfold column_read. intros H Hc Hnil. destruct r as [[|] d e]; cbn in H.
  - destruct H as (c' & Hc' & -> & ->). rewrite Hc in Hc'. by injection Hc' as <-.
  - destruct H as (_ & e' & _ & [H | H]).
    + rewrite Hnil in H. done.
    + congruence.
Qed.



End SavedPhotoFacts.

(** ** The sizes the canvas functions give *)

Section CanvasFacts.

Import PhotoService.

Lemma Qgt_bool_true a b : Qgt_bool a b = true <-> (b < a)%Q.
Proof.
  unfold Qgt_bool. rewrite negb_true_iff. split.
  - intros H. apply Qnot_le_lt. intros Hle%Qle_bool_iff. congruence.
  - intros H. apply not_true_is_false. intros Hle%Qle_bool_iff.
    exact (Qlt_not_le _ _ H Hle).
Qed.

Lemma Qgt_bool_false a b : Qgt_bool a b = false <-> (a <= b)%Q.
Proof.
  unfold Qgt_bool. rewrite negb_false_iff. apply Qle_bool_iff.
Qed.

Lemma Qfloor_le_Z x n : (x < inject_Z (n + 1))%Q -> Qfloor x <= n.
Proof.
  intros H. apply Z.lt_succ_r. rewrite Zlt_Qlt.
  apply Qle_lt_trans with x; [apply Qfloor_le | exact H].
Qed.

Lemma Qfloor_ge_Z x n : (inject_Z n <= x)%Q -> n <= Qfloor x.
Proof.
  intros H. rewrite <- (Qfloor_Z n). by apply Qfloor_resp_le.
Qed.

(** What [draw] makes of a size: a canvas of the whole pixels, if it has
    any. *)
Lemma draw_size img width height quality w t w' pt :
  draw img width height quality w = (Ret t, w') -> Image.decoded t = Some pt ->
  Image.natural pt = (Qfloor width, Qfloor height)
  /\ 0 < Qfloor width /\ 0 < Qfloor height
  /\ Image.made_from pt img.
Proof.
  unfold draw. destruct (_ || _) eqn:Hzero; run; intros [= <- _]; [discriminate |].
  cbn. intros [= <-]. cbn. apply orb_false_iff in Hzero as [H1%Z.leb_gt H2%Z.leb_gt].
  done.
Qed.

Lemma draw_nothing img width height quality w :
  Qfloor width <= 0 \/ Qfloor height <= 0 ->
  exists t, draw img width height quality w = (Ret t, w) /\ Image.decoded t = None.
Proof.
  intros H. unfold draw.
  assert (Hz : (Qfloor width <=? 0) || (Qfloor height <=? 0) = true).
  { apply orb_true_iff. destruct H as [H | H]; [left | right]; by apply Z.leb_le. }
  rewrite Hz. run. eauto.
Qed.

Lemma Qle_div_mult (s a b : Q) : (0 < b)%Q -> (s <= a / b)%Q -> (b * s <= a)%Q.
Proof.
  intros Hb Hs. apply (Qmult_le_l _ _ b) in Hs; [| done].
  rewrite Qmult_div_r in Hs; [done |].
  intros E. rewrite E in Hb. by apply Qlt_irrefl in Hb.
Qed.

Lemma inject_Z_pos n : 0 < n -> (0 < inject_Z n)%Q.
Proof. intros H. by rewrite <- (Zlt_Qlt 0). Qed.

(** The scale of [createThumbnail]. *)
Lemma thumbnail_scale pw ph mw mh :
  0 < pw -> 0 < ph -> 0 < mw -> 0 < mh ->
  let scale := Qmin (inject_Z mw / inject_Z pw) (inject_Z mh / inject_Z ph) in
  (inject_Z pw * scale <= inject_Z mw)%Q
  /\ (inject_Z ph * scale <= inject_Z mh)%Q
  /\ (mw < pw \/ mh < ph -> (scale <= 1)%Q)
  /\ (0 < scale)%Q.
Proof.
  intros Hpw%inject_Z_pos Hph%inject_Z_pos Hmw Hmh scale.
  assert (H1 : (scale <= inject_Z mw / inject_Z pw)%Q) by apply Q.le_min_l.
  assert (H2 : (scale <= inject_Z mh / inject_Z ph)%Q) by apply Q.le_min_r.
  split; [by apply Qle_div_mult |]. split; [by apply Qle_div_mult |]. split.
  - intros [H | H].
    + eapply Qle_trans; [exact H1 |]. apply Qle_shift_div_r; [done |].
      rewrite Qmult_1_l, <- Zle_Qle. lia.
    + eapply Qle_trans; [exact H2 |]. apply Qle_shift_div_r; [done |].
      rewrite Qmult_1_l, <- Zle_Qle. lia.
  - subst scale.
    apply Q.min_glb_lt; (apply Qlt_shift_div_l; [done |]); rewrite Qmult_0_l;
      by apply inject_Z_pos.
Qed.

Ltac unfold_run H :=
  unfold mbind, mret, Async_bind, Async_ret in H; cbv beta iota zeta in H.



(** X7. [compressImage] never enlarges: the image it draws is no wider and
    no taller than the one it is given, and one that is within both limits
    keeps its size.  It limits one side only: the width of an image wider
    than tall, the height of any other. *)
Theorem compressImage_limits_one_side u mw mh quality w c w' p pc :
  0 < mw -> 0 < mh ->
  Image.decoded u = Some p ->
  0 < fst (Image.natural p) -> 0 < snd (Image.natural p) ->
  compressImage u (inject_Z mw) (inject_Z mh) quality w = (Ret c, w') ->
  Image.decoded c = Some pc ->
  Image.made_from pc p
  /\ 0 < fst (Image.natural pc) <= fst (Image.natural p)
  /\ 0 < snd (Image.natural pc) <= snd (Image.natural p)
  /\ (snd (Image.natural p) < fst (Image.natural p) -> fst (Image.natural pc) <= mw)
  /\ (fst (Image.natural p) <= snd (Image.natural p) -> snd (Image.natural pc) <= mh)
  /\ (fst (Image.natural p) <= mw -> snd (Image.natural p) <= mh ->
      Image.natural pc = Image.natural p).
Proof.
  intros Hmw Hmh Hdec Hpw Hph Hrun Hpc.
  unfold compressImage, load in Hrun. rewrite Hdec in Hrun. unfold_run Hrun.
  destruct (Image.natural p) as [pw ph]. cbn [fst snd] in *.
  apply (draw_size _ _ _ _ _ _ _ pc) in Hrun as (Hnat & Hw & Hh & Hmade); [| done].
  rewrite Hnat. clear Hnat. cbn [fst snd].
  pose proof (inject_Z_pos _ Hpw) as HW. pose proof (inject_Z_pos _ Hph) as HH.
  pose proof (inject_Z_pos _ Hmw) as HMW. pose proof (inject_Z_pos _ Hmh) as HMH.
  split; [done |].
  destruct (Qgt_bool (inject_Z pw) (inject_Z ph)) eqn:Hland.
  - apply Qgt_bool_true in Hland. rewrite <- Zlt_Qlt in Hland.
    destruct (Qgt_bool (inject_Z pw) (inject_Z mw)) eqn:Hwide; cbn [fst snd] in *.
    + apply Qgt_bool_true in Hwide. rewrite <- Zlt_Qlt in Hwide.
      rewrite Qfloor_Z in *.
      assert (Hle : Qfloor (inject_Z ph * inject_Z mw / inject_Z pw) <= ph).
      { apply Qfloor_le_Z. rewrite inject_Z_plus. change (inject_Z 1) with 1%Q.
        apply Qle_lt_trans with (inject_Z ph); [| lra].
        apply Qle_shift_div_r; [done |]. apply Qmult_le_l; [done |].
        rewrite <- Zle_Qle. lia. }
      repeat split; try lia.
    + apply Qgt_bool_false in Hwide. rewrite <- Zle_Qle in Hwide.
      rewrite !Qfloor_Z in *. repeat split; lia.
  - apply Qgt_bool_false in Hland. rewrite <- Zle_Qle in Hland.
    destruct (Qgt_bool (inject_Z ph) (inject_Z mh)) eqn:Htall; cbn [fst snd] in *.
    + apply Qgt_bool_true in Htall. rewrite <- Zlt_Qlt in Htall.
      rewrite Qfloor_Z in *.
      assert (Hle : Qfloor (inject_Z pw * inject_Z mh / inject_Z ph) <= pw).
      { apply Qfloor_le_Z. rewrite inject_Z_plus. change (inject_Z 1) with 1%Q.
        apply Qle_lt_trans with (inject_Z pw); [| lra].
        apply Qle_shift_div_r; [done |]. apply Qmult_le_l; [done |].
        rewrite <- Zle_Qle. lia. }
      repeat split; try lia.
    + apply Qgt_bool_false in Htall. rewrite <- Zle_Qle in Htall.
      rewrite !Qfloor_Z in *. repeat split; lia.
Qed.

Lemma compressImage_limits_one_side_witness :
  exists c w' pc,
    (0 < 800 /\ 0 < 600
     /\ Image.decoded Sample.capture = Some (Image.Camera "IMG_0042.jpg" 1920 1080)
     /\ 0 < fst (Image.natural (Image.Camera "IMG_0042.jpg" 1920 1080))
     /\ 0 < snd (Image.natural (Image.Camera "IMG_0042.jpg" 1920 1080))
     /\ compressImage Sample.capture (inject_Z 800) (inject_Z 600) (8 # 10) Sample.world0
        = (Ret c, w')
     /\ Image.decoded c = Some pc)
    /\ Image.natural pc = (800, 450)
    /\ Image.made_from pc (Image.Camera "IMG_0042.jpg" 1920 1080)
    /\ 0 < fst (Image.natural pc)
       <= fst (Image.natural (Image.Camera "IMG_0042.jpg" 1920 1080)).
Proof.
  eexists _, _, _.
  assert (Hrun : compressImage Sample.capture (inject_Z 800) (inject_Z 600) (8 # 10)
                   Sample.world0 = (Ret _, _)) by (vm_compute; reflexivity).
  split; [repeat split; try exact Hrun; reflexivity |].
  split; [reflexivity |].
  pose proof (compressImage_limits_one_side Sample.capture 800 600 (8 # 10) Sample.world0
                _ _ (Image.Camera "IMG_0042.jpg" 1920 1080) _
                ltac:(lia) ltac:(lia) eq_refl ltac:(simpl; lia) ltac:(simpl; lia)
                Hrun eq_refl) as (H1 & H2 & _).
  split; [exact H1 | exact H2].
Defined.

(** X8. The height limit of [compressImage] does not bind an image wider
    than tall: scaled to the width limit it comes out taller than
    [maxHeight] whenever its proportions are squarer than those of the
    box. *)
Theorem compressImage_can_exceed_maxHeight u mw mh quality w p :
  0 < mw -> 0 < mh ->
  Image.decoded u = Some p ->
  snd (Image.natural p) < fst (Image.natural p) ->
  mw < fst (Image.natural p) ->
  (mh + 1) * fst (Image.natural p) <= snd (Image.natural p) * mw ->
  exists c pc,
    compressImage u (inject_Z mw) (inject_Z mh) quality w = (Ret c, w)
    /\ Image.decoded c = Some pc
    /\ fst (Image.natural pc) = mw
    /\ mh < snd (Image.natural pc).
Proof.
  intros Hmw Hmh Hdec Hland Hwide Hsquare.
  unfold compressImage, load. rewrite Hdec.
  unfold mbind, mret, Async_bind, Async_ret. cbv beta iota zeta.
  destruct (Image.natural p) as [pw ph]. cbn [fst snd] in *.
  assert (Hpw : 0 < pw) by lia.
  assert (H1 : Qgt_bool (inject_Z pw) (inject_Z ph) = true)
    by (apply Qgt_bool_true; by rewrite <- Zlt_Qlt).
  assert (H2 : Qgt_bool (inject_Z pw) (inject_Z mw) = true)
    by (apply Qgt_bool_true; by rewrite <- Zlt_Qlt).
  rewrite H1, H2. cbn [fst snd].
  assert (Hch : mh + 1 <= Qfloor (inject_Z ph * inject_Z mw / inject_Z pw)).
  { apply Qfloor_ge_Z. apply Qle_shift_div_l; [by apply inject_Z_pos |].
    rewrite <- !inject_Z_mult, <- Zle_Qle. done. }
  unfold draw. rewrite Qfloor_Z.
  assert (Hz : (mw <=? 0) || (Qfloor (inject_Z ph * inject_Z mw / inject_Z pw) <=? 0)
               = false).
  { apply orb_false_iff. split; apply Z.leb_gt; lia. }
  rewrite Hz. unfold mbind, mret, Async_bind, Async_ret, get. cbv beta iota.
  eexists _, _. split; [reflexivity |]. split; [reflexivity |]. split; [reflexivity |].
  change (mh < Qfloor (inject_Z ph * inject_Z mw / inject_Z pw)). lia.
Qed.

Lemma compressImage_can_exceed_maxHeight_witness :
  let u := Image.DataURL 900000 true (Some (Image.Camera "IMG_0100.jpg" 1000 900)) in
  (0 < 800 /\ 0 < 600 /\ 900 < 1000 /\ 800 < 1000 /\ (600 + 1) * 1000 <= 900 * 800)
  /\ exists c pc,
       compressImage u (inject_Z 800) (inject_Z 600) (8 # 10) Sample.world0
       = (Ret c, Sample.world0)
       /\ Image.decoded c = Some pc
       /\ fst (Image.natural pc) = 800
       /\ 600 < snd (Image.natural pc).
Proof.
  intros u. split; [lia |].
  apply (compressImage_can_exceed_maxHeight u 800 600 (8 # 10) Sample.world0
           (Image.Camera "IMG_0100.jpg" 1000 900)); simpl; first [lia | reflexivity].
Defined.

(** *** Captures that cannot be drawn *)

Section UndrawnFacts.

Import Utils Spec Terms.

Lemma cannot_be_drawn_no_thumbnail w d c t :
  cannot_be_drawn d -> compressed_from w d c -> thumbnail_from w c t -> False.
Proof.
  unfold compressed_from, thumbnail_from. intros [Hnone | (p & Hdec & Hland & Hwide & Hflat)].
  - unfold compressImage, load. rewrite Hnone. discriminate.
  - unfold compressImage, load. rewrite Hdec.
    unfold mbind, mret, Async_bind, Async_ret. cbv beta iota zeta.
    destruct (Image.natural p) as [pw ph]. cbn [fst snd] in *.
    assert (H1 : Qgt_bool (inject_Z pw) (inject_Z ph) = true)
      by (apply Qgt_bool_true; by rewrite <- Zlt_Qlt).
    assert (H2 : Qgt_bool (inject_Z pw) 800 = true)
      by (apply Qgt_bool_true; by rewrite <- (Zlt_Qlt 800)).
    rewrite H1, H2. cbn [fst snd].
    assert (Hpw : (0 < inject_Z pw)%Q) by (apply inject_Z_pos; lia).
    destruct (draw_nothing p 800 (inject_Z ph * 800 / inject_Z pw) (8 # 10) w)
      as (c' & -> & Hc').
    { right. apply Qfloor_le_Z. change (inject_Z (0 + 1)) with 1%Q.
      apply Qlt_shift_div_r; [done |]. rewrite Qmult_1_l.
      change 800%Q with (inject_Z 800). rewrite <- inject_Z_mult, <- Zlt_Qlt. done. }
    cbn [fst]. intros [= <-]. unfold createThumbnail, load. rewrite Hc'. discriminate.
Qed.

(** X9. A capture that cannot be drawn makes [savePhotoToDatabase] hang:
    once its upload has succeeded the operation never settles, for the
    promise of the canvas step has no error path.  The upload is the only
    request made: no row is inserted and the uploaded original is not
    removed. *)
Theorem undrawn_capture_never_settles photoData user w made path :
  cannot_be_drawn (PhotoService.imageData photoData) ->
  made_requests w (snd (PhotoService.savePhotoToDatabase photoData user w)) made ->
  (StorageUpload path (PhotoService.imageData photoData), None) ∈ made ->
  fst (PhotoService.savePhotoToDatabase photoData user w) = Pending
  /\ made = [(StorageUpload path (PhotoService.imageData photoData), None)]
  /\ photos (snd (PhotoService.savePhotoToDatabase photoData user w)) = photos w.
Proof.
  intros Hbad Hmade%save_run_of Hin.
  destruct Hmade as [ | | path' w' Hp | path' values e cleanup w' Hrow
                    | path' values id now w' Hrow ]; in_list Hin.
  - injection Hin as ->. done.
  - exfalso. destruct Hrow as (_ & _ & _ & c & t & _ & _ & Hc & Ht).
    exact (cannot_be_drawn_no_thumbnail _ _ _ _ Hbad Hc Ht).
  - exfalso. destruct Hrow as (_ & _ & _ & c & t & _ & _ & Hc & Ht).
    exact (cannot_be_drawn_no_thumbnail _ _ _ _ Hbad Hc Ht).
Qed.

Lemma undrawn_capture_never_settles_witness :
  let panorama :=
    PhotoService.PhotoData (Some (58595312 # 1000000)) (Some (25013654 # 1000000))
      (Image.DataURL 400000 true (Some (Image.Camera "PANO_0001.jpg" 8000 9)))
      (Some Sample.noon) (Some "PANO_0001.jpg") (Some "target") None None in
  let path := "7f3c/2024-05-01T12-00-00-000Z_PANO_0001.jpg"%string in
  let made := [(StorageUpload path (PhotoService.imageData panorama), None)] in
  (cannot_be_drawn (PhotoService.imageData panorama)
   /\ made_requests Sample.world0
        (snd (PhotoService.savePhotoToDatabase panorama Sample.administrator Sample.world0))
        made
   /\ (StorageUpload path (PhotoService.imageData panorama), None) ∈ made)
  /\ fst (PhotoService.savePhotoToDatabase panorama Sample.administrator Sample.world0)
     = Pending.
Proof.
  intros panorama path made.
  assert (H1 : cannot_be_drawn (PhotoService.imageData panorama)).
  { right. eexists. split; [reflexivity |]. simpl. lia. }
  assert (H2 : made_requests Sample.world0
                 (snd (PhotoService.savePhotoToDatabase panorama Sample.administrator
                         Sample.world0)) made) by (vm_compute; reflexivity).
  assert (H3 : (StorageUpload path (PhotoService.imageData panorama), None) ∈ made)
    by (apply elem_of_cons; by left).
  split; [by repeat split |].
  exact (proj1 (undrawn_capture_never_settles panorama Sample.administrator Sample.world0
                  made path H1 H2 H3)).
Defined.

End UndrawnFacts.

End CanvasFacts.

(** ** The tally of the thumbnail script *)

Section TallyFacts.

Import Spec RegenerateThumbnails Terms.

Lemma process_one_tally o photo results w :
  exists results' w' made,
    process_one o photo results w = (Ret results', w')
    /\ made_requests w w' made
    /\ tallied (dryRun o) 1 made results results'
    /\ (dryRun o = true -> photos w' = photos w /\ bucket w' = bucket w).
Proof.
  unfold process_one, try_catch, tallied. run.
  destruct (dryRun o); run.
  { eexists _, _, []. split; [reflexivity |]. unfold made_requests. cbn.
    rewrite app_nil_r. repeat split; lia. }
  match goal with
  | |- context [createThumbnail ?u ?c ?w1] =>
      destruct (script_createThumbnail_cases u w1)
        as [(e & w2 & -> & Hq & Hs & _) | (url & p & t & -> & Hu & Hp & Ht)]
  end.
  { run. eexists _, _, []. split; [reflexivity |]. unfold made_requests. cbn.
    rewrite app_nil_r, length_app. cbn. repeat split; try done; lia. }
  match goal with
  | |- context [retryOperation (updatePhotoWithThumbnail ?i ?th) ?n ?m ?w1] =>
      destruct (updatePhotoWithThumbnail_run i th w1) as (ok & a & w2 & E & M & S & Hok);
      rewrite (retryOperation_settled (updatePhotoWithThumbnail i th) n w1)
        by (rewrite E; done);
      rewrite E
  end.
  unfold made_requests in *. cbn in M.
  destruct ok; run; eexists _, _, _; (split; [reflexivity |]); cbn;
    (split; [exact M |]); unfold went_through.
  - assert (a = None) as -> by by apply Hok.
    rewrite filter_cons_True by done. cbn. repeat split; try done; lia.
  - assert (a <> None) by (intros Ha; apply Hok in Ha; done).
    rewrite filter_cons_False by done. rewrite length_app. cbn.
    repeat split; try done; lia.
Qed.

Lemma tallied_trans dry n1 n2 m1 m2 r1 r2 r3 :
  tallied dry n1 m1 r1 r2 -> tallied dry n2 m2 r2 r3 ->
  tallied dry (n1 + n2) (m1 ++ m2) r1 r3.
Proof.
  unfold tallied, went_through. cbv zeta.
  intros (A1 & B1 & C1 & D1) (A2 & B2 & C2 & D2).
  split; [lia |]. split; [lia |]. split; [lia |].
  destruct dry.
  - destruct D1 as (-> & ? & ?), D2 as (-> & ? & ?). repeat split; lia.
  - rewrite filter_app, !length_app. lia.
Qed.

Lemma process_each_tally o batch :
  forall results w,
  exists results' w' made,
    process_each o batch results w = (Ret results', w')
    /\ made_requests w w' made
    /\ tallied (dryRun o) (Z.of_nat (length batch)) made results results'
    /\ (dryRun o = true -> photos w' = photos w /\ bucket w' = bucket w).
Proof.
  induction batch as [| photo batch IH]; intros results w.
  - exists results, w, []. split; [reflexivity |]. unfold made_requests, tallied.
    rewrite app_nil_r. split; [done |]. split; [| done].
    cbn. destruct (dryRun o); repeat split; lia.
  - cbn [process_each].
    destruct (process_one_tally o photo results w) as (r1 & w1 & m1 & E1 & M1 & T1 & D1).
    destruct (IH r1 w1) as (r2 & w2 & m2 & E2 & M2 & T2 & D2).
    exists r2, w2, (m1 ++ m2).
    split; [unfold mbind, Async_bind; by rewrite E1 |].
    split; [unfold made_requests in *; by rewrite M2, M1, <- app_assoc |].
    split.
    + replace (Z.of_nat (length (photo :: batch)))
        with (1 + Z.of_nat (length batch)) by (cbn [length]; lia).
      by eapply tallied_trans.
    + intros Hdry. destruct (D1 Hdry) as [<- <-]. by apply D2.
Qed.

(** X10. The tally of [processBatch] accounts for every photo of the batch
    once, as successful or as failed, with one line in [errors] per
    failure.  Outside a dry run [processed] counts the photos for which an
    update was asked, so a photo whose thumbnail could not be made is failed
    but not processed, and [successful] counts the updates that went
    through.  In a dry run nothing is asked of the backend, table and bucket
    stay as they are, and every photo is counted as successful. *)
Theorem processBatch_tally o batch batchIndex w :
  exists results w' made,
    processBatch o batch batchIndex w = (Ret results, w')
    /\ made_requests w w' made
    /\ successful results + failed results = Z.of_nat (length batch)
    /\ Z.of_nat (length (errors results)) = failed results
    /\ 0 <= failed results
    /\ if dryRun o then
         made = [] /\ successful results = Z.of_nat (length batch)
         /\ processed results = Z.of_nat (length batch)
         /\ photos w' = photos w /\ bucket w' = bucket w
       else
         processed results = Z.of_nat (length made)
         /\ successful results = Z.of_nat (length (went_through made)).
Proof.
  unfold processBatch. run.
  match goal with
  | |- context [process_each o batch ?r ?w1] =>
      destruct (process_each_tally o batch r w1) as (r' & w' & made & E & M & T & D)
  end.
  exists r', w', made. split; [exact E |]. split; [exact M |].
  unfold tallied in T. cbn in T. destruct T as (T1 & T2 & T3 & T4).
  split; [lia |]. split; [lia |]. split; [lia |].
  destruct (dryRun o).
  - destruct T4 as (-> & ? & ?). destruct (D eq_refl) as [-> ->].
    repeat split; try done; lia.
  - split; lia.
Qed.

End TallyFacts.

(** ** The storage migration, photo by photo *)

Section MigrationStepFacts.

Import Spec MigrateImages PhotoReads Terms.

Lemma createUniqueFilename_nonempty photo : createUniqueFilename photo <> EmptyString.
Proof.
  unfold createUniqueFilename. cbv zeta.
  by destruct (JS.or_else (Table.user_id (snd photo)) "unknown").
Qed.

(** An upload to a free path on a backend that fails nothing. *)
Lemma uploadToStorage_healthy base64Image filename w :
  responses w = [] -> Image.base64 base64Image = true -> bucket w !! filename = None ->
  exists w',
    uploadToStorage base64Image filename w = (Ret filename, w')
    /\ responses w' = [] /\ photos w' = photos w
    /\ bucket w' = <[filename := base64Image]> (bucket w)
    /\ made_requests w w' [(StorageUpload filename base64Image, None)].
Proof.
  intros Hnil Hb64 Hfree.
  unfold uploadToStorage, rethrow, base64ToBlob, try_catch, Supabase.storage_upload,
    Supabase.exchange, answer.
  rewrite Hb64. run. rewrite Hnil. run. rewrite Hfree. run.
  eexists. split; [reflexivity |]. by repeat split.
Qed.

Lemma not_null_set_storage_path t v c :
  Table.not_null (Table.touch t (Table.patch [Table.SetStoragePath v] c))
  = Table.not_null c.
Proof. by destruct c. Qed.

(** The update of the storage path of a stored row on such a backend. *)
Lemma updatePhotoStoragePath_healthy photoId storagePath c w :
  responses w = [] -> photos w !! photoId = Some c -> Table.not_null c = true ->
  exists w' t,
    updatePhotoStoragePath photoId storagePath w = (Ret true, w')
    /\ responses w' = []
    /\ photos w'
       = <[photoId := Table.touch t (Table.patch [Table.SetStoragePath (Some storagePath)] c)]>
           (photos w)
    /\ bucket w' = bucket w
    /\ made_requests w w'
         [(PhotosUpdate [Table.SetStoragePath (Some storagePath)] photoId, None)].
Proof.
  intros Hnil Hc Hnn.
  unfold updatePhotoStoragePath, rethrow, try_catch, Supabase.photos_update,
    Supabase.exchange, answer.
  unfold mbind, mret, Async_bind, Async_ret, now.
  cbn -[Table.not_null Table.touch Table.patch]. rewrite Hnil.
  cbn -[Table.not_null Table.touch Table.patch]. rewrite Hc.
  cbn -[Table.not_null Table.touch Table.patch].
  rewrite not_null_set_storage_path, Hnn.
  cbn -[Table.not_null Table.touch Table.patch].
  eexists _, _. split; [reflexivity |]. by repeat split.
Qed.

(** The schema has [image_data] NOT NULL: the update of [cleanupBase64Data]
    is refused for every row there is. *)
Lemma cleanupBase64Data_fails photoId c w :
  photos w !! photoId = Some c ->
  exists msg w',
    cleanupBase64Data photoId w = (Throw (JS.Error ("Cleanup failed: " +:+ msg)), w')
    /\ photos w' = photos w /\ bucket w' = bucket w.
Proof.
  intros Hc.
  assert (Hnn : forall t,
    Table.not_null
      (Table.touch t
         (Table.patch [Table.SetImageData None; Table.SetThumbnailData None] c)) = false)
    by (intros t; destruct c as [lat lng]; by destruct lat, lng).
  unfold cleanupBase64Data, rethrow, try_catch, Supabase.photos_update,
    Supabase.exchange, answer.
  unfold mbind, mret, Async_bind, Async_ret, now.
  cbn -[Table.not_null Table.touch Table.patch].
  destruct (responses w) as [| [e |] rest];
    cbn -[Table.not_null Table.touch Table.patch];
    try (rewrite Hc; cbn -[Table.not_null Table.touch Table.patch];
         rewrite Hnn; cbn -[Table.not_null Table.touch Table.patch]);
    eexists _, _; (split; [reflexivity |]); by split.
Qed.

Lemma uploadToStorage_table base64Image filename w :
  photos (snd (uploadToStorage base64Image filename w)) = photos w.
Proof.
  unfold uploadToStorage, rethrow, base64ToBlob, try_catch, Supabase.storage_upload,
    Supabase.exchange, answer.
  destruct (Image.base64 base64Image); run; [| done].
  destruct (responses w) as [| [e |] rest]; run; try done;
    by destruct (bucket w !! filename); run.
Qed.

Lemma updatePhotoStoragePath_row photoId storagePath c w :
  photos w !! photoId = Some c ->
  exists c',
    photos (snd (updatePhotoStoragePath photoId storagePath w)) !! photoId = Some c'
    /\ Table.image_data c' = Table.image_data c
    /\ Table.thumbnail_data c' = Table.thumbnail_data c.
Proof.
  intros Hc.
  destruct (updatePhotoStoragePath_writes photoId storagePath w) as [[-> | H] _].
  - by exists c.
  - destruct H as (row & t & Hrow & ->). rewrite Hc in Hrow. injection Hrow as <-.
    rewrite lookup_insert_eq. eexists. split; [reflexivity |]. by destruct c.
Qed.





(** *** Dry runs *)

Lemma only_queried_refl w : only_queried w w.
Proof.
  repeat split. exists []. split; [| done]. unfold made_requests. by rewrite app_nil_r.
Qed.

Lemma only_queried_trans w1 w2 w3 :
  only_queried w1 w2 -> only_queried w2 w3 -> only_queried w1 w3.
Proof.
  intros (P1 & B1 & m1 & M1 & F1) (P2 & B2 & m2 & M2 & F2).
  split; [congruence |]. split; [congruence |]. exists (m1 ++ m2). split.
  - unfold made_requests in *. by rewrite M2, M1, app_assoc.
  - by apply Forall_app.
Qed.

Lemma queries_only_bind {A B} (m : Async A) (k : A -> Async B) :
  queries_only m -> (forall a, queries_only (k a)) -> queries_only (m ≫= k).
Proof.
  intros Hm Hk w. unfold mbind, Async_bind. specialize (Hm w).
  destruct (m w) as [[a | e | | code] w1]; cbn in *; try done.
  eapply only_queried_trans; [exact Hm | apply Hk].
Qed.

Lemma queries_only_try_catch {A} (body : Async A) handler :
  queries_only body -> (forall e, queries_only (handler e)) ->
  queries_only (try_catch body handler).
Proof.
  intros Hm Hk w. unfold try_catch. specialize (Hm w).
  destruct (body w) as [[a | e | | code] w1]; cbn in *; try done.
  eapply only_queried_trans; [exact Hm | apply Hk].
Qed.

(** What asks nothing and writes neither table nor bucket. *)
Lemma queries_only_silent {A} (m : Async A) :
  (forall w, photos (snd (m w)) = photos w /\ bucket (snd (m w)) = bucket w
             /\ requests (snd (m w)) = requests w) ->
  queries_only m.
Proof.
  intros H w. destruct (H w) as (P & B & R). repeat split; try done.
  exists []. split; [| done]. unfold made_requests. by rewrite app_nil_r.
Qed.

Lemma queries_only_ret {A} (a : A) : queries_only (mret a).
Proof. by apply queries_only_silent. Qed.

Lemma queries_only_log message level : queries_only (log message level).
Proof. by apply queries_only_silent. Qed.

Lemma queries_only_sleep delay : queries_only (sleep delay).
Proof. by apply queries_only_silent. Qed.

Lemma queries_only_exit {A} code : queries_only (process_exit (A := A) code).
Proof. by apply queries_only_silent. Qed.

Lemma queries_only_saveProgress p : queries_only (saveProgress p).
Proof. by apply queries_only_silent. Qed.

Lemma queries_only_loadProgress : queries_only loadProgress.
Proof.
  apply queries_only_silent. intros w. unfold loadProgress, log. run.
  by destruct (progress_file w).
Qed.

Lemma queries_only_unlink : queries_only unlink_progress_file.
Proof.
  apply queries_only_silent. intros w. unfold unlink_progress_file. run.
  by destruct (progress_file w).
Qed.

Lemma queries_only_authenticateUser email : queries_only (authenticateUser email).
Proof.
  apply queries_only_silent. intros w. unfold authenticateUser.
  by destruct (negb _).
Qed.

Lemma queries_only_getPhotosToMigrate batchSize lastProcessedId :
  queries_only (getPhotosToMigrate batchSize lastProcessedId).
Proof.
  intros w.
  destruct (getPhotosToMigrate_run batchSize lastProcessedId w)
    as (out & w' & a & E & [M _] & _).
  assert (P : photos w' = photos w /\ bucket w' = bucket w).
  { revert E. unfold getPhotosToMigrate, rethrow, try_catch, photos_select_to_migrate,
      Supabase.exchange, answer. run.
    destruct (responses w) as [| [e |] rest]; run;
      try (destruct (batchSize <? 0); run); by intros [= _ <-]. }
  rewrite E. cbn. destruct P as [P B]. repeat split; try done.
  eexists. split; [exact M |]. by repeat constructor.
Qed.

Lemma queries_only_getTotalPhotosToMigrate : queries_only getTotalPhotosToMigrate.
Proof.
  intros w.
  destruct (getTotalPhotosToMigrate_run w) as (n & w' & a & E & [M _]).
  assert (P : photos w' = photos w /\ bucket w' = bucket w).
  { revert E. unfold getTotalPhotosToMigrate, try_catch, photos_count_to_migrate,
      Supabase.exchange, answer, log. run.
    destruct (responses w) as [| [e |] rest]; run; by intros [= _ <-]. }
  rewrite E. cbn. destruct P as [P B]. repeat split; try done.
  eexists. split; [exact M |]. by repeat constructor.
Qed.

(** In a dry run [processPhoto] does nothing at all. *)
Lemma processPhoto_dry_run o photo w :
  dryRun o = true ->
  exists reason, processPhoto o photo w = (Ret (Skipped reason), w).
Proof.
  intros Hdry. unfold processPhoto, try_catch. rewrite Hdry.
  destruct (JS.truthy _); run; [by eexists |].
  destruct (Table.image_data _); run; by eexists.
Qed.

Lemma process_photos_dry_run o startTime batch :
  dryRun o = true ->
  forall c w,
  exists w',
    process_photos o startTime batch c w
    = (Ret (Counters (c_processed c + Z.of_nat (length batch)) (c_successful c)
              (c_failed c) (default (c_lastProcessedId c) (fst <$> last batch))), w')
    /\ requests w' = requests w /\ photos w' = photos w /\ bucket w' = bucket w
    /\ responses w' = responses w
    /\ sleeps w' = sleeps w ++ replicate (length batch) 100
    /\ progress_file w'
       = match last batch with
         | Some photo =>
             Saved (Progress (c_processed c + Z.of_nat (length batch)) (c_successful c)
                      (c_failed c) (fst photo) startTime)
         | None => progress_file w
         end.
Proof.
  intros Hdry. induction batch as [| photo rest IH]; intros c w.
  - exists w. cbn. rewrite Z.add_0_r, app_nil_r. by destruct c.
  - cbn [process_photos]. unfold mbind, Async_bind.
    destruct (processPhoto_dry_run o photo w Hdry) as [reason ->].
    unfold log, saveProgress. run.
    match goal with |- context [process_photos o startTime rest ?c1 ?w1] =>
      destruct (IH c1 w1) as (w' & -> & R & P & B & A & S & F)
    end.
    exists w'. cbn in R, P, B, A, S, F.
    cbn [c_processed c_successful c_failed c_lastProcessedId].
    assert (Hlen : c_processed c + 1 + Z.of_nat (length rest)
                   = c_processed c + Z.of_nat (length (photo :: rest)))
      by (cbn [length]; lia).
    rewrite Hlen in *. rewrite <- app_assoc in S.
    assert (Hlast : last (photo :: rest) = Some (default photo (last rest)))
      by (clear; revert photo; induction rest as [| p r IHr]; intros photo;
          [done | by rewrite last_cons_cons, (IHr p)]).
    rewrite Hlast. cbn [fmap option_fmap option_map default].
    rewrite R, P, B, A, S, F.
    destruct (last rest) eqn:El; [| apply last_None in El; subst rest];
      cbn; repeat split; reflexivity.
Qed.

Lemma queries_only_process_photos o startTime batch c :
  dryRun o = true -> queries_only (process_photos o startTime batch c).
Proof.
  intros Hdry. apply queries_only_silent. intros w.
  destruct (process_photos_dry_run o startTime batch Hdry c w)
    as (w' & -> & R & P & B & _).
  done.
Qed.

Lemma queries_only_iteration o startTime c :
  dryRun o = true -> queries_only (iteration o startTime c).
Proof.
  intros Hdry. unfold iteration.
  apply queries_only_bind; [apply queries_only_getPhotosToMigrate |].
  intros [| photo rest].
  - apply queries_only_bind; [apply queries_only_log | intros; apply queries_only_ret].
  - apply queries_only_bind; [apply queries_only_log | intros _].
    apply queries_only_bind; [by apply queries_only_process_photos | intros c'].
    apply queries_only_bind; [apply queries_only_sleep | intros; apply queries_only_ret].
Qed.

Lemma queries_only_migrate_loop o startTime fuel :
  dryRun o = true -> forall c, queries_only (migrate_loop o startTime fuel c).
Proof.
  intros Hdry. induction fuel as [| fuel IH]; intros c.
  - by apply queries_only_silent.
  - cbn [migrate_loop].
    apply queries_only_bind; [by apply queries_only_iteration |].
    intros [c' |]; [apply IH | apply queries_only_ret].
Qed.

Lemma queries_only_runMigration o fuel :
  dryRun o = true -> queries_only (runMigration o fuel).
Proof.
  intros Hdry. unfold runMigration.
  apply queries_only_bind; [apply queries_only_log | intros _].
  apply queries_only_bind; [apply queries_only_log | intros _].
  apply queries_only_bind.
  { destruct (JS.truthy _); [| apply queries_only_ret].
    apply queries_only_bind; [apply queries_only_authenticateUser | intros ok].
    destruct (negb ok); [| apply queries_only_ret].
    apply queries_only_bind; [apply queries_only_log | intros; apply queries_only_exit]. }
  intros _. apply queries_only_bind; [apply queries_only_loadProgress | intros progress].
  apply queries_only_bind.
  { destruct (_ && _); [apply queries_only_log | apply queries_only_ret]. }
  intros _. apply queries_only_bind; [apply queries_only_getTotalPhotosToMigrate |].
  intros totalPhotos. apply queries_only_bind; [apply queries_only_log | intros _].
  destruct (totalPhotos =? 0); [apply queries_only_log |].
  apply queries_only_try_catch.
  - apply queries_only_bind; [by apply queries_only_migrate_loop | intros c].
    apply queries_only_bind; [apply queries_only_log | intros _].
    apply queries_only_bind; [apply queries_only_log | intros _].
    apply queries_only_bind.
    { destruct (0 <? _); [apply queries_only_log | apply queries_only_ret]. }
    intros _. destruct (_ =? 0); [| apply queries_only_ret].
    apply queries_only_bind; [apply queries_only_unlink | intros; apply queries_only_log].
  - intros e.
    apply queries_only_bind; [apply queries_only_log | intros; apply queries_only_exit].
Qed.

(** X13. A dry run writes nothing.  With [--dry-run], whatever the other
    options, the table, the bucket, the progress file before the run and
    the answers of the backend, the migration script leaves the table and
    the bucket as they were, and every request it makes is a count or a
    select. *)
Theorem dry_run_writes_nothing o fuel w :
  dryRun o = true ->
  let w' := snd (main o fuel w) in
  photos w' = photos w /\ bucket w' = bucket w
  /\ exists made,
       made_requests w w' made /\ Forall (fun x => is_query (fst x) = true) made.
Proof.
  intros Hdry. apply (queries_only_try_catch (runMigration o fuel));
    [by apply queries_only_runMigration |].
  intros e.
  apply queries_only_bind; [apply queries_only_log | intros; apply queries_only_exit].
Qed.

Lemma dry_run_writes_nothing_witness :
  let o := Options 10 true false false None in
  let w' := snd (main o 2 Sample.world1) in
  photos w' = photos Sample.world1 /\ bucket w' = bucket Sample.world1
  /\ exists made,
       made_requests Sample.world1 w' made
       /\ Forall (fun x => is_query (fst x) = true) made.
Proof.
  intros o. apply (dry_run_writes_nothing o 2 Sample.world1). reflexivity.
Defined.

(** X14. A dry run moves the resume point.  In a dry run the photos of a
    batch are counted as processed, none as successful or failed, no
    request is made for them, and after the batch the progress file holds
    the id of its last photo: a run started afterwards with the file in
    place asks for photos above that id only. *)
Theorem dry_run_batch_is_recorded o startTime batch photo c w :
  dryRun o = true -> last batch = Some photo ->
  exists c' w',
    process_photos o startTime batch c w = (Ret c', w')
    /\ requests w' = requests w /\ photos w' = photos w /\ bucket w' = bucket w
    /\ c_processed c' = c_processed c + Z.of_nat (length batch)
    /\ c_successful c' = c_successful c /\ c_failed c' = c_failed c
    /\ progress_file w'
       = Saved (Progress (c_processed c') (c_successful c) (c_failed c) (fst photo)
                  startTime)
    /\ sleeps w' = sleeps w ++ replicate (length batch) 100
    /\ forall o' startTime' c'',
         c_lastProcessedId c'' = recorded w' ->
         exists a,
           head (drop (length (requests w'))
                   (requests (snd (iteration o' startTime' c'' w'))))
           = Some (PhotosSelectToMigrate (batchSize o') (fst photo), a).
Proof.
  intros Hdry Hlast.
  destruct (process_photos_dry_run o startTime batch Hdry c w)
    as (w' & E & R & P & B & A & S & F).
  rewrite Hlast in E, F. eexists _, w'. split; [exact E |]. cbn.
  repeat (split; [done |]).
  intros o' startTime' c'' Hc.
  destruct (iteration_run o' startTime' c'' w') as (out & w2 & a & made & -> & M & _).
  exists a. cbn. unfold made_requests in M. rewrite M, drop_app_length. cbn.
  rewrite Hc. unfold recorded. by rewrite F.
Qed.

Lemma dry_run_batch_is_recorded_witness :
  let o := Options 10 true false false None in
  let c := Counters 0 0 0 0 in
  exists c' w',
    process_photos o Sample.noon [(4, Sample.legacy_row)] c Sample.world1 = (Ret c', w')
    /\ requests w' = requests Sample.world1 /\ photos w' = photos Sample.world1
    /\ bucket w' = bucket Sample.world1
    /\ c_processed c' = c_processed c + Z.of_nat (length [(4, Sample.legacy_row)])
    /\ c_successful c' = c_successful c /\ c_failed c' = c_failed c
    /\ progress_file w'
       = Saved (Progress (c_processed c') (c_successful c) (c_failed c) 4 Sample.noon)
    /\ sleeps w' = sleeps Sample.world1 ++ replicate 1 100
    /\ forall o' startTime' c'',
         c_lastProcessedId c'' = recorded w' ->
         exists a,
           head (drop (length (requests w'))
                   (requests (snd (iteration o' startTime' c'' w'))))
           = Some (PhotosSelectToMigrate (batchSize o') 4, a).
Proof.
  intros o c.
  apply (dry_run_batch_is_recorded o Sample.noon [(4, Sample.legacy_row)]
           (4, Sample.legacy_row) c Sample.world1); reflexivity.
Defined.

(** *** Runs that end early *)

(** X15. [--auth-email] ends every run.  [authenticateUser] is not
    implemented and returns false, so with a non-empty [--auth-email] the
    script exits with code 1 before the progress file is read and before
    any request is made. *)
Theorem auth_email_ends_the_run o fuel w :
  JS.truthy (authEmail o) = true ->
  exists w',
    main o fuel w = (Exit 1, w')
    /\ requests w' = requests w /\ responses w' = responses w
    /\ photos w' = photos w /\ bucket w' = bucket w
    /\ progress_file w' = progress_file w /\ ticks w' = ticks w.
Proof.
  intros Hauth. unfold main, runMigration, authenticateUser, try_catch, log.
  rewrite Hauth. run. eexists. split; [reflexivity |]. by repeat split.
Qed.

Lemma auth_email_ends_the_run_witness :
  let o := Options 10 false false false (Some "admin@example.com") in
  exists w',
    main o 5 Sample.world1 = (Exit 1, w')
    /\ requests w' = requests Sample.world1 /\ responses w' = responses Sample.world1
    /\ photos w' = photos Sample.world1 /\ bucket w' = bucket Sample.world1
    /\ progress_file w' = progress_file Sample.world1 /\ ticks w' = ticks Sample.world1.
Proof.
  intros o. apply (auth_email_ends_the_run o 5 Sample.world1). reflexivity.
Defined.

(** X16. A count that fails reads as nothing to migrate.
    [getTotalPhotosToMigrate] answers a failed count query with 0, so the
    run (without [--auth-email]) ends normally after that one request with
    the line that no photos need migration, whatever the table holds; table,
    bucket and progress file are as they were. *)
Theorem failed_count_ends_the_run o fuel w e rest :
  JS.truthy (authEmail o) = false ->
  responses w = Some e :: rest ->
  exists w',
    main o fuel w = (Ret tt, w')
    /\ made_requests w w' [(PhotosCountToMigrate, Some e)]
    /\ responses w' = rest
    /\ photos w' = photos w /\ bucket w' = bucket w
    /\ progress_file w' = progress_file w
    /\ last (console w') = Some ("[INFO] No photos need migration"%string, None).
Proof.
  intros Hauth Hresp.
  unfold main, runMigration, try_catch. rewrite Hauth. unfold log at 1 2. run.
  match goal with |- context [loadProgress ?w1] =>
    destruct (loadProgress_run w1) as (p & w2 & E & _ & Hst);
    destruct Hst as [M2 F2];
    assert (K : responses w2 = responses w1 /\ photos w2 = photos w1
                /\ bucket w2 = bucket w1)
  end.
  { revert E. unfold loadProgress, log. run.
    destruct (progress_file w); run; by intros [= _ <-]. }
  rewrite E. destruct K as (A2 & P2 & B2). cbn in A2, P2, B2, M2, F2.
  destruct (resume o && _); unfold log, getTotalPhotosToMigrate, try_catch,
    photos_count_to_migrate, Supabase.exchange, answer; run;
    rewrite A2, Hresp; run; (eexists; split; [reflexivity |]); cbn;
    unfold made_requests in *; cbn in *; rewrite M2, app_nil_r, P2, B2, F2, last_snoc;
    by repeat split.
Qed.

Lemma failed_count_ends_the_run_witness :
  let o := Options 10 false true false None in
  let w := set_responses [Some Sample.timeout] Sample.world1 in
  exists w',
    main o 5 w = (Ret tt, w')
    /\ made_requests w w' [(PhotosCountToMigrate, Some Sample.timeout)]
    /\ responses w' = []
    /\ photos w' = photos w /\ bucket w' = bucket w
    /\ progress_file w' = progress_file w
    /\ last (console w') = Some ("[INFO] No photos need migration"%string, None).
Proof.
  intros o w. apply (failed_count_ends_the_run o 5 w Sample.timeout []); reflexivity.
Defined.

End MigrationStepFacts.

(** ** The names of the types *)

Section TypeNameFacts.

Import TypeNames.

Lemma word_cases c :
  (if word c then True else lower c = false)
  /\ word (toUpperCase c) = word c
  /\ lower (toUpperCase c) = false
  /\ (lower c = false -> toUpperCase c = c)
  /\ (Ascii.eqb c "-" = true -> word c = false)
  /\ (Ascii.eqb (toUpperCase c) "-" = Ascii.eqb c "-")
  /\ (Ascii.eqb (toUpperCase c) " " = Ascii.eqb c " ")
  /\ (lower c = true -> upper (toUpperCase c) = true).
Proof.
  destruct c as [[] [] [] [] [] [] [] []]; vm_compute; repeat split; congruence.
Qed.

Lemma length_capitalize inside s : String.length (capitalize inside s) = String.length s.
Proof. revert inside. induction s as [| c s IH]; intros inside; cbn; [done | by rewrite IH]. Qed.

Lemma length_replace_hyphens s : String.length (replace_hyphens s) = String.length s.
Proof. induction s as [| c s IH]; cbn; [done | by rewrite IH]. Qed.

Lemma capitalize_capitalized inside s : capitalized inside (capitalize inside s) = true.
Proof.
  revert inside. induction s as [| c s IH]; intros inside; cbn [capitalize capitalized];
    [done |].
  destruct (word_cases c) as (Hw & Hwu & Hlu & _).
  destruct (word c) eqn:Ew, inside; cbn [andb negb orb];
    rewrite ?Hwu, ?Ew, ?Hlu, ?Hw, IH; done.
Qed.

Lemma capitalize_hyphenated inside s :
  hyphenated (capitalize inside (replace_hyphens s)) = false.
Proof.
  revert inside. induction s as [| c s IH]; intros inside;
    cbn [capitalize replace_hyphens hyphenated]; [done |].
  rewrite IH, orb_false_r.
  destruct (Ascii.eqb c "-") eqn:Ec; [done |].
  destruct (word c && negb inside); [| done].
  destruct (word_cases c) as (_ & _ & _ & _ & _ & Hhu & _). by rewrite Hhu.
Qed.

(** The fallback leaves its own results as they are. *)
Lemma capitalize_fixed inside s :
  hyphenated s = false -> capitalized inside s = true ->
  capitalize inside (replace_hyphens s) = s.
Proof.
  revert inside. induction s as [| c s IH]; intros inside;
    cbn [capitalize replace_hyphens hyphenated capitalized]; [done |].
  intros [Hc Hs]%orb_false_elim [Hi Hr]%andb_prop. rewrite Hc, (IH _ Hs Hr).
  destruct (word_cases c) as (_ & _ & _ & Hu & _).
  destruct inside, (word c); cbn [andb negb orb] in *; try done.
  rewrite Hu; [done |]. by destruct (lower c).
Qed.

(** What the replacements give and would have left as it is, is what
    they were given. *)
Lemma capitalize_untouched inside s out :
  capitalize inside (replace_hyphens s) = out -> untouched inside out = true -> s = out.
Proof.
  revert inside out. induction s as [| c s IH]; intros inside [| o out];
    cbn [capitalize replace_hyphens untouched]; try done.
  intros [= Ho Hout] [[Hsp Hup]%andb_prop Hrest]%andb_prop.
  destruct (word_cases c) as (Hw & Hwu & Hlu & Hu & Hh & Hhu & Hsu & Hlow).
  destruct (Ascii.eqb c "-") eqn:Ec.
  { exfalso. rewrite (eq_refl : word " " = false) in Ho. by subst o. }
  assert (o = c) as ->.
  { destruct (word c) eqn:Ew, inside; cbn [andb negb orb] in *; try done.
    subst o. apply Hu. destruct (lower c); [| done].
    rewrite Hlow in Hup; done. }
  f_equal. by apply (IH (word c)).
Qed.

(** Every key [typeMap[type]] finds has a hyphen, or is such a string. *)
Lemma keys_not_made :
  forallb (fun k => hyphenated k || untouched false k) (entries.*1 ++ inherited) = true.
Proof. reflexivity. Qed.

Lemma found_is_key type :
  is_Some (typeMap !! type) \/ type ∈ inherited ->
  type ∈ entries.*1 ++ inherited.
Proof.
  intros [[v Hv] | H]; apply elem_of_app; [left | by right].
  apply list_elem_of_fmap. exists (type, v). split; [done |].
  by apply elem_of_list_to_map_2.
Qed.

(** X17. Types outside the table are shown capitalised.  For a non-empty
    type that is neither a key of [typeMap] nor a property name inherited
    from [Object.prototype], [formatTypeName] returns a string of the same
    length, without hyphen, in which no lower-case letter starts a word,
    and which [formatTypeName] shows as it is. *)
Theorem formatTypeName_capitalises type :
  type <> EmptyString -> typeMap !! type = None -> type ∉ inherited ->
  exists name,
    formatTypeName (Some type) = Name name
    /\ String.length name = String.length type
    /\ hyphenated name = false
    /\ capitalized false name = true
    /\ formatTypeName (Some name) = Name name.
Proof.
  intros Hne Hown Hinh. set (name := capitalize false (replace_hyphens type)).
  assert (Hlen : String.length name = String.length type)
    by (unfold name; by rewrite length_capitalize, length_replace_hyphens).
  assert (Hhy : hyphenated name = false) by apply capitalize_hyphenated.
  assert (Hcap : capitalized false name = true) by apply capitalize_capitalized.
  assert (Hkey : name ∉ entries.*1 ++ inherited).
  { intros Hin.
    pose proof (proj1 (forallb_forall _ _) keys_not_made name) as Hk. cbn beta in Hk.
    rewrite <- list_elem_of_In in Hk. specialize (Hk Hin).
    rewrite Hhy in Hk. cbn [orb] in Hk.
    assert (type = name) as Heq by (by apply (capitalize_untouched false)).
    rewrite <- Heq in Hin. apply elem_of_app in Hin as [Hin | Hin]; [| done].
    apply not_elem_of_list_to_map_2 in Hown. done. }
  assert (Hfmt : forall t, t <> EmptyString -> typeMap !! t = None -> t ∉ inherited ->
                   formatTypeName (Some t) = Name (capitalize false (replace_hyphens t))).
  { intros t Ht Ho Hi. unfold formatTypeName. destruct t as [| c t]; [done |].
    cbn [JS.truthy negb]. cbv zeta. cbn [default from_option id]. rewrite Ho.
    by rewrite bool_decide_eq_false_2. }
  exists name. split; [by apply Hfmt |]. repeat (split; [done |]).
  rewrite Hfmt.
  - f_equal. by apply capitalize_fixed.
  - destruct name; [destruct type; done | done].
  - destruct (typeMap !! name) eqn:E; [| done].
    destruct Hkey. apply found_is_key. left. by eexists.
  - intros Hin. destruct Hkey. apply found_is_key. by right.
Qed.

Lemma formatTypeName_capitalises_witness :
  exists name,
    formatTypeName (Some "lead-seals and-buttons"%string) = Name name
    /\ String.length name = String.length "lead-seals and-buttons"
    /\ hyphenated name = false
    /\ capitalized false name = true
    /\ formatTypeName (Some name) = Name name.
Proof.
  apply (formatTypeName_capitalises "lead-seals and-buttons");
    [discriminate | reflexivity | by vm_compute; intros H; in_list H].
Defined.

End TypeNameFacts.

(** ** The view, the map and the URL *)

Section ViewFacts.

Import MapComponent MapLocation.

(** What [handleJumpToMap] leaves in the URL. *)
Lemma handleJumpToMap_params photo lat lng s :
  Table.lat photo = Some lat -> Table.lng photo = Some lng ->
  exists s',
    ListView.handleJumpToMap photo s = (Ret tt, s')
    /\ App.currentView s' = "map"%string
    /\ get_param "view" (App.location s') = Some "map"%string
    /\ get_param "lat" (App.location s') = Some (toFixed6 lat)
    /\ get_param "lng" (App.location s') = Some (toFixed6 lng)
    /\ get_param "zoom" (App.location s') = Some "18"%string
    /\ forall name,
         name <> "view"%string -> name <> "lat"%string -> name <> "lng"%string ->
         name <> "zoom"%string ->
         get_param name (App.location s') = get_param name (App.location s).
Proof.
  intros Hlat Hlng. unfold ListView.handleJumpToMap, App.handleViewChange.
  rewrite Hlat, Hlng. cbv zeta. cbn [App.location App.currentView].
  eexists. split; [reflexivity |]. cbn [App.location App.currentView].
  split; [done |].
  repeat split.
  - by rewrite 3!get_set_other_param, get_set_param by done.
  - by rewrite 2!get_set_other_param, get_set_param by done.
  - by rewrite get_set_other_param, get_set_param by done.
  - by rewrite get_set_param.
  - intros name H1 H2 H3 H4. by rewrite 5!get_set_other_param by done.
Qed.

(** X18. The jump to the map opens the map at the photo.  For a photo
    with coordinates of magnitude below 10^21, [handleJumpToMap] switches
    the view to the map and leaves a URL from which the app mounts in the
    map view and the map component, whatever geolocation does, opens the
    map at the coordinates of the photo rounded to six decimal places, at
    zoom 18, and centres it there when a position was obtained; other
    parameters of the URL are kept. *)
Theorem jump_to_map_opens_at_the_photo photo lat lng s geo :
  Table.lat photo = Some lat -> Table.lng photo = Some lng ->
  (Qabs lat < inject_Z (10 ^ 21))%Q -> (Qabs lng < inject_Z (10 ^ 21))%Q ->
  exists s' a b,
    ListView.handleJumpToMap photo s = (Ret tt, s')
    /\ App.currentView s' = "map"%string
    /\ App.currentView (App.mount (App.location s')) = "map"%string
    /\ (a == round6 lat)%Q /\ (b == round6 lng)%Q
    /\ (let m := initialize geo (App.location s') in
        isLoading m = false
        /\ MapContainer m = (Finite a, Finite b, Finite 18)
        /\ (showLocation m = true ->
            CenterOnLocation m = Some (Finite a, Finite b, Finite 18)))
    /\ forall name,
         name <> "view"%string -> name <> "lat"%string -> name <> "lng"%string ->
         name <> "zoom"%string ->
         get_param name (App.location s') = get_param name (App.location s).
Proof.
  intros Hlat Hlng Blat Blng.
  destruct (handleJumpToMap_params photo lat lng s Hlat Hlng)
    as (s' & E & Hview & Pview & Plat & Plng & Pzoom & Pother).
  destruct (parseFloat_toFixed6 lat Blat) as (a & Ea & Ha).
  destruct (parseFloat_toFixed6 lng Blng) as (b & Eb & Hb).
  exists s', a, b. split; [done |]. split; [done |].
  split; [unfold App.mount; by rewrite Pview |].
  split; [done |]. split; [done |]. split; [| done].
  assert (Hread : readURLParams (App.location s')
                  = Some (UrlParams (Finite a) (Finite b) (Finite 18))).
  { unfold readURLParams. cbv zeta. by rewrite Plat, Plng, Pzoom, Ea, Eb. }
  unfold initialize, fallback, MapContainer, CenterOnLocation. cbv zeta.
  rewrite Hread. by destruct geo.
Qed.

Lemma jump_to_map_opens_at_the_photo_witness :
  let s := App.State "list" [("view", "list"); ("layer", "ortho")]%string in
  exists s' a b,
    ListView.handleJumpToMap Sample.legacy_row s = (Ret tt, s')
    /\ App.currentView s' = "map"%string
    /\ App.currentView (App.mount (App.location s')) = "map"%string
    /\ (a == round6 (58601 # 1000))%Q /\ (b == round6 (24998 # 1000))%Q
    /\ (let m := initialize (PositionError "User denied Geolocation") (App.location s') in
        isLoading m = false
        /\ MapContainer m = (Finite a, Finite b, Finite 18)
        /\ (showLocation m = true ->
            CenterOnLocation m = Some (Finite a, Finite b, Finite 18)))
    /\ forall name,
         name <> "view"%string -> name <> "lat"%string -> name <> "lng"%string ->
         name <> "zoom"%string ->
         get_param name (App.location s') = get_param name (App.location s).
Proof.
  intros s.
  apply (jump_to_map_opens_at_the_photo Sample.legacy_row (58601 # 1000) (24998 # 1000)
           s (PositionError "User denied Geolocation")); reflexivity.
Defined.

(** X19. The view and the position of the map do not disturb each other
    in the URL.  Changing the view leaves what [readURLParams] reads;
    [updateURL] leaves the view the app mounts in; and after a change to
    the map or the list view the app mounts in that view. *)
Theorem view_and_position_share_the_url view s lat lng zoom :
  readURLParams (App.location (App.handleViewChange view s))
  = readURLParams (App.location s)
  /\ App.currentView (App.mount (updateURL lat lng zoom (App.location s)))
     = App.currentView (App.mount (App.location s))
  /\ App.currentView (App.mount (App.location (App.handleViewChange view s)))
     = (if String.eqb view "map" || String.eqb view "list" then view else "list"%string).
Proof.
  split; [| split].
  - unfold readURLParams, App.handleViewChange. cbv zeta. cbn [App.location].
    by rewrite 3!get_set_other_param by done.
  - assert (H : get_param "view" (updateURL lat lng zoom (App.location s))
                = get_param "view" (App.location s))
      by (unfold updateURL; cbv zeta; by rewrite 3!get_set_other_param by done).
    unfold App.mount. cbv zeta. rewrite H.
    destruct (get_param "view" (App.location s)) as [v |]; [| done].
    by destruct (JS.truthy (Some v) && _).
  - unfold App.mount, App.handleViewChange. cbv zeta. cbn [App.location].
    rewrite get_set_param.
    destruct (String.eqb view "map" || String.eqb view "list") eqn:E.
    + assert (JS.truthy (Some view) = true) as ->; [| done].
      destruct view; [| done]. discriminate.
    + by rewrite andb_false_r.
Qed.

End ViewFacts.

(** ** The list of photos of the app *)

Section PhotosContextFacts.

Import PhotoReads Terms.

(** A page of thumbnails from a backend that fails nothing. *)
Lemma loadPhotosWithThumbnails_healthy limit offset w :
  responses w = [] ->
  exists r w',
    loadPhotosWithThumbnails limit offset w = (Ret r, w')
    /\ read_only w w' /\ responses w' = []
    /\ success r = true
    /\ data r
       = Some (thumbnail_photo
                 <$> RegenerateThumbnails.range offset (offset + limit - 1)
                       (latest_first (photos w))).
Proof.
  intros Hnil.
  destruct (loadPhotosWithThumbnails_run limit offset w) as (r & w' & E & R & A & H).
  exists r, w'. rewrite Hnil in A. repeat (split; [done |]).
  destruct (success r); [done |].
  destruct H as (_ & e & _ & H). by rewrite Hnil in H.
Qed.

Lemma loadPhotos_page limit offset s w :
  responses w = [] ->
  let page :=
    thumbnail_photo
      <$> RegenerateThumbnails.range offset (offset + limit - 1) (latest_first (photos w)) in
  exists w',
    PhotosContext.loadPhotos limit offset true s w
    = (Ret (PhotosContext.State
              (if offset =? 0 then page else PhotosContext.photos s ++ page)
              false None (Z.of_nat (length page) =? limit)
              (offset + Z.of_nat (length page))), w')
    /\ read_only w w' /\ responses w' = [].
Proof.
  intros Hnil page.
  destruct (loadPhotosWithThumbnails_healthy limit offset w Hnil)
    as (r & w' & E & R & A & Hs & Hd).
  exists w'. unfold PhotosContext.loadPhotos, try_catch. cbv zeta.
  unfold mbind, mret, Async_bind, Async_ret. rewrite E, Hs, Hd. by cbn.
Qed.

(** One more page. *)
Lemma loadMorePhotos_page k s w :
  (1 <= k)%nat -> responses w = [] ->
  pages_loaded k (latest_first (photos w)) s ->
  exists s' w',
    PhotosContext.loadMorePhotos s w = (Ret s', w')
    /\ read_only w w' /\ responses w' = []
    /\ pages_loaded (S k) (latest_first (photos w)) s'.
Proof.
  intros Hk Hnil (Hp & He & Hl & Hm & Ho). set (L := latest_first (photos w)) in *.
  unfold PhotosContext.loadMorePhotos. rewrite Hl, Hm. cbn [negb andb].
  destruct (decide (50 * k <= length L)%nat) as [Hle | Hgt].
  - rewrite bool_decide_eq_true_2 by done.
    destruct (loadPhotos_page 50 (PhotosContext.currentOffset s) s w Hnil)
      as (w' & -> & R & A).
    eexists _, w'. split; [reflexivity |]. repeat (split; [done |]).
    fold L. rewrite Ho. replace (Nat.min (50 * k) (length L)) with (50 * k)%nat by lia.
    unfold RegenerateThumbnails.range.
    replace (Z.of_nat (50 * k) + 50 - 1 - Z.of_nat (50 * k) + 1) with 50%Z by lia.
    rewrite Nat2Z.id. change (Z.to_nat 50) with 50%nat.
    assert (Hz : (Z.of_nat (50 * k) =? 0) = false) by (apply Z.eqb_neq; lia).
    rewrite Hz, length_fmap, length_take, length_drop.
    unfold pages_loaded. cbn [PhotosContext.photos PhotosContext.error
      PhotosContext.loading PhotosContext.hasMore PhotosContext.currentOffset].
    split; [| split; [done | split; [done | split]]].
    + rewrite Hp, <- fmap_app, take_take_drop. do 2 f_equal. lia.
    + destruct (decide (50 * S k <= length L)%nat).
      * rewrite bool_decide_eq_true_2 by done. apply Z.eqb_eq. lia.
      * rewrite bool_decide_eq_false_2 by done. apply Z.eqb_neq. lia.
    + lia.
  - rewrite bool_decide_eq_false_2 by done. exists s, w.
    split; [reflexivity |]. split; [apply read_only_refl |]. split; [done |].
    unfold pages_loaded. fold L. rewrite Hp, He, Hl, Hm, Ho.
    rewrite !take_ge by lia. rewrite !bool_decide_eq_false_2 by lia.
    repeat split; try done. f_equal. lia.
Qed.

Lemma scrolled_pages n :
  forall k s w,
    (1 <= k)%nat -> responses w = [] ->
    pages_loaded k (latest_first (photos w)) s ->
    exists s' w',
      scrolled n s w = (Ret s', w')
      /\ read_only w w' /\ responses w' = []
      /\ pages_loaded (k + n) (latest_first (photos w)) s'.
Proof.
  induction n as [| n IH]; intros k s w Hk Hnil Hpages.
  - exists s, w. rewrite Nat.add_0_r. split; [done |].
    split; [apply read_only_refl | done].
  - cbn [scrolled]. unfold mbind, Async_bind.
    destruct (loadMorePhotos_page k s w Hk Hnil Hpages) as (s1 & w1 & -> & R1 & A1 & P1).
    assert (HL : latest_first (photos w1) = latest_first (photos w))
      by (f_equal; apply R1).
    rewrite <- HL in P1.
    destruct (IH (S k) s1 w1) as (s2 & w2 & -> & R2 & A2 & P2); [lia | done | done |].
    exists s2, w2. split; [done |]. split; [by eapply read_only_trans |].
    split; [done |]. rewrite HL in P2. by replace (k + S n)%nat with (S k + n)%nat by lia.
Qed.

(** X20. Scrolling shows every photo once.  On a backend that fails
    nothing, after the load at the mount (for a signed-in user) and [n]
    calls of [loadMorePhotos] the list holds the first 50 (n + 1) photos of
    the table, latest first, [hasMore] tells whether the table holds at
    least that many, and nothing was changed at the backend; once 50 (n + 1)
    exceeds the number of photos, the list holds every photo of the table
    exactly once. *)
Theorem scrolling_shows_every_photo_once n user w :
  is_Some user -> responses w = [] ->
  exists s w',
    (PhotosContext.mount user PhotosContext.initial ≫= scrolled n) w = (Ret s, w')
    /\ read_only w w'
    /\ pages_loaded (S n) (latest_first (photos w)) s
    /\ Sorted created_ge (latest_first (photos w))
    /\ ((size (photos w) < 50 * S n)%nat ->
        PhotosContext.hasMore s = false
        /\ NoDup (photo_id <$> PhotosContext.photos s)
        /\ (forall i, i ∈ photo_id <$> PhotosContext.photos s <-> is_Some (photos w !! i))).
Proof.
  intros [u ->] Hnil. set (L := latest_first (photos w)).
  unfold mbind at 1. unfold Async_bind. cbn [PhotosContext.mount].
  destruct (loadPhotos_page 50 0 PhotosContext.initial w Hnil) as (w1 & -> & R1 & A1).
  assert (HL : latest_first (photos w1) = L) by (unfold L; f_equal; apply R1).
  assert (P1 : pages_loaded 1 L
                 (PhotosContext.State
                    (thumbnail_photo <$> RegenerateThumbnails.range 0 (0 + 50 - 1) L)
                    false None
                    (Z.of_nat (length (thumbnail_photo
                                         <$> RegenerateThumbnails.range 0 (0 + 50 - 1) L))
                     =? 50)
                    (0 + Z.of_nat (length (thumbnail_photo
                                             <$> RegenerateThumbnails.range 0 (0 + 50 - 1) L))))).
  { unfold pages_loaded, RegenerateThumbnails.range.
    cbn [PhotosContext.photos PhotosContext.error PhotosContext.loading
         PhotosContext.hasMore PhotosContext.currentOffset].
    change (Z.to_nat (0 + 50 - 1 - 0 + 1)) with 50%nat. change (Z.to_nat 0) with 0%nat.
    rewrite drop_0, length_fmap, length_take. change (50 * 1)%nat with 50%nat.
    repeat split; try done.
    - destruct (decide (50 <= length L)%nat).
      + rewrite bool_decide_eq_true_2 by done. apply Z.eqb_eq. lia.
      + rewrite bool_decide_eq_false_2 by done. apply Z.eqb_neq. lia. }
  change (Z.eqb 0 0) with true. cbv iota. fold L.
  match type of P1 with pages_loaded _ _ ?s1 =>
    assert (P1' : pages_loaded 1 (latest_first (photos w1)) s1) by (by rewrite HL)
  end.
  destruct (scrolled_pages n 1 _ w1 (le_n 1) A1 P1') as (s & w' & -> & R2 & A2 & P2).
  rewrite HL in P2. exists s, w'. split; [done |].
  split; [by eapply read_only_trans |]. split; [done |].
  assert (Hperm : L ≡ₚ map_to_list (photos w)) by apply merge_sort_Permutation.
  split; [apply Sorted_merge_sort, created_ge_total |].
  intros Hall. destruct P2 as (Hp & _ & _ & Hm & _).
  assert (Hlen : length L = size (photos w)) by apply length_latest_first.
  rewrite take_ge in Hp by (cbn [Nat.add] in *; lia).
  assert (Hids : photo_id <$> PhotosContext.photos s = L.*1).
  { rewrite Hp, <- list_fmap_compose. done. }
  split; [rewrite Hm; apply bool_decide_eq_false_2; cbn [Nat.add] in *; lia |].
  rewrite Hids. split; [rewrite Hperm; apply NoDup_fst_map_to_list |].
  intros i. rewrite list_elem_of_fmap. split.
  - intros ([i' c] & -> & Hin). rewrite Hperm in Hin.
    apply elem_of_map_to_list in Hin. by eexists.
  - intros [c Hc]. exists (i, c). split; [done |]. rewrite Hperm.
    by apply elem_of_map_to_list.
Qed.

Lemma scrolling_shows_every_photo_once_witness :
  exists s w',
    (PhotosContext.mount Sample.administrator PhotosContext.initial ≫= scrolled 2)
      Sample.world1 = (Ret s, w')
    /\ read_only Sample.world1 w'
    /\ pages_loaded 3 (latest_first (photos Sample.world1)) s
    /\ Sorted created_ge (latest_first (photos Sample.world1))
    /\ ((size (photos Sample.world1) < 50 * 3)%nat ->
        PhotosContext.hasMore s = false
        /\ NoDup (photo_id <$> PhotosContext.photos s)
        /\ (forall i, i ∈ photo_id <$> PhotosContext.photos s
                      <-> is_Some (photos Sample.world1 !! i))).
Proof.
  apply (scrolling_shows_every_photo_once 2 Sample.administrator Sample.world1);
    [by eexists | reflexivity].
Defined.

(** *** Edits through the provider *)

Lemma not_null_edit t values c :
  Forall (fun a => match a with
                   | Table.SetType _ | Table.SetName _ | Table.SetDescription _ => True
                   | _ => False
                   end) values ->
  Table.not_null (Table.touch t (Table.patch values c)) = Table.not_null c.
Proof.
  intros H. revert c. induction H as [| a values Ha H IH]; intros c; [by destruct c |].
  cbn [Table.patch fold_left]. change (fold_left _ values ?c') with (Table.patch values c').
  rewrite IH. by destruct a, c.
Qed.

(** An update of the display columns of a stored row, by a backend that
    fails nothing. *)
Lemma photos_update_healthy values photoId c w :
  Forall (fun a => match a with
                   | Table.SetType _ | Table.SetName _ | Table.SetDescription _ => True
                   | _ => False
                   end) values ->
  responses w = [] -> photos w !! photoId = Some c -> Table.not_null c = true ->
  exists w' t,
    Supabase.photos_update values photoId w
    = (Ret (Supabase.Response (Some [(photoId, Table.touch t (Table.patch values c))]) None),
       w')
    /\ photos w' = <[photoId := Table.touch t (Table.patch values c)]> (photos w)
    /\ bucket w' = bucket w /\ responses w' = [].
Proof.
  intros Hv Hnil Hc Hnn. unfold Supabase.photos_update, Supabase.exchange, answer.
  unfold mbind, mret, Async_bind, Async_ret, now.
  cbn -[Table.not_null Table.touch Table.patch]. rewrite Hnil.
  cbn -[Table.not_null Table.touch Table.patch]. rewrite Hc.
  cbn -[Table.not_null Table.touch Table.patch].
  rewrite (not_null_edit _ _ _ Hv), Hnn.
  cbn -[Table.not_null Table.touch Table.patch].
  eexists _, _. split; [reflexivity |]. by repeat split.
Qed.

(** X21. After an edit the list shows what the table holds.  For an
    administrator, a backend that fails nothing and a photo whose row is in
    the table, [updateType] leaves the new type in the row and in every
    entry of the list with that id; [updateDetails] leaves in the row the
    name and the description with empty strings turned to null, and in the
    list what it was given; both return the updated row and leave the other
    entries of the list as they were. *)
Theorem edits_reach_list_and_table photoId newType name description user s c w :
  Utils.checkAdminPermission user = true -> responses w = [] ->
  photos w !! photoId = Some c -> Table.not_null c = true ->
  (exists row s' w',
      PhotosContext.updateType photoId newType user s w = (Ret (Some (photoId, row), s'), w')
      /\ photos w' !! photoId = Some row
      /\ Table.type row = newType
      /\ length (PhotosContext.photos s') = length (PhotosContext.photos s)
      /\ forall i p', PhotosContext.photos s' !! i = Some p' ->
           exists p, PhotosContext.photos s !! i = Some p
             /\ PhotoReads.photo_id p' = PhotoReads.photo_id p
             /\ if PhotoReads.photo_id p =? photoId
                then Table.type (PhotoReads.photo_row p') = Table.type row
                else p' = p)
  /\ (exists row s' w',
         PhotosContext.updateDetails photoId name description user s w
         = (Ret (Some (photoId, row), s'), w')
         /\ photos w' !! photoId = Some row
         /\ Table.name row = JS.or_null name
         /\ Table.description row = JS.or_null description
         /\ length (PhotosContext.photos s') = length (PhotosContext.photos s)
         /\ forall i p', PhotosContext.photos s' !! i = Some p' ->
              exists p, PhotosContext.photos s !! i = Some p
                /\ PhotoReads.photo_id p' = PhotoReads.photo_id p
                /\ if PhotoReads.photo_id p =? photoId
                   then Table.name (PhotoReads.photo_row p') = name
                        /\ Table.description (PhotoReads.photo_row p') = description
                   else p' = p).
Proof.
  intros Hadmin Hnil Hc Hnn. split.
  - unfold PhotosContext.updateType, PhotoService.updatePhotoType, Utils.requireAdmin,
      try_catch, PhotoService.first.
    rewrite Hadmin. unfold mbind, mret, Async_bind, Async_ret, throw.
    cbn -[Supabase.photos_update].
    destruct (photos_update_healthy [Table.SetType newType] photoId c w)
      as (w' & t & -> & P & B & A); try done; [by repeat constructor |].
    cbn. eexists _, _, _. split; [reflexivity |]. cbn.
    split; [by rewrite P, lookup_insert_eq |]. split; [by destruct c |].
    split; [by rewrite length_fmap |].
    intros i p' Hi. rewrite list_lookup_fmap in Hi.
    destruct (PhotosContext.photos s !! i) as [p |]; [| done].
    injection Hi as <-. exists p. split; [done |].
    destruct (PhotoReads.photo_id p =? photoId); [| done].
    split; [done |]. cbn. by destruct c, p as [? []].
  - unfold PhotosContext.updateDetails, PhotoService.updatePhotoDetails,
      Utils.requireAdmin, try_catch, PhotoService.first.
    rewrite Hadmin. unfold mbind, mret, Async_bind, Async_ret, throw.
    cbn -[Supabase.photos_update].
    destruct (photos_update_healthy
                [Table.SetName (JS.or_null name); Table.SetDescription (JS.or_null description)]
                photoId c w)
      as (w' & t & -> & P & B & A); try done; [by repeat constructor |].
    cbn. eexists _, _, _. split; [reflexivity |]. cbn.
    split; [by rewrite P, lookup_insert_eq |]. split; [by destruct c |].
    split; [by destruct c |].
    split; [by rewrite length_fmap |].
    intros i p' Hi. rewrite list_lookup_fmap in Hi.
    destruct (PhotosContext.photos s !! i) as [p |]; [| done].
    injection Hi as <-. exists p. split; [done |].
    destruct (PhotoReads.photo_id p =? photoId); [| done].
    split; [done |]. cbn. by destruct p as [? []].
Qed.

Lemma edits_reach_list_and_table_witness :
  let s := PhotosContext.State [Terms.thumbnail_photo (4, Sample.legacy_row)]
             false None false 1 in
  (exists row s' w',
      PhotosContext.updateType 4 (Some "relics"%string) Sample.administrator s Sample.world1
      = (Ret (Some (4, row), s'), w')
      /\ photos w' !! 4 = Some row
      /\ Table.type row = Some "relics"%string
      /\ length (PhotosContext.photos s') = length (PhotosContext.photos s)
      /\ forall i p', PhotosContext.photos s' !! i = Some p' ->
           exists p, PhotosContext.photos s !! i = Some p
             /\ PhotoReads.photo_id p' = PhotoReads.photo_id p
             /\ if PhotoReads.photo_id p =? 4
                then Table.type (PhotoReads.photo_row p') = Table.type row
                else p' = p)
  /\ (exists row s' w',
         PhotosContext.updateDetails 4 (Some "Denar"%string) (Some EmptyString)
           Sample.administrator s Sample.world1
         = (Ret (Some (4, row), s'), w')
         /\ photos w' !! 4 = Some row
         /\ Table.name row = JS.or_null (Some "Denar"%string)
         /\ Table.description row = JS.or_null (Some EmptyString)
         /\ length (PhotosContext.photos s') = length (PhotosContext.photos s)
         /\ forall i p', PhotosContext.photos s' !! i = Some p' ->
              exists p, PhotosContext.photos s !! i = Some p
                /\ PhotoReads.photo_id p' = PhotoReads.photo_id p
                /\ if PhotoReads.photo_id p =? 4
                   then Table.name (PhotoReads.photo_row p') = Some "Denar"%string
                        /\ Table.description (PhotoReads.photo_row p') = Some EmptyString
                   else p' = p).
Proof.
  intros s.
  apply (edits_reach_list_and_table 4 (Some "relics"%string) (Some "Denar"%string)
           (Some EmptyString) Sample.administrator s Sample.legacy_row Sample.world1);
    reflexivity.
Defined.

(** X22. An edit or a removal of a photo that is not in the table reports
    success.  For an administrator and a backend that fails nothing,
    [updatePhotoType], [updatePhotoDetails] and [deletePhotoFromDatabase]
    of an id without row settle with [success: true] and no data, and leave
    the table and the bucket as they were; through the provider the edit
    returns no row and the removal returns true. *)
Theorem missing_photo_reports_success photoId newType name description user s w :
  Utils.checkAdminPermission user = true -> responses w = [] ->
  photos w !! photoId = None ->
  (exists w',
      PhotoService.updatePhotoType photoId newType user w
      = (Ret (PhotoService.Result true None None), w')
      /\ photos w' = photos w /\ bucket w' = bucket w)
  /\ (exists w',
         PhotoService.updatePhotoDetails photoId name description user w
         = (Ret (PhotoService.Result true None None), w')
         /\ photos w' = photos w /\ bucket w' = bucket w)
  /\ (exists w',
         PhotoService.deletePhotoFromDatabase photoId user w
         = (Ret (PhotoService.Result true None None), w')
         /\ photos w' = photos w /\ bucket w' = bucket w)
  /\ (exists s' w', PhotosContext.updateType photoId newType user s w = (Ret (None, s'), w'))
  /\ (exists s' w', PhotosContext.deletePhoto photoId user s w = (Ret (true, s'), w')).
Proof.
  intros Hadmin Hnil Hnone.
  assert (Hdel : delete photoId (photos w) = photos w) by (by apply delete_id).
  repeat split.
  - unfold PhotoService.updatePhotoType, Utils.requireAdmin, try_catch,
      PhotoService.first, Supabase.photos_update.
    rewrite Hadmin. answered Hnil. rewrite Hnone. run.
    eexists. split; [reflexivity |]. done.
  - unfold PhotoService.updatePhotoDetails, Utils.requireAdmin, try_catch,
      PhotoService.first, Supabase.photos_update.
    rewrite Hadmin. answered Hnil. rewrite Hnone. run.
    eexists. split; [reflexivity |]. done.
  - unfold PhotoService.deletePhotoFromDatabase, Utils.requireAdmin, try_catch,
      Supabase.photos_select_storage_path, Supabase.photos_delete.
    rewrite Hadmin. answered Hnil. rewrite Hnone. run. rewrite Hnil. run.
    eexists. split; [reflexivity |]. cbn. by rewrite Hdel.
  - unfold PhotosContext.updateType, PhotoService.updatePhotoType, Utils.requireAdmin,
      try_catch, PhotoService.first, Supabase.photos_update.
    rewrite Hadmin. answered Hnil. rewrite Hnone. run. by eexists _, _.
  - unfold PhotosContext.deletePhoto, PhotoService.deletePhotoFromDatabase,
      Utils.requireAdmin, try_catch,
      Supabase.photos_select_storage_path, Supabase.photos_delete.
    rewrite Hadmin. answered Hnil. rewrite Hnone. run. rewrite Hnil. run.
    by eexists _, _.
Qed.

Lemma missing_photo_reports_success_witness :
  let s := PhotosContext.State [Terms.thumbnail_photo (9, Sample.legacy_row)]
             false None false 1 in
  (exists w',
      PhotoService.updatePhotoType 9 (Some "relics"%string) Sample.administrator
        Sample.world1
      = (Ret (PhotoService.Result true None None), w')
      /\ photos w' = photos Sample.world1 /\ bucket w' = bucket Sample.world1)
  /\ (exists w',
         PhotoService.updatePhotoDetails 9 None None Sample.administrator Sample.world1
         = (Ret (PhotoService.Result true None None), w')
         /\ photos w' = photos Sample.world1 /\ bucket w' = bucket Sample.world1)
  /\ (exists w',
         PhotoService.deletePhotoFromDatabase 9 Sample.administrator Sample.world1
         = (Ret (PhotoService.Result true None None), w')
         /\ photos w' = photos Sample.world1 /\ bucket w' = bucket Sample.world1)
  /\ (exists s' w',
         PhotosContext.updateType 9 (Some "relics"%string) Sample.administrator s
           Sample.world1 = (Ret (None, s'), w'))
  /\ (exists s' w',
         PhotosContext.deletePhoto 9 Sample.administrator s Sample.world1
         = (Ret (true, s'), w')).
Proof.
  intros s.
  apply (missing_photo_reports_success 9 (Some "relics"%string) None None
           Sample.administrator s Sample.world1); reflexivity.
Defined.

End PhotosContextFacts.

(** ** The preview and the modal *)

Section ModalFacts.

Import PhotoReads PhotoModal.

Lemma gt_cases b a :
  (PhotoHoverPreview.gt b a = true /\ (a < b)%Q)
  \/ (PhotoHoverPreview.gt b a = false /\ (b <= a)%Q).
Proof.
  unfold PhotoHoverPreview.gt. destruct (Qle_bool b a) eqn:E.
  - right. split; [done |]. by apply Qle_bool_iff.
  - left. split; [done |]. apply Qnot_le_lt. intros H. apply Qle_bool_iff in H. congruence.
Qed.

(** X23. The preview stays in the window and off the cursor.  With the
    cursor inside a window of at least 542 by 430 pixels, the box of 256 by
    200 pixels that [PhotoHoverPreview] positions lies inside the window,
    and in both directions it is 15 pixels away from the cursor. *)
Theorem preview_stays_in_the_window m vw vh :
  (0 <= PhotoHoverPreview.x m)%Q -> (PhotoHoverPreview.x m <= vw)%Q ->
  (0 <= PhotoHoverPreview.y m)%Q -> (PhotoHoverPreview.y m <= vh)%Q ->
  (542 <= vw)%Q -> (430 <= vh)%Q ->
  let p := PhotoHoverPreview.position m vw vh in
  (0 <= PhotoHoverPreview.x p)%Q /\ (PhotoHoverPreview.x p + 256 <= vw)%Q
  /\ (0 <= PhotoHoverPreview.y p)%Q /\ (PhotoHoverPreview.y p + 200 <= vh)%Q
  /\ ((PhotoHoverPreview.x p == PhotoHoverPreview.x m + 15)%Q
      \/ (PhotoHoverPreview.x p + 256 == PhotoHoverPreview.x m - 15)%Q)
  /\ ((PhotoHoverPreview.y p == PhotoHoverPreview.y m + 15)%Q
      \/ (PhotoHoverPreview.y p + 200 == PhotoHoverPreview.y m - 15)%Q).
Proof.
  intros Hx0 Hx1 Hy0 Hy1 Hw Hh. unfold PhotoHoverPreview.position. cbv zeta.
  unfold PhotoHoverPreview.offsetX, PhotoHoverPreview.offsetY,
    PhotoHoverPreview.previewWidth, PhotoHoverPreview.previewHeight.
  cbn [PhotoHoverPreview.x PhotoHoverPreview.y].
  destruct (gt_cases (PhotoHoverPreview.x m + 15 + 256) vw) as [[-> Ha] | [-> Ha]],
    (gt_cases (PhotoHoverPreview.y m + 15 + 200) vh) as [[-> Hb] | [-> Hb]];
    repeat split; try lra; (left; lra) || (right; lra).
Qed.

Lemma preview_stays_in_the_window_witness :
  let m := PhotoHoverPreview.Point 1200 300 in
  let p := PhotoHoverPreview.position m 1280 720 in
  (0 <= PhotoHoverPreview.x p)%Q /\ (PhotoHoverPreview.x p + 256 <= 1280)%Q
  /\ (0 <= PhotoHoverPreview.y p)%Q /\ (PhotoHoverPreview.y p + 200 <= 720)%Q
  /\ ((PhotoHoverPreview.x p == PhotoHoverPreview.x m + 15)%Q
      \/ (PhotoHoverPreview.x p + 256 == PhotoHoverPreview.x m - 15)%Q)
  /\ ((PhotoHoverPreview.y p == PhotoHoverPreview.y m + 15)%Q
      \/ (PhotoHoverPreview.y p + 200 == PhotoHoverPreview.y m - 15)%Q).
Proof.
  intros m.
  apply (preview_stays_in_the_window m 1280 720); vm_compute; discriminate.
Defined.

(** The two reads of the modal from a backend that fails nothing. *)
Lemma getOriginalImageData_healthy photoId c w :
  responses w = [] -> photos w !! photoId = Some c ->
  exists r w',
    getOriginalImageData photoId w = (Ret r, w')
    /\ read_only w w' /\ responses w' = []
    /\ match Table.storage_path c with
       | Some (String a path) =>
           match bucket w !! String a path with
           | Some u => r = Reply true (Some u) None
           | None => success r = false
           end
       | _ => success r = false
       end.
Proof.
  intros Hnil Hc.
  unfold getOriginalImageData, downloadOriginalImage, readAsDataURL, column, try_catch,
    photos_select_single, storage_download, ask, answer.
  run. rewrite Hnil. run. rewrite Hc. run.
  destruct (Table.storage_path c) as [[| a path] |]; run;
    try (eexists _, _; split; [reflexivity |]; by repeat split).
  rewrite Hnil. run.
  destruct (bucket w !! String a path); run;
    eexists _, _; (split; [reflexivity |]); by repeat split.
Qed.

Lemma getFullImageData_healthy photoId c w :
  responses w = [] -> photos w !! photoId = Some c ->
  exists w',
    getFullImageData photoId w = (Ret (Reply true (Some (Table.image_data c)) None), w')
    /\ read_only w w' /\ responses w' = [].
Proof.
  intros Hnil Hc.
  destruct (getFullImageData_run photoId w) as (r & w' & -> & R & A & H).
  exists w'. rewrite Hnil in A. split; [| done].
  by rewrite (column_read_healthy _ _ _ _ _ H Hc Hnil).
Qed.

(** X24. The modal shows the original, or else the compressed image.  For
    a photo whose row is in the table and a backend that fails nothing,
    the effect of the modal ends with the object of the bucket at the
    row's storage path as the image, and with the row's inline image when
    the row has no storage path or the bucket no object there; nothing is
    changed at the backend, and the form holds the name and the
    description of the photo, empty for null. *)
Theorem modal_loads_original_or_compressed photo c s w :
  selectedPhoto s = Some photo -> showModal s = true -> photo_id photo <> 0 ->
  photos w !! photo_id photo = Some c -> responses w = [] ->
  exists s' w',
    load s w = (Ret s', w')
    /\ read_only w w'
    /\ isLoadingOriginal s' = false
    /\ originalImageData s'
       = match match Table.storage_path c with
               | Some (String a path) => bucket w !! String a path
               | _ => None
               end with
         | Some u => Some u
         | None => Table.image_data c
         end
    /\ photoName s' = JS.or_else (Table.name (photo_row photo)) EmptyString
    /\ photoDescription s' = JS.or_else (Table.description (photo_row photo)) EmptyString
    /\ selectedPhoto s' = Some photo /\ showModal s' = true.
Proof.
  intros Hsel Hshow Hid Hc Hnil. unfold load. rewrite Hsel, Hshow.
  assert (Hz : (photo_id photo =? 0) = false) by (by apply Z.eqb_neq).
  rewrite Hz. cbn [andb negb]. cbv zeta. unfold try_catch at 1.
  unfold mbind at 1 2. unfold Async_bind at 1 2.
  destruct (getOriginalImageData_healthy (photo_id photo) c w Hnil Hc)
    as (r & w1 & -> & R1 & A1 & Hr).
  assert (Hfall : forall s0 w0, read_only w w0 -> responses w0 = [] ->
            exists w2, fallback (photo_id photo) s0 w0
                       = (Ret (setOriginalImageData (Table.image_data c) s0), w2)
                       /\ read_only w w2).
  { intros s0 w0 R0 A0. unfold fallback, try_catch. unfold mbind, Async_bind.
    assert (Hc0 : photos w0 !! photo_id photo = Some c) by (by rewrite (proj1 R0)).
    destruct (getFullImageData_healthy (photo_id photo) c w0 A0 Hc0) as (w2 & -> & R2 & _).
    exists w2. split; [done |]. by eapply read_only_trans. }
  destruct (Table.storage_path c) as [[| a path] |].
  1, 3: rewrite Hr; unfold console_log at 1; unfold mbind at 1; unfold Async_bind at 1.
  1, 2: match goal with |- context [fallback _ ?s0 ?w0] =>
          destruct (Hfall s0 w0) as (w2 & -> & R2); [by apply R1 | done |]
        end; eexists _, _; (split; [reflexivity |]); (split; [exact R2 |]);
        by repeat split.
  destruct (bucket w !! String a path) as [u |].
  - subst r. cbn. eexists _, _. split; [reflexivity |]. split; [exact R1 |].
    by repeat split.
  - rewrite Hr. unfold console_log at 1. unfold mbind at 1. unfold Async_bind at 1.
    match goal with |- context [fallback _ ?s0 ?w0] =>
      destruct (Hfall s0 w0) as (w2 & -> & R2); [by apply R1 | done |]
    end.
    eexists _, _. split; [reflexivity |]. split; [exact R2 |]. by repeat split.
Qed.

Lemma modal_loads_original_or_compressed_witness :
  let photo := Terms.thumbnail_photo (4, Sample.legacy_row) in
  let s := State None false EmptyString EmptyString false true (Some photo) in
  exists s' w',
    load s Sample.world1 = (Ret s', w')
    /\ read_only Sample.world1 w'
    /\ isLoadingOriginal s' = false
    /\ originalImageData s'
       = match match Table.storage_path Sample.legacy_row with
               | Some (String a path) => bucket Sample.world1 !! String a path
               | _ => None
               end with
         | Some u => Some u
         | None => Table.image_data Sample.legacy_row
         end
    /\ photoName s' = JS.or_else (Table.name (photo_row photo)) EmptyString
    /\ photoDescription s' = JS.or_else (Table.description (photo_row photo)) EmptyString
    /\ selectedPhoto s' = Some photo /\ showModal s' = true.
Proof.
  intros photo s.
  apply (modal_loads_original_or_compressed photo Sample.legacy_row s Sample.world1);
    [reflexivity | reflexivity | discriminate | reflexivity | reflexivity].
Defined.

Lemma updatePhotoDetails_run photoId name description user w :
  Utils.checkAdminPermission user = true ->
  exists r w' a,
    PhotoService.updatePhotoDetails photoId name description user w = (Ret r, w')
    /\ Spec.made_requests w w'
         [(PhotosUpdate
             [Table.SetName (JS.or_null name); Table.SetDescription (JS.or_null description)]
             photoId, a)]
    /\ (a = None -> PhotoService.success r = true).
Proof.
  intros Hadmin.
  unfold PhotoService.updatePhotoDetails, Utils.requireAdmin, try_catch,
    PhotoService.first, Supabase.photos_update, Supabase.exchange, answer,
    Spec.made_requests.
  rewrite Hadmin. run.
  destruct (responses w) as [| [e |] rest]; run;
    try (destruct (photos w !! photoId); run; try (destruct (Table.not_null _); run));
    eexists _, _, _; (split; [reflexivity |]); by split.
Qed.

Lemma or_null_or_else (v : option string) :
  JS.or_null (Some (JS.or_else v EmptyString)) = JS.or_null v.
Proof. by destruct v as [[] |]. Qed.

(** X25. Saving an untouched form.  With the form as the effect of the
    modal filled it, [handleSave] of a signed-in user closes the modal
    without a request when the photo has both a name and a description;
    when one of them is null it finds the form changed, and for an
    administrator asks for one update, which writes the name and the
    description the row has (empty strings as null), and closes the modal
    if the update goes through. *)
Theorem untouched_form_is_saved_when_a_field_is_null photo user s w :
  selectedPhoto s = Some photo -> is_Some user ->
  photoName s = JS.or_else (Table.name (photo_row photo)) EmptyString ->
  photoDescription s = JS.or_else (Table.description (photo_row photo)) EmptyString ->
  exists s' w' made,
    handleSave user s w = (Ret s', w')
    /\ Spec.made_requests w w' made
    /\ isSaving s' = false
    /\ match Table.name (photo_row photo), Table.description (photo_row photo) with
       | Some _, Some _ => made = [] /\ showModal s' = false
       | _, _ =>
           if Utils.checkAdminPermission user then
             exists a,
               made = [(PhotosUpdate
                          [Table.SetName (JS.or_null (Table.name (photo_row photo)));
                           Table.SetDescription
                             (JS.or_null (Table.description (photo_row photo)))]
                          (photo_id photo), a)]
               /\ (a = None -> showModal s' = false)
           else made = [] /\ showModal s' = showModal s
       end.
Proof.
  intros Hsel [u ->] Hname Hdesc. unfold handleSave. rewrite Hsel. cbv zeta.
  set (name := Table.name (photo_row photo)) in *.
  set (description := Table.description (photo_row photo)) in *.
  assert (Hchanged : changed (setIsSaving true s) photo
                     = match name, description with
                       | Some _, Some _ => false
                       | _, _ => true
                       end).
  { unfold changed. cbn [photoName photoDescription setIsSaving]. fold name description.
    rewrite Hname, Hdesc.
    destruct name as [[| a n] |], description as [[| b d] |]; cbn [JS.or_else];
      rewrite ?bool_decide_eq_true_2, ?bool_decide_eq_false_2 by done; done. }
  unfold try_catch. unfold mbind at 1. unfold Async_bind at 1. rewrite Hchanged.
  assert (Hnil : forall w0 : world, Spec.made_requests w0 w0 [])
    by (intros w0; unfold Spec.made_requests; by rewrite app_nil_r).
  assert (Hsave : exists s' w' made,
    (PhotoService.updatePhotoDetails (photo_id photo) (Some (photoName (setIsSaving true s)))
       (Some (photoDescription (setIsSaving true s))) (Some u)
     ≫= (λ detailsResult,
          if PhotoService.success detailsResult
          then
            console_log "Photo details updated successfully" None
            ≫= λ _, mret (State (originalImageData (setIsSaving true s))
                            (isLoadingOriginal (setIsSaving true s))
                            (photoName (setIsSaving true s))
                            (photoDescription (setIsSaving true s))
                            (isSaving (setIsSaving true s)) false
                            (Some (PhotosContext.with_columns
                                     [Table.SetName (Some (photoName (setIsSaving true s)));
                                      Table.SetDescription
                                        (Some (photoDescription (setIsSaving true s)))]
                                     photo)))
          else
            console_log "Failed to update photo details:"
              (PhotoService.error detailsResult)
            ≫= λ _, mret (setIsSaving true s))) w = (Ret s', w')
    /\ Spec.made_requests w w' made
    /\ if Utils.checkAdminPermission (Some u) then
         exists a,
           made = [(PhotosUpdate
                      [Table.SetName (JS.or_null name);
                       Table.SetDescription (JS.or_null description)]
                      (photo_id photo), a)]
           /\ (a = None -> showModal s' = false)
       else made = [] /\ showModal s' = showModal s).
  { cbn [photoName photoDescription setIsSaving]. rewrite Hname, Hdesc.
    destruct (Utils.checkAdminPermission (Some u)) eqn:Hadmin.
    - destruct (updatePhotoDetails_run (photo_id photo)
                  (Some (JS.or_else name EmptyString))
                  (Some (JS.or_else description EmptyString)) (Some u) w Hadmin)
        as (r & w1 & a & E & M & Hok).
      rewrite !or_null_or_else in M.
      unfold mbind at 1. unfold Async_bind at 1. rewrite E.
      destruct (PhotoService.success r) eqn:Hs; run.
      + eexists _, _, _. split; [reflexivity |]. split; [exact M |]. by exists a.
      + eexists _, _, _. split; [reflexivity |]. split; [exact M |]. exists a.
        split; [done |]. intros Ha. specialize (Hok Ha). congruence.
    - unfold PhotoService.updatePhotoDetails, Utils.requireAdmin, try_catch.
      rewrite Hadmin. run. eexists _, _, []. split; [reflexivity |].
      split; [unfold Spec.made_requests; cbn; by rewrite app_nil_r | done]. }
  destruct name as [n |], description as [d |];
    try (destruct Hsave as (s1 & w1 & made & -> & M & H);
         eexists _, _, made; (split; [reflexivity |]); (split; [exact M |]);
         split; [done |];
         destruct (Utils.checkAdminPermission (Some u));
           [destruct H as (a & -> & H); by exists a | done]).
  eexists _, _, []. split; [reflexivity |]. split; [apply Hnil |]. done.
Qed.

Lemma untouched_form_is_saved_when_a_field_is_null_witness :
  let photo := Terms.thumbnail_photo (4, Sample.legacy_row) in
  let s := State None false EmptyString EmptyString false true (Some photo) in
  exists s' w' made,
    handleSave Sample.administrator s Sample.world1 = (Ret s', w')
    /\ Spec.made_requests Sample.world1 w' made
    /\ isSaving s' = false
    /\ match Table.name (photo_row photo), Table.description (photo_row photo) with
       | Some _, Some _ => made = [] /\ showModal s' = false
       | _, _ =>
           if Utils.checkAdminPermission Sample.administrator then
             exists a,
               made = [(PhotosUpdate
                          [Table.SetName (JS.or_null (Table.name (photo_row photo)));
                           Table.SetDescription
                             (JS.or_null (Table.description (photo_row photo)))]
                          (photo_id photo), a)]
               /\ (a = None -> showModal s' = false)
           else made = [] /\ showModal s' = showModal s
       end.
Proof.
  intros photo s.
  apply (untouched_form_is_saved_when_a_field_is_null photo Sample.administrator s
           Sample.world1); [reflexivity | by eexists | reflexivity | reflexivity].
Defined.

End ModalFacts.
